(** * convert_cbz: a shallow embedding of [main.go] and its specification

    The program walks the immediate sub-folders of an input directory and
    turns each of them into a zip archive (extension [.cbz]) that holds the
    folder's image files.  This file embeds the Go code of [main.go] in Rocq
    and proves the properties its specification states.

    Layout:
    - the parts of the Go standard library the program calls ([strings],
      [sort], [path/filepath], [net/http]'s content sniffing, [os],
      [archive/zip], [fmt]), each in a module named after the Go package;
    - the functions of [main.go], under their Go names;
    - the worker pool of [processConcurrently] as a transition system;
    - the theorems. *)

From Stdlib Require Import ZArith List String Ascii Lia Bool Arith.
From Stdlib.Strings Require Import Byte.
From Stdlib Require Import Sorted Permutation Mergesort Orders.
From Stdlib Require Import Floats Uint63 DecimalString.
Import ListNotations.

#[local] Set Warnings "-register-all".

Local Infix "+++" := String.append (right associativity, at level 60).

(** ** Go values *)

(** A Go [[]byte] is a list of bytes; a Go [string] is a [string] (a list of
    8-bit characters, compared byte by byte as Go does). *)
Definition bytes := list byte.

Definition bytesOf (s : string) : bytes := list_byte_of_string s.

(** The operating system's error numbers the model distinguishes. *)
Inductive errno := ENOENT | ENOTDIR | EISDIR | EACCES | EIO.

(** Go [error] values: an [*fs.PathError] of the [os] package, an
    [errors.New] / [fmt.Errorf] without verb, and [fmt.Errorf("...: %w", err)]. *)
Inductive error :=
| PathError (op path : string) (e : errno)
| ErrorString (msg : string)
| Wrapped (msg : string) (cause : error).

(** A Go result pair [(v, err)]: either the value (and a nil error) or the
    error. *)
Inductive result (A : Type) :=
| Ok (v : A)
| Err (e : error).
Arguments Ok {A} v.
Arguments Err {A} e.

Definition errnoText (e : errno) : string :=
  match e with
  | ENOENT => "no such file or directory"
  | ENOTDIR => "not a directory"
  | EISDIR => "is a directory"
  | EACCES => "permission denied"
  | EIO => "input/output error"
  end.

(** [err.Error()], as [%v] prints it. *)
Fixpoint errorText (e : error) : string :=
  match e with
  | PathError op path no => op +++ " " +++ path +++ ": " +++ errnoText no
  | ErrorString msg => msg
  | Wrapped msg cause => msg +++ ": " +++ errorText cause
  end.

(** ** Package [strings] *)
Module strings.

(** [strings.HasPrefix(s, prefix)]. *)
Definition HasPrefix (s pre : string) : bool := String.prefix pre s.

End strings.

(** ** Package [net/http]: [DetectContentType]

    The sniffing table of Go's [net/http/sniff.go], which implements the
    WHATWG MIME sniffing algorithm on at most 512 bytes. *)
Module http.

Definition sniffLen : nat := 512.

Definition isWS (b : byte) : bool :=
  match b with
  | x09 | x0a | x0c | x0d | x20 => true
  | _ => false
  end.

(** A tag-terminating byte: space or [>]. *)
Definition isTT (b : byte) : bool :=
  match b with
  | x20 | x3e => true
  | _ => false
  end.

Definition byteAnd (a b : byte) : N := N.land (Byte.to_N a) (Byte.to_N b).

Definition isUpper (b : byte) : bool :=
  (Byte.to_N "A"%byte <=? Byte.to_N b)%N && (Byte.to_N b <=? Byte.to_N "Z"%byte)%N.

Inductive sniffSig :=
| htmlSig (h : bytes)
| maskedSig (mask pat : bytes) (skipWS : bool) (ct : string)
| exactSig (sig : bytes) (ct : string)
| mp4Sig
| textSig.

(** [bytes.HasPrefix(data, sig)]. *)
Fixpoint hasPrefix (data sig : bytes) {struct sig} : bool :=
  match sig, data with
  | [], _ => true
  | _ :: _, [] => false
  | s :: sig', d :: data' => Byte.eqb s d && hasPrefix data' sig'
  end.

(** [htmlSig.match] on [data[firstNonWS:]]: the signature is matched case
    insensitively on its upper-case letters, and the byte after it must be
    tag-terminating. *)
Fixpoint htmlMatch (h data : bytes) : bool :=
  match h, data with
  | [], d :: _ => isTT d
  | [], [] => false
  | _ :: _, [] => false
  | b :: h', d :: data' =>
      let db := if isUpper b then byteAnd d xdf else Byte.to_N d in
      (Byte.to_N b =? db)%N && htmlMatch h' data'
  end.

(** The loop of [maskedSig.match]: [data[i] & mask[i] == pat[i]] for every
    index of [pat]; [false] when [data] is shorter than [pat]. *)
Fixpoint maskedLoop (mask pat data : bytes) : bool :=
  match pat, mask, data with
  | [], _, _ => true
  | p :: pat', m :: mask', d :: data' =>
      (byteAnd d m =? Byte.to_N p)%N && maskedLoop mask' pat' data'
  | _, _, _ => false
  end.

Definition maskedMatch (mask pat : bytes) (skipWS : bool) (data : bytes)
    (firstNonWS : nat) : bool :=
  let data := if skipWS then skipn firstNonWS data else data in
  if negb (List.length pat =? List.length mask)%nat then false
  else maskedLoop mask pat data.

(** [binary.BigEndian.Uint32(data[:4])]. *)
Definition bigEndianUint32 (data : bytes) : N :=
  match data with
  | a :: b :: c :: d :: _ =>
      (Byte.to_N a * 16777216 + Byte.to_N b * 65536 + Byte.to_N c * 256
       + Byte.to_N d)%N
  | _ => 0%N
  end.

(** The loop [for st := 8; st < boxSize; st += 4] of [mp4Sig.match]; [n]
    bounds the number of iterations left. *)
Fixpoint mp4Loop (n : nat) (data : bytes) (st boxSize : nat) : bool :=
  match n with
  | O => false
  | S n' =>
      if (st <? boxSize)%nat then
        if (st =? 12)%nat then mp4Loop n' data (st + 4) boxSize
        else if hasPrefix (skipn st data) (bytesOf "mp4") then true
        else mp4Loop n' data (st + 4) boxSize
      else false
  end.

Definition mp4Match (data : bytes) : bool :=
  if (List.length data <? 12)%nat then false
  else
    let boxSize := bigEndianUint32 data in
    if (N.of_nat (List.length data) <? boxSize)%N || negb (boxSize mod 4 =? 0)%N
    then false
    else if negb (hasPrefix (skipn 4 data) (bytesOf "ftyp")) then false
    else mp4Loop sniffLen data 8 (N.to_nat boxSize).

(** A byte that [textSig] takes for binary data. *)
Definition isBinaryByte (b : byte) : bool :=
  let n := Byte.to_N b in
  ((n <=? 8) || (n =? 11) || ((14 <=? n) && (n <=? 26))
   || ((28 <=? n) && (n <=? 31)))%N.

Definition textMatch (data : bytes) (firstNonWS : nat) : bool :=
  forallb (fun b => negb (isBinaryByte b)) (skipn firstNonWS data).

(** [sig.match(data, firstNonWS)]: the content type, or [""] for no match. *)
Definition sigMatch (sig : sniffSig) (data : bytes) (firstNonWS : nat) : string :=
  match sig with
  | htmlSig h =>
      if htmlMatch h (skipn firstNonWS data) then "text/html; charset=utf-8" else ""
  | maskedSig mask pat skipWS ct =>
      if maskedMatch mask pat skipWS data firstNonWS then ct else ""
  | exactSig sig ct => if hasPrefix data sig then ct else ""
  | mp4Sig => if mp4Match data then "video/mp4" else ""
  | textSig => if textMatch data firstNonWS then "text/plain; charset=utf-8" else ""
  end.

Definition ff (n : nat) : bytes := repeat xff n.
Definition zz (n : nat) : bytes := repeat x00 n.

Definition sniffSignatures : list sniffSig :=
  [ htmlSig (bytesOf "<!DOCTYPE HTML");
    htmlSig (bytesOf "<HTML");
    htmlSig (bytesOf "<HEAD");
    htmlSig (bytesOf "<SCRIPT");
    htmlSig (bytesOf "<IFRAME");
    htmlSig (bytesOf "<H1");
    htmlSig (bytesOf "<DIV");
    htmlSig (bytesOf "<FONT");
    htmlSig (bytesOf "<TABLE");
    htmlSig (bytesOf "<A");
    htmlSig (bytesOf "<STYLE");
    htmlSig (bytesOf "<TITLE");
    htmlSig (bytesOf "<B");
    htmlSig (bytesOf "<BODY");
    htmlSig (bytesOf "<BR");
    htmlSig (bytesOf "<P");
    htmlSig (bytesOf "<!--");
    maskedSig (ff 5) (bytesOf "<?xml") true "text/xml; charset=utf-8";
    exactSig (bytesOf "%PDF-") "application/pdf";
    exactSig (bytesOf "%!PS-Adobe-") "application/postscript";
    (* UTF byte order marks *)
    maskedSig (ff 2 ++ zz 2) ([xfe; xff] ++ zz 2) false "text/plain; charset=utf-16be";
    maskedSig (ff 2 ++ zz 2) ([xff; xfe] ++ zz 2) false "text/plain; charset=utf-16le";
    maskedSig (ff 3 ++ zz 1) ([xef; xbb; xbf] ++ zz 1) false "text/plain; charset=utf-8";
    (* image types *)
    exactSig [x00; x00; x01; x00] "image/x-icon";
    exactSig [x00; x00; x02; x00] "image/x-icon";
    exactSig (bytesOf "BM") "image/bmp";
    exactSig (bytesOf "GIF87a") "image/gif";
    exactSig (bytesOf "GIF89a") "image/gif";
    maskedSig (ff 4 ++ zz 4 ++ ff 6) (bytesOf "RIFF" ++ zz 4 ++ bytesOf "WEBPVP")
      false "image/webp";
    exactSig ([x89] ++ bytesOf "PNG" ++ [x0d; x0a; x1a; x0a]) "image/png";
    exactSig [xff; xd8; xff] "image/jpeg";
    (* audio and video types *)
    maskedSig (ff 4 ++ zz 4 ++ ff 4) (bytesOf "FORM" ++ zz 4 ++ bytesOf "AIFF")
      false "audio/aiff";
    maskedSig (ff 3) (bytesOf "ID3") false "audio/mpeg";
    maskedSig (ff 5) (bytesOf "OggS" ++ zz 1) false "application/ogg";
    maskedSig (ff 8) (bytesOf "MThd" ++ [x00; x00; x00; x06]) false "audio/midi";
    maskedSig (ff 4 ++ zz 4 ++ ff 4) (bytesOf "RIFF" ++ zz 4 ++ bytesOf "AVI ")
      false "video/avi";
    maskedSig (ff 4 ++ zz 4 ++ ff 4) (bytesOf "RIFF" ++ zz 4 ++ bytesOf "WAVE")
      false "audio/wave";
    mp4Sig;
    exactSig [x1a; x45; xdf; xa3] "video/webm";
    (* font types *)
    maskedSig (zz 34 ++ ff 2) (zz 34 ++ bytesOf "LP") false
      "application/vnd.ms-fontobject";
    exactSig [x00; x01; x00; x00] "font/ttf";
    exactSig (bytesOf "OTTO") "font/otf";
    exactSig (bytesOf "ttcf") "font/collection";
    exactSig (bytesOf "wOFF") "font/woff";
    exactSig (bytesOf "wOF2") "font/woff2";
    (* archive types *)
    exactSig [x1f; x8b; x08] "application/x-gzip";
    exactSig (bytesOf "PK" ++ [x03; x04]) "application/zip";
    exactSig (bytesOf "Rar!" ++ [x1a; x07; x00]) "application/x-rar-compressed";
    exactSig (bytesOf "Rar!" ++ [x1a; x07; x01; x00]) "application/x-rar-compressed";
    exactSig ([x00] ++ bytesOf "asm") "application/wasm";
    textSig ].

(** Index of the first byte of [data] that is not white space. *)
Fixpoint firstNonWS (data : bytes) : nat :=
  match data with
  | d :: data' => if isWS d then S (firstNonWS data') else O
  | [] => O
  end.

(** The first signature of the table that matches decides. *)
Fixpoint firstMatch (sigs : list sniffSig) (data : bytes) (ws : nat) : string :=
  match sigs with
  | [] => "application/octet-stream"
  | sig :: sigs' =>
      let ct := sigMatch sig data ws in
      if String.eqb ct "" then firstMatch sigs' data ws else ct
  end.

Definition DetectContentType (data : bytes) : string :=
  let data := firstn sniffLen data in
  firstMatch sniffSignatures data (firstNonWS data).

End http.

(** ** Package [sort] *)

(** Go compares strings byte by byte; [String.leb] is that order. *)
Module StringOrder <: TotalLeBool.
Definition t := string.
Definition leb (a b : string) : bool := String.leb a b.
Lemma leb_total : forall a1 a2, leb a1 a2 = true \/ leb a2 a1 = true.
Proof. exact String.leb_total. Qed.
End StringOrder.

Module StringSort := Sort StringOrder.

Module sort.

(** [sort.Strings(x)]: [x] in increasing order.  Equal strings cannot be
    told apart, so every sorting algorithm returns the same slice. *)
Definition Strings (x : list string) : list string := StringSort.sort x.

End sort.

(** ** Package [path/filepath], as built for Unix *)
Module filepath.

Definition Separator : ascii := "/".

Definition isSep (c : ascii) : bool := Ascii.eqb c Separator.

Definition sepString : string := String Separator "".

(** The elements of a path: the pieces between separators (empty pieces
    included, so the list is never empty). *)
Fixpoint split (path : string) : list string :=
  match path with
  | EmptyString => [""%string]
  | String c rest =>
      if isSep c then ""%string :: split rest
      else
        match split rest with
        | e :: es => String c e :: es
        | [] => [String c ""]
        end
  end.

Definition joinElems (es : list string) : string := String.concat sepString es.

(** The element loop of [Clean]: [stack] holds the elements kept so far, the
    last one first.  Empty and [.] elements are dropped; [..] removes the
    element before it, is dropped at the root, and is kept at the start of
    a relative path. *)
Fixpoint cleanElems (rooted : bool) (stack es : list string) : list string :=
  match es with
  | [] => stack
  | e :: es' =>
      if String.eqb e "" || String.eqb e "." then cleanElems rooted stack es'
      else if String.eqb e ".." then
        match stack with
        | top :: below =>
            if String.eqb top ".." then cleanElems rooted (e :: stack) es'
            else cleanElems rooted below es'
        | [] =>
            if rooted then cleanElems rooted [] es'
            else cleanElems rooted [e] es'
        end
      else cleanElems rooted (e :: stack) es'
  end.

Definition isRooted (path : string) : bool :=
  match path with
  | String c _ => isSep c
  | EmptyString => false
  end.

(** [filepath.Clean(path)]. *)
Definition Clean (path : string) : string :=
  if String.eqb path "" then "."%string
  else
    let rooted := isRooted path in
    let body := joinElems (rev (cleanElems rooted [] (split path))) in
    if rooted then sepString +++ body
    else if String.eqb body "" then "."%string
    else body.

(** [filepath.Join(dir, name)]: the two joined by a separator, from the
    first one that is not empty, and cleaned. *)
Definition Join (dir name : string) : string :=
  if negb (String.eqb dir "") then Clean (dir +++ sepString +++ name)
  else if negb (String.eqb name "") then Clean name
  else ""%string.

(** [filepath.Base(path)]: the last element, trailing separators removed. *)
Definition Base (path : string) : string :=
  if String.eqb path "" then "."%string
  else
    match rev (filter (fun e => negb (String.eqb e "")) (split path)) with
    | e :: _ => e
    | [] => sepString
    end.

(** [filepath.ToSlash(path)]: every separator replaced by a slash (nothing
    to do where the separator is the slash). *)
Fixpoint replaceSep (path : string) : string :=
  match path with
  | EmptyString => EmptyString
  | String c rest => String (if isSep c then "/"%char else c) (replaceSep rest)
  end.

Definition ToSlash (path : string) : string :=
  if Ascii.eqb Separator "/" then path else replaceSep path.

(** The elements of a cleaned path, for [Rel]: none for the empty path, and
    only the empty element before the separator for the root. *)
Definition segments (path : string) : list string :=
  if String.eqb path "" then []
  else if String.eqb path sepString then [""%string]
  else split path.

(** The loop of [Rel]: drop the leading elements base and target share.
    The flag tells whether the loop stopped at two differing elements. *)
Fixpoint relLoop (base targ : list string) : bool * list string * list string :=
  match base, targ with
  | b :: base', t :: targ' =>
      if String.eqb b t then relLoop base' targ' else (true, base, targ)
  | _, _ => (false, base, targ)
  end.

(** [filepath.Rel(basepath, targpath)].  A base or a target that cleans to
    [.] counts as the empty path, so that [Rel "a" "."] is [..]. *)
Definition Rel (basepath targpath : string) : result string :=
  let base := Clean basepath in
  let targ := Clean targpath in
  let cannot :=
    Err (ErrorString ("Rel: can't make " +++ targpath +++ " relative to " +++ basepath)) in
  if String.eqb targ base then Ok "."%string
  else
    let base := if String.eqb base "." then ""%string else base in
    let targ := if String.eqb targ "." then ""%string else targ in
    if negb (Bool.eqb (isRooted base) (isRooted targ)) then cannot
    else
      match relLoop (segments base) (segments targ) with
      | (true, ".."%string :: _, _) => cannot
      | (_, [], targ') => Ok (joinElems targ')
      | (_, _ :: base', targ') =>
          let up := (".." +++ String.concat "" (map (fun _ => sepString +++ "..") base'))%string in
          match targ' with
          | [] => Ok up
          | _ => Ok (up +++ sepString +++ joinElems targ')
          end
      end.

End filepath.

(** ** Package [fmt]: the verbs the program uses *)
Module fmt.

(** [%d] of an [int]. *)
Definition itoa (n : Z) : string := NilZero.string_of_int (Z.to_int n).

End fmt.

(** ** Package [os]: the file system

    A file system is a tree.  A regular file carries its bytes, its
    modification time, and the errors the system answers when the file is
    opened or read (permissions, a failing device).  A directory carries
    its entries in the order [os.ReadDir] reports them (sorted by name) and
    the error opening it for reading answers, if any.  Symbolic links and
    special files are not modelled; every path is resolved from the root of
    the tree.

    A path is resolved through its elements: every element but the empty
    one and [.] is looked up as the name of an entry.  So the tree stands
    for the kernel's on the paths that have no element [..] (which the
    kernel takes as the parent directory) and no separator after the name
    of a regular file (which the kernel refuses). *)
Module os.

Record file := {
  openErr : option errno;
  readErr : option errno;
  data : bytes;
  modTime : Z
}.

Inductive node :=
| File (f : file)
| Dir (listErr : option errno) (entries : list (string * node)).

Definition FS := node.

(** What a system call answers: a value or an error number. *)
Inductive outcome (A : Type) :=
| Got (a : A)
| Errno (e : errno).
Arguments Got {A} a.
Arguments Errno {A} e.

Record FileInfo := {
  Name : string;
  Size : Z;
  IsDir : bool;
  ModTime : Z
}.

(** An [fs.DirEntry]: name and kind. *)
Record DirEntry := {
  entryName : string;
  entryIsDir : bool
}.

(** An open file: the path it was opened by and what it holds. *)
Record File_ := {
  fileName : string;
  fileNode : node
}.

Definition isDirNode (n : node) : bool :=
  match n with
  | Dir _ _ => true
  | File _ => false
  end.

Definition infoOf (name : string) (n : node) : FileInfo :=
  match n with
  | File f => {| Name := name; Size := Z.of_nat (List.length (data f));
                 IsDir := false; ModTime := modTime f |}
  | Dir _ _ => {| Name := name; Size := 0; IsDir := true; ModTime := 0 |}
  end.

Definition entryOf (name : string) (n : node) : DirEntry :=
  {| entryName := name; entryIsDir := isDirNode n |}.

(** The names a path is resolved through: empty elements and [.] name no
    step. *)
Definition pathElems (path : string) : list string :=
  filter (fun e => negb (String.eqb e "" || String.eqb e "."))
         (filepath.split path).

Fixpoint find (name : string) (es : list (string * node)) : option node :=
  match es with
  | [] => None
  | (k, n) :: es' => if String.eqb k name then Some n else find name es'
  end.

Fixpoint lookup (elems : list string) (n : node) : outcome node :=
  match elems with
  | [] => Got n
  | e :: elems' =>
      match n with
      | File _ => Errno ENOTDIR
      | Dir _ es =>
          match find e es with
          | None => Errno ENOENT
          | Some child => lookup elems' child
          end
      end
  end.

Definition resolve (fs : FS) (path : string) : outcome node :=
  if String.eqb path "" then Errno ENOENT else lookup (pathElems path) fs.

(** [os.Stat(path)] and [os.Lstat(path)] (the same without links). *)
Definition Stat (fs : FS) (path : string) : result FileInfo :=
  match resolve fs path with
  | Got n => Ok (infoOf (filepath.Base path) n)
  | Errno e => Err (PathError "stat" path e)
  end.

Definition Lstat (fs : FS) (path : string) : result FileInfo :=
  match resolve fs path with
  | Got n => Ok (infoOf (filepath.Base path) n)
  | Errno e => Err (PathError "lstat" path e)
  end.

(** [os.IsNotExist(err)]; a nil error does not say so. *)
Definition IsNotExist (err : option error) : bool :=
  match err with
  | Some (PathError _ _ ENOENT) => true
  | _ => false
  end.

(** [os.Open(path)]: open for reading. *)
Definition Open (fs : FS) (path : string) : result File_ :=
  match resolve fs path with
  | Errno e => Err (PathError "open" path e)
  | Got (File f) =>
      match openErr f with
      | Some e => Err (PathError "open" path e)
      | None => Ok {| fileName := path; fileNode := File f |}
      end
  | Got (Dir le es) =>
      match le with
      | Some e => Err (PathError "open" path e)
      | None => Ok {| fileName := path; fileNode := Dir le es |}
      end
  end.

(** [file.Stat()]. *)
Definition FStat (f : File_) : result FileInfo :=
  Ok (infoOf (filepath.Base (fileName f)) (fileNode f)).

(** The end-of-file error [io.EOF]. *)
Definition EOF : error := ErrorString "EOF".

Definition isEOF (e : error) : bool :=
  match e with
  | ErrorString msg => String.eqb msg "EOF"
  | _ => false
  end.

(** [n, err := file.Read(buffer)] on a file just opened: the first bytes of
    the file overwrite the start of [buffer]; the rest of [buffer] stays.
    At the end of the file the answer is [0, io.EOF]. *)
Definition Read (f : File_) (buffer : bytes) : bytes * Z * option error :=
  match fileNode f with
  | Dir _ _ => (buffer, 0%Z, Some (PathError "read" (fileName f) EISDIR))
  | File c =>
      match readErr c with
      | Some e => (buffer, 0%Z, Some (PathError "read" (fileName f) e))
      | None =>
          let chunk := firstn (List.length buffer) (data c) in
          match chunk with
          | [] => (buffer, 0%Z, Some EOF)
          | _ => (chunk ++ skipn (List.length chunk) buffer,
                  Z.of_nat (List.length chunk), None)
          end
      end
  end.

(** Everything [io.Copy] reads from a file just opened, or the read error. *)
Definition ReadAll (f : File_) : result bytes :=
  match fileNode f with
  | Dir _ _ => Err (PathError "read" (fileName f) EISDIR)
  | File c =>
      match readErr c with
      | Some e => Err (PathError "read" (fileName f) e)
      | None => Ok (data c)
      end
  end.

(** [os.ReadDir(path)].  On a regular file the current library fails when
    it opens the path as a directory ([open path: not a directory]); the
    older library opens the file and fails when it reads the
    entries, with the same error number under the operation [readdirent]. *)
Definition ReadDir (fs : FS) (path : string) : result (list DirEntry) :=
  match resolve fs path with
  | Errno e => Err (PathError "open" path e)
  | Got (File _) => Err (PathError "open" path ENOTDIR)
  | Got (Dir (Some e) _) => Err (PathError "open" path e)
  | Got (Dir None es) => Ok (map (fun '(name, n) => entryOf name n) es)
  end.

(** Put [n] under [name] in a directory listing: in place of the entry of
    that name, or at its place in the order of names. *)
Fixpoint setEntry (name : string) (n : node) (es : list (string * node))
    : list (string * node) :=
  match es with
  | [] => [(name, n)]
  | (k, v) :: es' =>
      if String.eqb k name then (name, n) :: es'
      else if String.ltb name k then (name, n) :: (k, v) :: es'
      else (k, v) :: setEntry name n es'
  end.

(** Create or replace the regular file at [elems] below [n]. *)
Fixpoint putFile (elems : list string) (new : file) (n : node) : outcome node :=
  match elems with
  | [] => Errno EISDIR
  | name :: rest =>
      match n with
      | File _ => Errno ENOTDIR
      | Dir le es =>
          match rest with
          | [] =>
              match find name es with
              | Some (Dir _ _) => Errno EISDIR
              | Some (File old) =>
                  match openErr old with
                  | Some e => Errno e
                  | None => Got (Dir le (setEntry name (File new) es))
                  end
              | None => Got (Dir le (setEntry name (File new) es))
              end
          | _ :: _ =>
              match find name es with
              | None => Errno ENOENT
              | Some child =>
                  match putFile rest new child with
                  | Errno e => Errno e
                  | Got child' => Got (Dir le (setEntry name child' es))
                  end
              end
          end
      end
  end.

Definition emptyFile : file :=
  {| openErr := None; readErr := None; data := []; modTime := 0 |}.

(** [os.Create(path)]: the file exists and is empty afterwards. *)
Definition Create (fs : FS) (path : string) : result FS :=
  if String.eqb path "" then Err (PathError "open" path ENOENT)
  else
    match putFile (pathElems path) emptyFile fs with
    | Got fs' => Ok fs'
    | Errno e => Err (PathError "open" path e)
    end.

(** What closing a file written through [os.Create] leaves at [path]. *)
Definition WriteFile (fs : FS) (path : string) (content : bytes) : FS :=
  match putFile (pathElems path)
          {| openErr := None; readErr := None; data := content; modTime := 0 |} fs with
  | Got fs' => fs'
  | Errno _ => fs
  end.

(** Make the directories [elems] below [n], those missing only. *)
Fixpoint mkdirs (elems : list string) (n : node) : outcome node :=
  match elems with
  | [] =>
      match n with
      | Dir _ _ => Got n
      | File _ => Errno ENOTDIR
      end
  | name :: rest =>
      match n with
      | File _ => Errno ENOTDIR
      | Dir le es =>
          let child :=
            match find name es with
            | Some c => c
            | None => Dir None []
            end in
          match mkdirs rest child with
          | Errno e => Errno e
          | Got child' => Got (Dir le (setEntry name child' es))
          end
      end
  end.

(** [os.MkdirAll(path, 0755)]: the directories of [path] that are missing
    are made, or nothing is when a regular file is in the way.  The error
    is given for [path]; the library gives it for the leading part of
    [path] that names the regular file. *)
Definition MkdirAll (fs : FS) (path : string) : result FS :=
  if String.eqb path "" then Err (PathError "mkdir" path ENOENT)
  else
    match mkdirs (pathElems path) fs with
    | Got fs' => Ok fs'
    | Errno e => Err (PathError "mkdir" path e)
    end.

End os.

(** ** Package [archive/zip] *)
Module zip.

Definition Store : Z := 0.
Definition Deflate : Z := 8.

Record FileHeader := {
  Name : string;
  Method : Z;
  UncompressedSize64 : Z;
  Modified : Z
}.

(** A member of an archive: its header and the bytes written to it (before
    compression). *)
Record member := {
  header : FileHeader;
  body : bytes
}.

(** A [zip.Writer]: the members written so far, in order. *)
Record Writer := {
  dir : list member
}.

Definition NewWriter : Writer := {| dir := [] |}.

(** [zip.FileInfoHeader(fi)]: the name is the base name, the method is not
    set ([Store]). *)
Definition FileInfoHeader (fi : os.FileInfo) : result FileHeader :=
  Ok {| Name := os.Name fi; Method := Store;
        UncompressedSize64 := os.Size fi; Modified := os.ModTime fi |}.

Definition errLongName : error := ErrorString "zip: FileHeader.Name too long".

(** [w.CreateHeader(fh)]: the header joins the directory of the archive;
    writing it fails when the name does not fit 16 bits. *)
Definition CreateHeader (w : Writer) (fh : FileHeader) : Writer * option error :=
  let w' := {| dir := dir w ++ [{| header := fh; body := [] |}] |} in
  if (65535 <? Z.of_nat (String.length (Name fh)))%Z then (w', Some errLongName)
  else (w', None).

(** Writing [content] to the member [CreateHeader] returned last. *)
Definition Write (w : Writer) (content : bytes) : Writer :=
  match rev (dir w) with
  | [] => w
  | m :: before =>
      {| dir := rev before ++ [{| header := header m; body := body m ++ content |}] |}
  end.

End zip.

(** ** Go's [int] *)

(** [int] is 32 or 64 bits wide, by the target the program is built for.
    Its arithmetic wraps around. *)
Inductive wordSize := W32 | W64.

Definition intBits (w : wordSize) : Z :=
  match w with
  | W32 => 32
  | W64 => 64
  end.

Definition maxInt (w : wordSize) : Z := 2 ^ (intBits w - 1) - 1.
Definition minInt (w : wordSize) : Z := - 2 ^ (intBits w - 1).

Definition wrapInt (w : wordSize) (z : Z) : Z :=
  (z + 2 ^ (intBits w - 1)) mod 2 ^ intBits w - 2 ^ (intBits w - 1).

(** ** Package [unicode/utf8], for [[]rune(s)] *)
Module utf8.

Definition between (lo hi : N) (b : byte) : bool :=
  ((lo <=? Byte.to_N b) && (Byte.to_N b <=? hi))%N.

Definition cont (b : byte) : bool := between 128 191 b.

(** The range the second byte of a sequence starting with [b0] must lie
    in, and the length of the sequence; [None] for a byte that starts no
    sequence of several bytes. *)
Definition lead (b0 : byte) : option (N * N * nat) :=
  let n := Byte.to_N b0 in
  if ((194 <=? n) && (n <=? 223))%N then Some (128, 191, 2%nat)%N
  else if (n =? 224)%N then Some (160, 191, 3%nat)%N
  else if ((225 <=? n) && (n <=? 236))%N then Some (128, 191, 3%nat)%N
  else if (n =? 237)%N then Some (128, 159, 3%nat)%N
  else if ((238 <=? n) && (n <=? 239))%N then Some (128, 191, 3%nat)%N
  else if (n =? 240)%N then Some (144, 191, 4%nat)%N
  else if ((241 <=? n) && (n <=? 243))%N then Some (128, 191, 4%nat)%N
  else if (n =? 244)%N then Some (128, 143, 4%nat)%N
  else None.

(** The encoding of [utf8.RuneError], U+FFFD. *)
Definition runeError : bytes := [xef; xbf; xbd].

(** [[]rune(s)], every rune given by its UTF-8 encoding: a byte that starts
    no valid sequence decodes to [RuneError] and counts as one rune. *)
Fixpoint runes (s : bytes) : list bytes :=
  match s with
  | [] => []
  | b0 :: r0 =>
      if (Byte.to_N b0 <? 128)%N then [b0] :: runes r0
      else
        match lead b0, r0 with
        | Some (lo, hi, 2%nat), b1 :: r1 =>
            if between lo hi b1 then [b0; b1] :: runes r1
            else runeError :: runes r0
        | Some (lo, hi, 3%nat), b1 :: b2 :: r2 =>
            if between lo hi b1 && cont b2 then [b0; b1; b2] :: runes r2
            else runeError :: runes r0
        | Some (lo, hi, 4%nat), b1 :: b2 :: b3 :: r3 =>
            if between lo hi b1 && cont b2 && cont b3
            then [b0; b1; b2; b3] :: runes r3
            else runeError :: runes r0
        | _, _ => runeError :: runes r0
        end
  end.

(** [string(rs)] of a slice of runes. *)
Definition encode (rs : list bytes) : string := string_of_list_byte (List.concat rs).

End utf8.

(** [%.1f] of a [float64]: the decimal with one digit after the point that
    is nearest to the exact value, halfway cases to the even digit. *)
Definition fmtF1 (x : float) : string :=
  let render (neg : bool) (tenths : Z) : string :=
    ((if neg then "-" else "") +++ fmt.itoa (tenths / 10) +++ "."
     +++ fmt.itoa (tenths mod 10))%string in
  match Prim2SF x with
  | S754_zero neg => render neg 0%Z
  | S754_infinity neg => if neg then "-Inf"%string else "+Inf"%string
  | S754_nan => "NaN"%string
  | S754_finite neg m e =>
      let num := (Z.pos m * 10)%Z in
      if (0 <=? e)%Z then render neg (num * 2 ^ e)%Z
      else
        let den := (2 ^ (- e))%Z in
        let q := (num / den)%Z in
        let r := (num mod den)%Z in
        let up := ((den <? 2 * r) || ((den =? 2 * r) && Z.odd q))%Z in
        render neg (if up then q + 1 else q)%Z
  end.

(** The number of the format [float64] nearest to the integer [n], halfway
    cases to the even mantissa. *)
Definition nearestFloat (n : Z) : spec_float :=
  binary_normalize prec emax n 0%Z false.

(** [float64(n)] of an [int]: the conversion rounds to nearest, ties to
    even. *)
Definition float64 (n : Z) : float := SF2Prim (nearestFloat n).

(** ** [filepath.WalkDir] *)

Section WalkDir.

(** The callback [fn(path, d, err)] of the walk, with the variables its
    closure updates as a state of type [S]. *)
Context {S : Type}.
Variable fn : string -> option os.DirEntry -> option error -> S -> S * option error.

(** [walkDir(path, d, fn)] at the node [n] that [path] names: [fn] sees
    the entry; a directory is then read and its entries are walked in
    order, a failure to read it being reported to [fn] in a second call.
    Any error [fn] returns ends the walk ([fs.SkipDir] and [fs.SkipAll],
    which the callback of this program never returns, are left out). *)
Fixpoint walkDir (path name : string) (n : os.node) (s : S) {struct n}
    : S * option error :=
  let d := os.entryOf name n in
  match n with
  | os.File _ => fn path (Some d) None s
  | os.Dir le es =>
      match fn path (Some d) None s with
      | (s1, Some err) => (s1, Some err)
      | (s1, None) =>
          match le with
          | Some e => fn path (Some d) (Some (PathError "open" path e)) s1
          | None =>
              (fix walkEntries (es : list (string * os.node)) (s : S) {struct es}
                 : S * option error :=
                 match es with
                 | [] => (s, None)
                 | (name1, n1) :: es' =>
                     match walkDir (filepath.Join path name1) name1 n1 s with
                     | (s', Some err) => (s', Some err)
                     | (s', None) => walkEntries es' s'
                     end
                 end) es s1
          end
      end
  end.

(** The loop of [walkDir] over the entries of the directory [path]. *)
Fixpoint walkEntries (path : string) (es : list (string * os.node)) (s : S)
    : S * option error :=
  match es with
  | [] => (s, None)
  | (name1, n1) :: es' =>
      match walkDir (filepath.Join path name1) name1 n1 s with
      | (s', Some err) => (s', Some err)
      | (s', None) => walkEntries path es' s'
      end
  end.

(** [filepath.WalkDir(root, fn)]: [os.Lstat(root)] first; its error goes to
    [fn] with a nil entry. *)
Definition WalkDir (fs : os.FS) (root : string) (s : S) : S * option error :=
  match os.resolve fs root with
  | os.Errno e => fn root None (Some (PathError "lstat" root e)) s
  | os.Got n => walkDir root (filepath.Base root) n s
  end.

End WalkDir.

(** * The program [main.go] *)

(** ANSI color codes *)
Definition escape : string := String (ascii_of_nat 27) "".
Definition ColorReset : string := escape +++ "[0m".
Definition ColorRed : string := escape +++ "[31m".
Definition ColorGreen : string := escape +++ "[32m".
Definition ColorYellow : string := escape +++ "[33m".
Definition ColorBlue : string := escape +++ "[34m".
Definition ColorCyan : string := escape +++ "[36m".

(** ConversionStats tracks overall conversion statistics.  The mutex [mu]
    has no field here: what the program does while holding it is one step
    of the model. *)
Record ConversionStats := {
  Total : Z;
  Success : Z;
  Errors : Z;
  Skipped : Z;
  NonImageFiles : Z
}.

(** WorkItem represents a single conversion job *)
Record WorkItem := {
  FolderName : string;
  SourcePath : string;
  OutputPath : string
}.

(** What the program acts on: the file system and the lines written to
    standard output. *)
Record World := {
  files : os.FS;
  stdout : list string
}.

(** [fmt.Printf] of one line. *)
Definition println (line : string) (w : World) : World :=
  {| files := files w; stdout := stdout w ++ [line] |}.

(** The logging functions: each gives the line it prints. *)
Definition logInfo (message : string) : string :=
  ColorBlue +++ "[INFO]" +++ ColorReset +++ " " +++ message.

Definition logOK (message : string) : string :=
  ColorGreen +++ "[OK]" +++ ColorReset +++ " " +++ message.

Definition logWarning (message : string) : string :=
  ColorYellow +++ "[WARN]" +++ ColorReset +++ " " +++ message.

Definition logError (message : string) : string :=
  ColorRed +++ "[ERROR]" +++ ColorReset +++ " " +++ message.

Definition truncateString (s : string) (maxLen : Z) : string :=
  let runes := utf8.runes (bytesOf s) in
  if (Z.of_nat (List.length runes) <=? maxLen)%Z then s
  else if (maxLen <=? 3)%Z then utf8.encode (firstn (Z.to_nat maxLen) runes)
  else (utf8.encode (firstn (Z.to_nat (maxLen - 3)) runes) +++ "...")%string.

Definition isImageFile (fs : os.FS) (filePath : string) : result bool :=
  match os.Open fs filePath with
  | Err err => Err err
  | Ok file =>
      (* Read first 512 bytes for MIME type detection *)
      let buffer := repeat x00 512 in
      let '(buffer, _, err) := os.Read file buffer in
      match err with
      | Some e =>
          if negb (os.isEOF e) then Err e
          else
            Ok (strings.HasPrefix (http.DetectContentType buffer) "image/")
      | None =>
          Ok (strings.HasPrefix (http.DetectContentType buffer) "image/")
      end
  end.

(** The variables the walk callback of [analyzeDirectory] updates. *)
Record scan := {
  imageFiles : list string;
  nonImageFiles : list string;
  printed : list string
}.

(** The function literal [analyzeDirectory] passes to [filepath.WalkDir]. *)
Definition visit (fs : os.FS) (path : string) (d : option os.DirEntry)
    (err : option error) (s : scan) : scan * option error :=
  match err with
  | Some e => (s, Some e)
  | None =>
      match d with
      | None => (s, Some (ErrorString "invalid memory address or nil pointer dereference"))
      | Some d =>
          (* Skip directories, only process files *)
          if os.entryIsDir d then (s, None)
          else
            match isImageFile fs path with
            | Err _ =>
                (* If MIME detection fails, include file anyway *)
                ({| imageFiles := imageFiles s ++ [path];
                    nonImageFiles := nonImageFiles s;
                    printed := printed s ++
                      [logWarning ("Could not determine file type for "
                                   +++ filepath.Base path +++ ", including in archive")] |},
                 None)
            | Ok true =>
                ({| imageFiles := imageFiles s ++ [path];
                    nonImageFiles := nonImageFiles s;
                    printed := printed s |}, None)
            | Ok false =>
                (* Track non-image files for reporting purposes *)
                ({| imageFiles := imageFiles s;
                    nonImageFiles := nonImageFiles s ++ [filepath.Base path];
                    printed := printed s |}, None)
            end
      end
  end.

Definition analyzeDirectory (dir : string) (w : World)
    : result (list string * list string) * World :=
  let '(s, err) :=
    WalkDir (visit (files w)) (files w) dir
      {| imageFiles := []; nonImageFiles := []; printed := [] |} in
  let w' := {| files := files w; stdout := stdout w ++ printed s |} in
  match err with
  | Some e => (Err e, w')
  | None =>
      (* Sort files for consistent ordering in the archive *)
      (Ok (sort.Strings (imageFiles s), sort.Strings (nonImageFiles s)), w')
  end.

Definition addFileToZip (fs : os.FS) (zipWriter : zip.Writer)
    (filePath baseDir : string) : zip.Writer * option error :=
  (* Calculate relative path for the ZIP entry *)
  match filepath.Rel baseDir filePath with
  | Err err => (zipWriter, Some err)
  | Ok relPath =>
      (* Convert to forward slashes for ZIP standard compliance *)
      let relPath := filepath.ToSlash relPath in
      match os.Open fs filePath with
      | Err err => (zipWriter, Some err)
      | Ok sourceFile =>
          match os.FStat sourceFile with
          | Err err => (zipWriter, Some err)
          | Ok fileInfo =>
              match zip.FileInfoHeader fileInfo with
              | Err err => (zipWriter, Some err)
              | Ok header =>
                  (* Set compression method and file path *)
                  let header :=
                    {| zip.Name := relPath;
                       zip.Method := zip.Deflate;
                       zip.UncompressedSize64 := zip.UncompressedSize64 header;
                       zip.Modified := zip.Modified header |} in
                  match zip.CreateHeader zipWriter header with
                  | (zipWriter, Some err) => (zipWriter, Some err)
                  | (zipWriter, None) =>
                      (* Copy file content to ZIP entry *)
                      match os.ReadAll sourceFile with
                      | Err err => (zipWriter, Some err)
                      | Ok content => (zip.Write zipWriter content, None)
                      end
                  end
              end
          end
      end
  end.

(** The loop of [convertToCBZ] that adds all image files to the archive;
    it stops at the first error. *)
Fixpoint addImageFiles (fs : os.FS) (zipWriter : zip.Writer)
    (imageFiles : list string) (sourceDir : string) : zip.Writer * option error :=
  match imageFiles with
  | [] => (zipWriter, None)
  | imagePath :: rest =>
      match addFileToZip fs zipWriter imagePath sourceDir with
      | (zipWriter, Some err) => (zipWriter, Some err)
      | (zipWriter, None) => addImageFiles fs zipWriter rest sourceDir
      end
  end.

Section Program.

(** The bytes [archive/zip] writes for an archive with the given members
    (local headers, deflate streams, central directory): the encoder is the
    library's and stays a parameter. *)
Variable zipEncode : list zip.member -> bytes.

(** The width of [int] on the target. *)
Variable word : wordSize.

Definition convertToCBZ (sourceDir cbzPath : string) (w : World)
    : result Z * World :=
  (* Scan directory for image and non-image files *)
  let '(scanned, w) := analyzeDirectory sourceDir w in
  match scanned with
  | Err err => (Err (Wrapped "failed to analyze directory" err), w)
  | Ok (imageFiles, nonImageFiles) =>
      if (Z.of_nat (List.length imageFiles) =? 0)%Z
      then (Err (ErrorString "no image files found"), w)
      else
        (* Create CBZ file (which is just a ZIP with .cbz extension) *)
        match os.Create (files w) cbzPath with
        | Err err => (Err (Wrapped "failed to create CBZ file" err), w)
        | Ok created =>
            let '(zipWriter, failed) :=
              addImageFiles created zip.NewWriter imageFiles sourceDir in
            (* deferred: zipWriter.Close(), then cbzFile.Close() *)
            let w :=
              {| files := os.WriteFile created cbzPath (zipEncode (zip.dir zipWriter));
                 stdout := stdout w |} in
            match failed with
            | Some err => (Err (Wrapped "failed to add file to archive" err), w)
            | None => (Ok (Z.of_nat (List.length nonImageFiles)), w)
            end
        end
  end.

Definition processWorkItem (workerID : Z) (item : WorkItem)
    (stats : ConversionStats) (w : World) : ConversionStats * World :=
  let prefix := ("[WORKER " +++ fmt.itoa workerID +++ "]")%string in
  let w := println (logInfo (prefix +++ " Processing: "
                             +++ truncateString (FolderName item) 60)) w in
  (* Check if output already exists *)
  match os.Stat (files w) (OutputPath item) with
  | Ok _ =>
      let w := println (logWarning (prefix +++ " CBZ already exists, skipping: "
                                    +++ filepath.Base (OutputPath item))) w in
      ({| Total := Total stats; Success := Success stats; Errors := Errors stats;
          Skipped := wrapInt word (Skipped stats + 1);
          NonImageFiles := NonImageFiles stats |}, w)
  | Err _ =>
      (* Convert folder to CBZ *)
      let '(converted, w) := convertToCBZ (SourcePath item) (OutputPath item) w in
      match converted with
      | Err err =>
          let w := println (logError (prefix +++ " Conversion failed: "
                                      +++ errorText err)) w in
          ({| Total := Total stats; Success := Success stats;
              Errors := wrapInt word (Errors stats + 1);
              Skipped := Skipped stats;
              NonImageFiles := NonImageFiles stats |}, w)
      | Ok nonImageCount =>
          (* Update statistics *)
          let stats :=
            {| Total := Total stats;
               Success := wrapInt word (Success stats + 1);
               Errors := Errors stats; Skipped := Skipped stats;
               NonImageFiles := wrapInt word (NonImageFiles stats + nonImageCount) |} in
          let w := println (logOK (prefix +++ " Created: "
                                   +++ filepath.Base (OutputPath item))) w in
          (* Report non-image files if found *)
          if (nonImageCount >? 0)%Z
          then (stats,
                println (logWarning (prefix +++ " Found " +++ fmt.itoa nonImageCount
                                     +++ " non-image files (excluded from CBZ)")) w)
          else (stats, w)
      end
  end.

(** ** The worker pool of [processConcurrently]

    The goroutines of [processConcurrently] as a transition system.  A
    worker is waiting at [range workChan], holds the item it received, or
    has returned (and called [wg.Done]).  The sending goroutine has the
    items still to send.  The shared state is the channel, the statistics
    and the world.  A worker's [processWorkItem] is one step: a job reads
    its own source folder and writes its own archive, and the counters
    change under the mutex. *)
Inductive goroutine :=
| Receiving
| Holding (item : WorkItem)
| Returned.

Record Pool := {
  toSend : list WorkItem;
  closed : bool;
  workChan : list WorkItem;
  capacity : nat;
  workers : list goroutine;
  sharedStats : ConversionStats;
  sharedWorld : World
}.

Fixpoint setWorker (i : nat) (g : goroutine) (ws : list goroutine) : list goroutine :=
  match ws, i with
  | [], _ => []
  | _ :: ws', O => g :: ws'
  | w :: ws', S i' => w :: setWorker i' g ws'
  end.

Inductive step : Pool -> Pool -> Prop :=
| stepSend p item rest :
    (* workChan <- item *)
    toSend p = item :: rest ->
    closed p = false ->
    (List.length (workChan p) < capacity p)%nat ->
    step p {| toSend := rest; closed := closed p;
              workChan := workChan p ++ [item]; capacity := capacity p;
              workers := workers p; sharedStats := sharedStats p; sharedWorld := sharedWorld p |}
| stepClose p :
    (* defer close(workChan) *)
    toSend p = [] ->
    closed p = false ->
    step p {| toSend := []; closed := true;
              workChan := workChan p; capacity := capacity p;
              workers := workers p; sharedStats := sharedStats p; sharedWorld := sharedWorld p |}
| stepReceive p i item rest :
    (* for item := range workChan *)
    nth_error (workers p) i = Some Receiving ->
    workChan p = item :: rest ->
    step p {| toSend := toSend p; closed := closed p;
              workChan := rest; capacity := capacity p;
              workers := setWorker i (Holding item) (workers p);
              sharedStats := sharedStats p; sharedWorld := sharedWorld p |}
| stepProcess p i item :
    (* processWorkItem(id, item, stats), id being i+1 *)
    nth_error (workers p) i = Some (Holding item) ->
    step p {| toSend := toSend p; closed := closed p;
              workChan := workChan p; capacity := capacity p;
              workers := setWorker i Receiving (workers p);
              sharedStats :=
                fst (processWorkItem (wrapInt word (Z.of_nat i + 1)) item
                       (sharedStats p) (sharedWorld p));
              sharedWorld :=
                snd (processWorkItem (wrapInt word (Z.of_nat i + 1)) item
                       (sharedStats p) (sharedWorld p)) |}
| stepReturn p i :
    (* the channel is drained and closed: the range loop ends, wg.Done() *)
    nth_error (workers p) i = Some Receiving ->
    workChan p = [] ->
    closed p = true ->
    step p {| toSend := toSend p; closed := closed p;
              workChan := workChan p; capacity := capacity p;
              workers := setWorker i Returned (workers p);
              sharedStats := sharedStats p; sharedWorld := sharedWorld p |}.

Inductive steps : Pool -> Pool -> Prop :=
| stepsRefl p : steps p p
| stepsStep p q r : step p q -> steps q r -> steps p r.

(** [wg.Wait()] returns: every worker has returned. *)
Definition joined (p : Pool) : Prop := Forall (eq Returned) (workers p).

(** The pool [processConcurrently] starts: a channel of capacity
    [numThreads], [numThreads] workers, every item still to send. *)
Definition startPool (workItems : list WorkItem) (numThreads : Z)
    (stats : ConversionStats) (w : World) : Pool :=
  {| toSend := workItems; closed := false; workChan := [];
     capacity := Z.to_nat numThreads;
     workers := repeat Receiving (Z.to_nat numThreads);
     sharedStats := stats; sharedWorld := w |}.

(** [processConcurrently(workItems, numThreads, stats)] may return with
    statistics [stats'] in world [w']. *)
Definition processConcurrently (workItems : list WorkItem) (numThreads : Z)
    (stats : ConversionStats) (w : World) (stats' : ConversionStats) (w' : World)
    : Prop :=
  exists p, steps (startPool workItems numThreads stats w) p
            /\ joined p /\ sharedStats p = stats' /\ sharedWorld p = w'.

Definition getFolders (fs : os.FS) (dir : string) : result (list string) :=
  match os.ReadDir fs dir with
  | Err err => Err err
  | Ok entries =>
      (* Sort for consistent processing order *)
      Ok (sort.Strings (map os.entryName (filter os.entryIsDir entries)))
  end.

Definition printFinalStats (stats : ConversionStats) (w : World) : World :=
  let w := println (logInfo "Conversion completed") w in
  let w := println (logInfo ("Total folders:     " +++ fmt.itoa (Total stats))) w in
  let w := println (logOK ("Successful:        " +++ fmt.itoa (Success stats))) w in
  let w := if (Skipped stats >? 0)%Z
           then println (logWarning ("Skipped:           " +++ fmt.itoa (Skipped stats))) w
           else w in
  let w := if (Errors stats >? 0)%Z
           then println (logError ("Errors:            " +++ fmt.itoa (Errors stats))) w
           else w in
  let w := if (NonImageFiles stats >? 0)%Z
           then println (logInfo ("Non-image files:   " +++ fmt.itoa (NonImageFiles stats)
                                  +++ " (excluded)")) w
           else w in
  (* Calculate success rate *)
  let processed := wrapInt word (Success stats + Errors stats) in
  if (processed >? 0)%Z then
    let successRate :=
      PrimFloat.mul (PrimFloat.div (float64 (Success stats)) (float64 processed))
                    (float64 100) in
    println (logInfo ("Success rate:      " +++ fmtF1 successRate +++ "%")) w
  else w.

(** The command line as [flag.Parse] leaves it when it accepts it
    ([threads] is 4 when not given), and [os.Args[0]].  On a command line
    it rejects (an undefined flag, a thread count that is no integer)
    [flag.Parse] prints the usage and ends the program with exit code 2;
    what follows is [main] from the return of [flag.Parse] on. *)
Record Flags := {
  program : string;
  inputDir : string;
  outputDir : string;
  threads : Z;
  showHelp : bool;
  showVersion : bool
}.

Definition showUsage (program : string) (w : World) : World :=
  fold_left (fun w line => println line w)
    [ "CBZ Converter - Convert image folders to CBZ comic book archives";
      "";
      "USAGE:";
      "  " +++ program +++ " -input <folder> -output <folder> [options]";
      "";
      "REQUIRED:";
      "  -input   string    Input directory containing folders to convert";
      "  -output  string    Output directory for CBZ files";
      "";
      "OPTIONS:";
      "  -threads int       Number of concurrent threads (default: 4)";
      "  -help             Show this help message";
      "  -version          Show version information";
      "";
      "EXAMPLES:";
      "  " +++ program +++ " -input ./manga -output ./cbz";
      "  " +++ program +++ " -input /home/user/comics -output /home/user/cbz -threads 8";
      "";
      "The program will:";
      "  1. Scan each folder in the input directory";
      "  2. Detect image files using MIME type analysis";
      "  3. Create compressed CBZ files in the output directory";
      "  4. Skip existing CBZ files to avoid overwriting";
      "  5. Report non-image files found but not included" ]%string w.

(** The block of [main] that validates the thread count: the count to use
    and the lines it prints.  [numCPU] is what [runtime.NumCPU()] returns. *)
Definition validateThreadCount (threads numCPU : Z) : Z * list string :=
  if (threads <? 1)%Z then (1%Z, [])
  else if (threads >? wrapInt word (numCPU * 2))%Z then
    (* Limit to 2x CPU cores to prevent resource exhaustion *)
    let threads := wrapInt word (numCPU * 2) in
    (threads,
     [logInfo ("Thread count limited to " +++ fmt.itoa threads +++ " (2x CPU cores)")])
  else (threads, []).

(** The loop of [main] that creates the work items. *)
Definition createWorkItems (inputDir outputDir : string) (folders : list string)
    : list WorkItem :=
  map (fun folder =>
         {| FolderName := folder;
            SourcePath := filepath.Join inputDir folder;
            OutputPath := filepath.Join outputDir (folder +++ ".cbz") |})
      folders.

(** How far [main] gets before [processConcurrently]: it has returned (or
    called [os.Exit]) with an exit code, or it is about to process the work
    items with a number of threads and fresh statistics. *)
Inductive Started :=
| Return (code : Z) (w : World)
| Dispatch (workItems : list WorkItem) (threads : Z) (stats : ConversionStats)
    (w : World).

Definition mainPrepare (flags : Flags) (numCPU : Z) (w : World) : Started :=
  (* Handle version flag *)
  if showVersion flags then
    Return 0 (println "Converts folders containing images to CBZ comic book archives"
                (println "CBZ Converter v1.0.0" w))
  (* Handle help flag or missing required arguments *)
  else if showHelp flags || String.eqb (inputDir flags) ""
          || String.eqb (outputDir flags) "" then
    Return 0 (showUsage (program flags) w)
  else
    (* Validate thread count - ensure reasonable bounds *)
    let '(threads, notice) := validateThreadCount (threads flags) numCPU in
    let w := fold_left (fun w line => println line w) notice w in
    (* Validate input directory exists *)
    let missing :=
      match os.Stat (files w) (inputDir flags) with
      | Err err => os.IsNotExist (Some err)
      | Ok _ => false
      end in
    if missing then
      Return 1 (println (logError ("Input directory does not exist: "
                                   +++ inputDir flags)) w)
    else
      (* Create output directory if it doesn't exist *)
      match os.MkdirAll (files w) (outputDir flags) with
      | Err err =>
          Return 1 (println (logError ("Failed to create output directory: "
                                       +++ errorText err)) w)
      | Ok fs =>
          let w := {| files := fs; stdout := stdout w |} in
          let w := println (logInfo ("Starting CBZ conversion with "
                                     +++ fmt.itoa threads +++ " threads")) w in
          let w := println (logInfo ("Input:  " +++ inputDir flags)) w in
          let w := println (logInfo ("Output: " +++ outputDir flags)) w in
          (* Get list of folders to process *)
          match getFolders (files w) (inputDir flags) with
          | Err err =>
              Return 1 (println (logError ("Failed to read input directory: "
                                           +++ errorText err)) w)
          | Ok folders =>
              if (Z.of_nat (List.length folders) =? 0)%Z then
                Return 0 (println (logWarning "No folders found in input directory") w)
              else
                let w := println (logInfo ("Found "
                                           +++ fmt.itoa (Z.of_nat (List.length folders))
                                           +++ " folders to process")) w in
                (* Create work items *)
                let workItems :=
                  createWorkItems (inputDir flags) (outputDir flags) folders in
                (* Process folders concurrently *)
                Dispatch workItems threads
                  {| Total := Z.of_nat (List.length folders); Success := 0;
                     Errors := 0; Skipped := 0; NonImageFiles := 0 |} w
          end
      end.

(** [main()] may end with exit code [code] in world [w']. *)
Definition main (flags : Flags) (numCPU : Z) (w : World) (code : Z) (w' : World)
    : Prop :=
  match mainPrepare flags numCPU w with
  | Return c w1 => code = c /\ w' = w1
  | Dispatch workItems threads stats w1 =>
      exists stats' w2,
        processConcurrently workItems threads stats w1 stats' w2
        /\ code = 0%Z
        (* Print final statistics *)
        /\ w' = printFinalStats stats' w2
  end.

End Program.

(** * Properties *)

(** ** The order of strings and [sort.Strings] *)

Definition stringLe (a b : string) : Prop := String.leb a b = true.

(** Sorted in increasing (lexicographic, byte-wise) order. *)
Definition sortedStrings (l : list string) : Prop := StronglySorted stringLe l.

Lemma string_compare_refl (a : string) : String.compare a a = Eq.
Proof.
  induction a as [|c a IH]; simpl; [reflexivity|].
  unfold Ascii.compare. now rewrite N.compare_refl.
Qed.

Lemma stringLe_refl (a : string) : stringLe a a.
Proof. unfold stringLe, String.leb. now rewrite string_compare_refl. Qed.

Lemma stringLe_trans (a b c : string) : stringLe a b -> stringLe b c -> stringLe a c.
Proof.
  unfold stringLe, String.leb.
  revert b c. induction a as [|x a IH]; intros [|y b] [|z c]; simpl; try easy.
  unfold Ascii.compare.
  destruct (N.compare_spec (N_of_ascii x) (N_of_ascii y)) as [Exy|Lxy|Gxy];
    destruct (N.compare_spec (N_of_ascii y) (N_of_ascii z)) as [Eyz|Lyz|Gyz];
    destruct (N.compare_spec (N_of_ascii x) (N_of_ascii z)) as [Exz|Lxz|Gxz];
    try easy; try lia.
  apply IH.
Qed.

Lemma stringLe_antisym (a b : string) : stringLe a b -> stringLe b a -> a = b.
Proof. apply String.leb_antisym. Qed.

Lemma Strings_sorted (l : list string) : sortedStrings (sort.Strings l).
Proof.
  unfold sortedStrings, sort.Strings.
  apply Sorted_StronglySorted.
  - intros a b c. apply stringLe_trans.
  - apply StringSort.Sorted_sort.
Qed.

Lemma Strings_perm (l : list string) : Permutation l (sort.Strings l).
Proof. apply StringSort.Permuted_sort. Qed.

(** A sorted list is determined by its elements. *)
Lemma sortedStrings_unique (l1 l2 : list string) :
  sortedStrings l1 -> sortedStrings l2 -> Permutation l1 l2 -> l1 = l2.
Proof.
  revert l2. induction l1 as [|a l1 IH]; intros l2 S1 S2 P.
  - apply Permutation_nil in P. now subst.
  - destruct l2 as [|b l2].
    + apply Permutation_sym, Permutation_nil in P. discriminate.
    + apply StronglySorted_inv in S1 as [S1 A1].
      apply StronglySorted_inv in S2 as [S2 A2].
      assert (a = b) as ->.
      { apply stringLe_antisym.
        - assert (In b (a :: l1)) as [<-|Hb]
            by (eapply Permutation_in; [apply Permutation_sym, P|now left]).
          + apply stringLe_refl.
          + rewrite Forall_forall in A1. now apply A1.
        - assert (In a (b :: l2)) as [<-|Ha]
            by (eapply Permutation_in; [apply P|now left]).
          + apply stringLe_refl.
          + rewrite Forall_forall in A2. now apply A2. }
      f_equal. apply IH; auto. now apply Permutation_cons_inv in P.
Qed.

(** The sorted slice does not depend on the order the elements came in. *)
Lemma Strings_order_independent (l1 l2 : list string) :
  Permutation l1 l2 -> sort.Strings l1 = sort.Strings l2.
Proof.
  intros P. apply sortedStrings_unique; try apply Strings_sorted.
  eapply Permutation_trans; [apply Permutation_sym, Strings_perm|].
  eapply Permutation_trans; [apply P|apply Strings_perm].
Qed.

Lemma Strings_In (l : list string) (x : string) : In x (sort.Strings l) <-> In x l.
Proof.
  split; intros H.
  - eapply Permutation_in; [apply Permutation_sym, Strings_perm|exact H].
  - eapply Permutation_in; [apply Strings_perm|exact H].
Qed.

Lemma Strings_length (l : list string) : List.length (sort.Strings l) = List.length l.
Proof. symmetry. apply Permutation_length, Strings_perm. Qed.

(** ** The file system *)

Lemma find_setEntry_same (name : string) (n : os.node) (es : list (string * os.node)) :
  os.find name (os.setEntry name n es) = Some n.
Proof.
  induction es as [|[k v] es IH]; simpl.
  - now rewrite String.eqb_refl.
  - destruct (String.eqb k name) eqn:E; simpl.
    + now rewrite String.eqb_refl.
    + destruct (String.ltb name k); simpl.
      * now rewrite String.eqb_refl.
      * now rewrite E.
Qed.

Lemma find_setEntry_other (name k : string) (n : os.node)
    (es : list (string * os.node)) :
  k <> name -> os.find k (os.setEntry name n es) = os.find k es.
Proof.
  intros Hk. apply String.eqb_neq in Hk.
  assert (String.eqb name k = false) as Hk'
    by (rewrite String.eqb_sym; exact Hk).
  induction es as [|[k' v] es IH]; simpl.
  - now rewrite Hk'.
  - destruct (String.eqb k' name) eqn:E; simpl.
    + apply String.eqb_eq in E. subst k'. now rewrite Hk'.
    + destruct (String.ltb name k'); simpl.
      * now rewrite Hk'.
      * destruct (String.eqb k' k); [reflexivity|exact IH].
Qed.

(** After [putFile] the file is there. *)
Lemma putFile_lookup (elems : list string) (f : os.file) :
  forall n n', os.putFile elems f n = os.Got n' ->
               os.lookup elems n' = os.Got (os.File f).
Proof.
  induction elems as [|name rest IH]; intros n n' H; simpl in H; [discriminate|].
  destruct n as [g|le es]; [discriminate|].
  destruct rest as [|r rs]; cbv beta iota in H.
  - assert (n' = os.Dir le (os.setEntry name (os.File f) es)) as ->.
    { destruct (os.find name es) as [[old|]|]; try discriminate;
        [destruct (os.openErr old); [discriminate|]|]; now inversion H. }
    simpl. now rewrite find_setEntry_same.
  - destruct (os.find name es) as [child|]; [|discriminate].
    destruct (os.putFile (r :: rs) f child) as [child'|] eqn:E; [|discriminate].
    inversion H; subst n'. cbn [os.lookup]. rewrite find_setEntry_same.
    now apply IH with (n := child).
Qed.

Lemma putFile_below (name r : string) (rs : list string) (f : os.file)
    (le : option errno) (es : list (string * os.node)) :
  os.putFile (name :: r :: rs) f (os.Dir le es) =
  match os.find name es with
  | None => os.Errno ENOENT
  | Some child =>
      match os.putFile (r :: rs) f child with
      | os.Errno e => os.Errno e
      | os.Got child' => os.Got (os.Dir le (os.setEntry name child' es))
      end
  end.
Proof. reflexivity. Qed.

(** [putFile] succeeds where a file that can be opened already is. *)
Lemma putFile_again (elems : list string) (f old : os.file) :
  forall n, os.lookup elems n = os.Got (os.File old) -> os.openErr old = None ->
            elems <> [] -> exists n', os.putFile elems f n = os.Got n'.
Proof.
  induction elems as [|name rest IH]; intros n H Ho Hne; [congruence|].
  simpl in H. destruct n as [g|le es]; [discriminate|].
  destruct (os.find name es) as [child|] eqn:Ef; [|discriminate].
  destruct rest as [|r rs].
  - simpl in H. inversion H; subst child. simpl. rewrite Ef, Ho. eauto.
  - destruct (IH child H Ho) as [child' Hc]; [discriminate|].
    rewrite putFile_below, Ef, Hc. eauto.
Qed.

(** [putFile] leaves every other file as it was: a file found afterwards
    under other names was there before. *)
Lemma putFile_frame (elems : list string) (f : os.file) :
  forall n n' elems' g,
    os.putFile elems f n = os.Got n' ->
    elems' <> elems ->
    os.lookup elems' n' = os.Got (os.File g) ->
    os.lookup elems' n = os.Got (os.File g).
Proof.
  induction elems as [|name rest IH]; intros n n' elems' g H Hne L;
    simpl in H; [discriminate|].
  destruct n as [h|le es]; [discriminate|].
  assert (exists c', n' = os.Dir le (os.setEntry name c' es)
                     /\ match rest with
                        | [] => c' = os.File f
                        | _ :: _ => exists child, os.find name es = Some child
                                      /\ os.putFile rest f child = os.Got c'
                        end) as (c' & -> & Hc).
  { destruct rest as [|r rs]; cbv beta iota in H.
    - destruct (os.find name es) as [[old|]|]; try discriminate;
        [destruct (os.openErr old); [discriminate|]|]; inversion H; eauto.
    - destruct (os.find name es) as [child|]; [|discriminate].
      destruct (os.putFile (r :: rs) f child) as [child'|] eqn:E; [|discriminate].
      inversion H; eauto. }
  destruct elems' as [|name' rest']; [discriminate|].
  cbn [os.lookup] in L |- *.
  destruct (String.eqb name' name) eqn:En.
  - apply String.eqb_eq in En. subst name'.
    assert (rest' <> rest) as Hr by congruence.
    rewrite find_setEntry_same in L.
    destruct rest as [|r rs].
    + subst c'. destruct rest' as [|r' rs']; [congruence|discriminate].
    + destruct Hc as (child & Ef & Ec). rewrite Ef. eapply IH; eauto.
  - apply String.eqb_neq in En.
    now rewrite find_setEntry_other in L by exact En.
Qed.

(** A file [os.Create] made is found by [os.Stat], also once its content
    is written. *)
Lemma Create_then_Stat (fs fs' : os.FS) (path : string) (content : bytes) :
  os.Create fs path = Ok fs' ->
  exists info, os.Stat (os.WriteFile fs' path content) path = Ok info.
Proof.
  unfold os.Create, os.WriteFile, os.Stat, os.resolve. intros H.
  destruct (String.eqb path ""); [discriminate|].
  destruct (os.putFile (os.pathElems path) os.emptyFile fs) as [n|] eqn:E;
    [|discriminate].
  inversion H; subst n. pose proof (putFile_lookup _ _ _ _ E) as L.
  assert (os.pathElems path <> []) as Hne
    by (intros Hn; rewrite Hn in E; discriminate).
  destruct (putFile_again _
              {| os.openErr := None; os.readErr := None; os.data := content;
                 os.modTime := 0 |} _ _ L eq_refl Hne) as [n' Hn'].
  rewrite Hn'. rewrite (putFile_lookup _ _ _ _ Hn'). eauto.
Qed.

(** ** The walk *)

(** Induction on the tree of a file system. *)
Lemma node_induction (P : os.node -> Prop) :
  (forall f, P (os.File f)) ->
  (forall le es, Forall (fun e => P (snd e)) es -> P (os.Dir le es)) ->
  forall n, P n.
Proof.
  intros HF HD.
  fix IH 1. intros [f|le es].
  - apply HF.
  - apply HD. induction es as [|[name c] es IHes]; constructor.
    + apply IH.
    + exact IHes.
Qed.

(** The regular files below [n] (itself, when it is one), by the paths the
    walk gives them and in the order of the walk. *)
Fixpoint filesUnder (path : string) (n : os.node) : list string :=
  match n with
  | os.File _ => [path]
  | os.Dir _ es =>
      (fix below (es : list (string * os.node)) : list string :=
         match es with
         | [] => []
         | (name, c) :: es' => filesUnder (filepath.Join path name) c ++ below es'
         end) es
  end.

Fixpoint filesBelow (path : string) (es : list (string * os.node)) : list string :=
  match es with
  | [] => []
  | (name, c) :: es' => filesUnder (filepath.Join path name) c ++ filesBelow path es'
  end.

Lemma filesUnder_Dir (path : string) (le : option errno) (es : list (string * os.node)) :
  filesUnder path (os.Dir le es) = filesBelow path es.
Proof. simpl. induction es as [|[name c] es IH]; simpl; [reflexivity|now rewrite IH]. Qed.

(** Every directory of the tree can be read. *)
Fixpoint readable (n : os.node) : bool :=
  match n with
  | os.File _ => true
  | os.Dir le es =>
      match le with
      | Some _ => false
      | None =>
          (fix all (es : list (string * os.node)) : bool :=
             match es with
             | [] => true
             | (_, c) :: es' => readable c && all es'
             end) es
      end
  end.

Fixpoint readableAll (es : list (string * os.node)) : bool :=
  match es with
  | [] => true
  | (_, c) :: es' => readable c && readableAll es'
  end.

Lemma readable_Dir (es : list (string * os.node)) :
  readable (os.Dir None es) = readableAll es.
Proof. simpl. induction es as [|[name c] es IH]; simpl; [reflexivity|now rewrite IH]. Qed.

Lemma walkDir_Dir {S : Type}
    (fn : string -> option os.DirEntry -> option error -> S -> S * option error)
    (path name : string) (es : list (string * os.node)) (s : S) :
  walkDir fn path name (os.Dir None es) s =
  match fn path (Some (os.entryOf name (os.Dir None es))) None s with
  | (s1, Some err) => (s1, Some err)
  | (s1, None) => walkEntries fn path es s1
  end.
Proof.
  simpl. destruct (fn path _ None s) as [s1 [err|]]; [reflexivity|].
  revert s1. induction es as [|[name1 n1] es IH]; intros s1; simpl; [reflexivity|].
  destruct (walkDir fn (filepath.Join path name1) name1 n1 s1) as [s' [err|]];
    [reflexivity|apply IH].
Qed.

(** What the callback of [analyzeDirectory] does with a regular file. *)
Definition record (fs : os.FS) (s : scan) (path : string) : scan :=
  fst (visit fs path (Some {| os.entryName := ""; os.entryIsDir := false |}) None s).

Lemma visit_file (fs : os.FS) (path name : string) (f : os.file) (s : scan) :
  visit fs path (Some (os.entryOf name (os.File f))) None s = (record fs s path, None).
Proof.
  unfold record, visit. simpl.
  destruct (isImageFile fs path) as [[|]|]; reflexivity.
Qed.

Lemma visit_dir (fs : os.FS) (path name : string) (le : option errno)
    (es : list (string * os.node)) (s : scan) :
  visit fs path (Some (os.entryOf name (os.Dir le es))) None s = (s, None).
Proof. reflexivity. Qed.

(** The walk of a readable tree records its regular files one by one. *)
Lemma walkDir_readable (fs : os.FS) (n : os.node) :
  forall path name s, readable n = true ->
    walkDir (visit fs) path name n s
    = (fold_left (record fs) (filesUnder path n) s, None).
Proof.
  induction n as [f|le es IH] using node_induction; intros path name s R.
  - cbn [walkDir filesUnder fold_left]. apply visit_file.
  - destruct le as [e|]; [discriminate|].
    rewrite walkDir_Dir, visit_dir, filesUnder_Dir. rewrite readable_Dir in R.
    revert s. induction es as [|[name1 c] es IHes]; intros s; [reflexivity|].
    simpl in R. apply andb_prop in R as [Rc Res].
    inversion IH as [|? ? IHc IHrest]; subst. simpl in IHc.
    simpl. rewrite IHc by exact Rc. rewrite fold_left_app. now apply IHes.
Qed.

(** The walk of a tree with a directory that cannot be read ends with the
    error of opening a directory. *)
Lemma walkDir_unreadable (fs : os.FS) (n : os.node) :
  forall path name s, readable n = false ->
    exists s' p e, walkDir (visit fs) path name n s = (s', Some (PathError "open" p e)).
Proof.
  induction n as [f|le es IH] using node_induction; intros path name s R.
  - discriminate.
  - destruct le as [e|].
    + simpl. eauto.
    + rewrite walkDir_Dir, visit_dir. rewrite readable_Dir in R.
      revert s. induction es as [|[name1 c] es IHes]; intros s; [discriminate|].
      inversion IH as [|? ? IHc IHrest]; subst. simpl in IHc.
      simpl in R |- *. destruct (readable c) eqn:Rc.
      * rewrite walkDir_readable by exact Rc. now apply IHes.
      * destruct (IHc (filepath.Join path name1) name1 s eq_refl) as (s' & p & e & ->).
        eauto.
Qed.

(** ** The scan *)

(** The classifier says "not an image" (it neither says "image" nor fails). *)
Definition isNonImage (fs : os.FS) (path : string) : bool :=
  match isImageFile fs path with
  | Ok false => true
  | _ => false
  end.

(** The classifier fails. *)
Definition unclassified (fs : os.FS) (path : string) : bool :=
  match isImageFile fs path with
  | Err _ => true
  | Ok _ => false
  end.

Definition unclassifiedWarning (path : string) : string :=
  logWarning ("Could not determine file type for " +++ filepath.Base path
              +++ ", including in archive").

Lemma fold_record (fs : os.FS) (paths : list string) :
  forall s,
    let s' := fold_left (record fs) paths s in
    imageFiles s' = imageFiles s ++ filter (fun p => negb (isNonImage fs p)) paths
    /\ nonImageFiles s'
       = nonImageFiles s ++ map filepath.Base (filter (isNonImage fs) paths)
    /\ printed s'
       = printed s ++ map unclassifiedWarning (filter (unclassified fs) paths).
Proof.
  induction paths as [|p paths IH]; intros s; simpl.
  - now rewrite !app_nil_r.
  - destruct (IH (record fs s p)) as (Hi & Hn & Hp).
    rewrite Hi, Hn, Hp. clear IH Hi Hn Hp.
    unfold record, visit, isNonImage, unclassified. cbn [os.entryIsDir].
    destruct (isImageFile fs p) as [[|]|e]; cbn [fst imageFiles nonImageFiles printed negb filter map];
      rewrite <- ?app_assoc; auto.
Qed.

(** The regular files the scan of [dir] comes by. *)
Definition scannedFiles (fs : os.FS) (dir : string) : list string :=
  match os.resolve fs dir with
  | os.Got n => filesUnder dir n
  | os.Errno _ => []
  end.

(** The scan can be made: [dir] exists and every directory below it can be
    read. *)
Definition scannable (fs : os.FS) (dir : string) : bool :=
  match os.resolve fs dir with
  | os.Got n => readable n
  | os.Errno _ => false
  end.

(** The scan never changes the file system. *)
Lemma analyzeDirectory_files (dir : string) (w : World) :
  files (snd (analyzeDirectory dir w)) = files w.
Proof.
  unfold analyzeDirectory.
  destruct (WalkDir _ _ _ _) as [s [e|]]; reflexivity.
Qed.

(** The scan of a tree that can be walked: both lists, sorted, and a
    warning for every file that could not be classified. *)
Lemma analyzeDirectory_scannable (dir : string) (w : World) :
  scannable (files w) dir = true ->
  analyzeDirectory dir w
  = (Ok (sort.Strings (filter (fun p => negb (isNonImage (files w) p))
                              (scannedFiles (files w) dir)),
         sort.Strings (map filepath.Base
                           (filter (isNonImage (files w)) (scannedFiles (files w) dir)))),
     {| files := files w;
        stdout := stdout w ++ map unclassifiedWarning
                    (filter (unclassified (files w)) (scannedFiles (files w) dir)) |}).
Proof.
  unfold scannable, scannedFiles, analyzeDirectory, WalkDir. intros R.
  destruct (os.resolve (files w) dir) as [n|e]; [|discriminate].
  rewrite walkDir_readable by exact R.
  destruct (fold_record (files w) (filesUnder dir n)
              {| imageFiles := []; nonImageFiles := []; printed := [] |})
    as (Hi & Hn & Hp).
  simpl in Hi, Hn, Hp. now rewrite Hi, Hn, Hp.
Qed.

(** The scan of anything else fails with the error of the traversal: the
    root cannot be found, or a directory cannot be opened. *)
Lemma analyzeDirectory_unscannable (dir : string) (w : World) :
  scannable (files w) dir = false ->
  exists op p e w', analyzeDirectory dir w = (Err (PathError op p e), w')
                    /\ (op = "lstat" \/ op = "open")%string.
Proof.
  unfold scannable, analyzeDirectory, WalkDir. intros R.
  destruct (os.resolve (files w) dir) as [n|e].
  - destruct (walkDir_unreadable (files w) n dir (filepath.Base dir)
                {| imageFiles := []; nonImageFiles := []; printed := [] |} R)
      as (s' & p & e & ->).
    eauto 10.
  - simpl. eauto 10.
Qed.

(** ** [int] arithmetic that stays in range *)

Lemma maxInt_pos (word : wordSize) : (0 < maxInt word)%Z.
Proof. destruct word; reflexivity. Qed.

Lemma wrapInt_in_range (word : wordSize) (z : Z) :
  (minInt word <= z <= maxInt word)%Z -> wrapInt word z = z.
Proof.
  unfold wrapInt, minInt, maxInt. intros H.
  destruct word; cbn [intBits] in *;
    set (a := (2 ^ (32 - 1))%Z) in *; set (b := (2 ^ 32)%Z) in *;
    set (c := (2 ^ (64 - 1))%Z) in *; set (d := (2 ^ 64)%Z) in *;
    vm_compute in a, b, c, d; subst a b c d;
    rewrite Z.mod_small; lia.
Qed.

(** ** A sample file system

    An input directory [in] with four folders and a file, and an empty
    output directory [out]: folder [a] mixes images and other files, [b]
    has no image, [c] has a file that cannot be opened, [d] has a file
    whose three bytes turn into an icon signature in a zero-filled buffer. *)
Module Sample.

Definition plain (content : bytes) : os.node :=
  os.File {| os.openErr := None; os.readErr := None; os.data := content;
             os.modTime := 1700000000 |}.

Definition jpeg : bytes := [xff; xd8; xff; xe0; x00; x10] ++ bytesOf "JFIF".
Definition png : bytes := [x89] ++ bytesOf "PNG" ++ [x0d; x0a; x1a; x0a; x00].
Definition gif : bytes := bytesOf "GIF89a" ++ [x01; x00; x01; x00].
Definition webp : bytes := bytesOf "RIFF" ++ [x24; x00; x00; x00] ++ bytesOf "WEBPVP8 ".
Definition text : bytes := bytesOf "chapter one".

Definition root : os.FS :=
  os.Dir None
    [ ("in"%string,
       os.Dir None
         [ ("a"%string,
            os.Dir None
              [ ("cover.jpg"%string, plain text);
                ("notes.txt"%string, plain text);
                ("page001.dat"%string, plain jpeg);
                ("page002.png"%string, plain png);
                ("sub"%string, os.Dir None [("page000.gif"%string, plain gif)]);
                ("sub.webp"%string, plain webp) ]);
           ("b"%string, os.Dir None [("readme.txt"%string, plain text)]);
           ("c"%string,
            os.Dir None
              [ ("locked"%string,
                 os.File {| os.openErr := Some EACCES; os.readErr := None;
                            os.data := jpeg; os.modTime := 0 |});
                ("page.jpg"%string, plain jpeg) ]);
           ("d"%string, os.Dir None [("tiny"%string, plain [x00; x00; x01])]);
           ("readme"%string, plain text) ]);
      ("out"%string, os.Dir None []) ].

Definition world : World := {| files := root; stdout := [] |}.

(** A stand-in for the encoder: the signature of a local file header, then
    the members' names. *)
Definition encode (members : list zip.member) : bytes :=
  bytesOf "PK" ++ [x03; x04]
  ++ List.concat (map (fun m => bytesOf (zip.Name (zip.header m)) ++ [x00]) members).

Definition item (folder : string) : WorkItem :=
  {| FolderName := folder;
     SourcePath := filepath.Join "in" folder;
     OutputPath := filepath.Join "out" (folder +++ ".cbz") |}.

Definition noStats (total : Z) : ConversionStats :=
  {| Total := total; Success := 0; Errors := 0; Skipped := 0; NonImageFiles := 0 |}.

End Sample.

(** ** Thread count *)



(** ** Final statistics *)

Lemma stdout_println (line : string) (w : World) :
  stdout (println line w) = stdout w ++ [line].
Proof. reflexivity. Qed.

Lemma files_println (line : string) (w : World) : files (println line w) = files w.
Proof. reflexivity. Qed.

(** The line reports a success rate. *)
Definition isRateLine (line : string) : bool :=
  String.prefix (logInfo "Success rate:") line.

(** The success rate as [printFinalStats] computes it. *)
Definition successRate (succeeded processed : Z) : float :=
  PrimFloat.mul (PrimFloat.div (float64 succeeded) (float64 processed)) (float64 100).

(** The lines of the final report before the success rate. *)
Definition summaryLines (stats : ConversionStats) : list string :=
  [ logInfo "Conversion completed";
    logInfo ("Total folders:     " +++ fmt.itoa (Total stats));
    logOK ("Successful:        " +++ fmt.itoa (Success stats)) ]
  ++ (if (Skipped stats >? 0)%Z
      then [logWarning ("Skipped:           " +++ fmt.itoa (Skipped stats))] else [])
  ++ (if (Errors stats >? 0)%Z
      then [logError ("Errors:            " +++ fmt.itoa (Errors stats))] else [])
  ++ (if (NonImageFiles stats >? 0)%Z
      then [logInfo ("Non-image files:   " +++ fmt.itoa (NonImageFiles stats)
                     +++ " (excluded)")] else []).

(** ** Conversions to [float64]

    What the conversion of an [int] gives, from the definition of rounding
    in [SpecFloat]: a number that is not zero for an [int] that is not
    zero. *)

Section Float64.

Local Open Scope Z_scope.

(** The number of binary digits of [p]. *)
Lemma digits2_pos_bounds (p : positive) :
  2 ^ (Zpos (digits2_pos p) - 1) <= Zpos p < 2 ^ Zpos (digits2_pos p).
Proof.
  induction p as [p IH|p IH|]; cbn [digits2_pos].
  - rewrite Pos2Z.inj_succ, Z.pow_succ_r by lia.
    replace (Z.succ (Zpos (digits2_pos p)) - 1) with (Z.succ (Zpos (digits2_pos p) - 1)) by lia.
    rewrite Z.pow_succ_r by lia. lia.
  - rewrite Pos2Z.inj_succ, Z.pow_succ_r by lia.
    replace (Z.succ (Zpos (digits2_pos p)) - 1) with (Z.succ (Zpos (digits2_pos p) - 1)) by lia.
    rewrite Z.pow_succ_r by lia. lia.
  - simpl. lia.
Qed.

Lemma digits2_pos_unique (p : positive) (d : Z) :
  2 ^ (d - 1) <= Zpos p < 2 ^ d -> 1 <= d -> Zpos (digits2_pos p) = d.
Proof.
  intros [Hlo Hhi] Hd.
  destruct (digits2_pos_bounds p) as [Blo Bhi].
  assert (d - 1 < Zpos (digits2_pos p)) as H1.
  { apply (Z.pow_lt_mono_r_iff 2); lia. }
  assert (Zpos (digits2_pos p) - 1 < d) as H2.
  { apply (Z.pow_lt_mono_r_iff 2); lia. }
  lia.
Qed.

Lemma shr_1_half (mrs : shr_record) :
  0 <= shr_m mrs -> shr_m (shr_1 mrs) = shr_m mrs / 2.
Proof.
  destruct mrs as [m r s]. cbn [shr_m]. intros H.
  rewrite <- Z.div2_div.
  destruct m as [|[p|p|]|p]; try reflexivity. lia.
Qed.

Lemma pow2_xO (k : positive) : 2 ^ Zpos k~0 = 2 ^ Zpos k * 2 ^ Zpos k.
Proof. replace (Zpos k~0) with (Zpos k + Zpos k) by lia. apply Z.pow_add_r; lia. Qed.

Lemma pow2_xI (k : positive) : 2 ^ Zpos k~1 = 2 * (2 ^ Zpos k * 2 ^ Zpos k).
Proof.
  replace (Zpos k~1) with (1 + (Zpos k + Zpos k)) by lia.
  rewrite !Z.pow_add_r by lia. reflexivity.
Qed.

Lemma iter_shr_1 (k : positive) :
  forall mrs, 0 <= shr_m mrs ->
              shr_m (iter_pos shr_1 k mrs) = shr_m mrs / 2 ^ Zpos k.
Proof.
  assert (forall k, 0 < 2 ^ Zpos k) as Hpow by (intros; apply Z.pow_pos_nonneg; lia).
  induction k as [k IH|k IH|]; intros mrs H; cbn [iter_pos].
  - assert (0 <= shr_m (shr_1 mrs)) as H1
      by (rewrite shr_1_half by exact H; apply Z.div_pos; lia).
    assert (0 <= shr_m (iter_pos shr_1 k (shr_1 mrs))) as H2
      by (rewrite IH by exact H1; apply Z.div_pos; [exact H1|apply Hpow]).
    rewrite IH, IH, shr_1_half by assumption.
    pose proof (Hpow k).
    rewrite !Z.div_div by lia. now rewrite pow2_xI.
  - assert (0 <= shr_m (iter_pos shr_1 k mrs)) as H2
      by (rewrite IH by exact H; apply Z.div_pos; [exact H|apply Hpow]).
    rewrite IH, IH by assumption.
    pose proof (Hpow k).
    rewrite !Z.div_div by lia. now rewrite pow2_xO.
  - rewrite shr_1_half by exact H. now rewrite Z.pow_1_r.
Qed.

Lemma fexp_of (e : Z) : -1021 <= e -> fexp prec emax e = e - 53.
Proof. unfold fexp, emin, prec, emax. lia. Qed.

Lemma round_aligned (s : bool) (m : positive) (e : Z) :
  Zpos (digits2_pos m) = 53 -> -1074 <= e <= 971 ->
  binary_round_aux prec emax s (Zpos m) e loc_Exact = S754_finite s m e.
Proof.
  intros Hd He. unfold binary_round_aux, shr_fexp. cbn [Zdigits2].
  rewrite Hd, fexp_of by lia.
  replace (53 + e - 53 - e) with 0 by lia.
  cbn [shr shr_record_of_loc shr_m loc_of_shr_record round_nearest_even Zdigits2].
  rewrite Hd, fexp_of by lia.
  replace (53 + e - 53 - e) with 0 by lia.
  cbn [shr shr_record_of_loc shr_m].
  replace (e <=? emax - prec) with true; [reflexivity|].
  symmetry. apply Z.leb_le. unfold emax, prec. lia.
Qed.

Lemma round_long (s : bool) (p : positive) :
  54 <= Zpos (digits2_pos p) <= 900 ->
  exists m e, binary_round_aux prec emax s (Zpos p) 0 loc_Exact = S754_finite s m e.
Proof.
  intros Hd. pose proof (digits2_pos_bounds p) as [Blo Bhi].
  set (d := Zpos (digits2_pos p)) in *.
  unfold binary_round_aux, shr_fexp. cbn [Zdigits2]. fold d.
  rewrite fexp_of by lia.
  replace (d + 0 - 53 - 0) with (d - 53) by lia.
  destruct (d - 53) as [|t|t] eqn:Et; try lia.
  cbn [shr shr_record_of_loc].
  set (mrs := iter_pos shr_1 t _).
  assert (shr_m mrs = Zpos p / 2 ^ Zpos t) as Hm
    by (unfold mrs; rewrite iter_shr_1; [reflexivity|cbn; lia]).
  assert (0 < 2 ^ Zpos t) as Hpt by (apply Z.pow_pos_nonneg; lia).
  assert (2 ^ d = 2 ^ Zpos t * 2 ^ 53) as Hsplit
    by (rewrite <- Z.pow_add_r by lia; f_equal; lia).
  assert (2 ^ (d - 1) = 2 ^ Zpos t * 2 ^ 52) as Hsplit'
    by (rewrite <- Z.pow_add_r by lia; f_equal; lia).
  assert (2 ^ 52 <= shr_m mrs < 2 ^ 53) as Hb.
  { rewrite Hm. split.
    - apply Z.div_le_lower_bound; lia.
    - apply Z.div_lt_upper_bound; lia. }
  set (m2 := round_nearest_even (shr_m mrs) (loc_of_shr_record mrs)).
  assert (2 ^ 52 <= m2 <= 2 ^ 53) as Hb2.
  { unfold m2, round_nearest_even.
    destruct (loc_of_shr_record mrs) as [|[]]; try destruct (Z.even _); lia. }
  destruct m2 as [|q|q] eqn:Eq; try lia.
  cbn [Zdigits2].
  pose proof (digits2_pos_bounds q) as [Qlo Qhi].
  set (dq := Zpos (digits2_pos q)) in *.
  assert (53 <= dq <= 54) as Hdq.
  { split.
    - assert (52 < dq); [|lia]. apply (Z.pow_lt_mono_r_iff 2); lia.
    - assert (dq - 1 < 54); [|lia]. apply (Z.pow_lt_mono_r_iff 2); lia. }
  rewrite fexp_of by lia.
  assert (Z.add (Zpos t) 0 = Zpos t) as Ht0 by lia.
  destruct (Z.eq_dec dq 53) as [E53|E53].
  - replace (dq + (0 + Zpos t) - 53 - (0 + Zpos t)) with 0 by lia.
    cbn [shr shr_record_of_loc shr_m].
    replace (0 + Zpos t <=? emax - prec) with true.
    + eauto.
    + symmetry. apply Z.leb_le. unfold emax, prec. lia.
  - replace (dq + (0 + Zpos t) - 53 - (0 + Zpos t)) with 1 by lia.
    cbn [shr shr_record_of_loc iter_pos].
    pose proof (shr_1_half {| shr_m := Zpos q; shr_r := false; shr_s := false |}) as Hh.
    cbn [shr_m] in Hh. specialize (Hh ltac:(lia)).
    assert (2 ^ 51 <= Zpos q / 2) as Hq
      by (apply Z.div_le_lower_bound; [lia|change (2 * 2 ^ 51) with (2 ^ 52); lia]).
    rewrite Hh. destruct (Zpos q / 2) as [|q'|q'] eqn:Eq'; try lia.
    replace (0 + Zpos t + 1 <=? emax - prec) with true.
    + eauto.
    + symmetry. apply Z.leb_le. unfold emax, prec. lia.
Qed.

Lemma digits2_pos_iter (p k : positive) :
  Zpos (digits2_pos (Pos.iter xO p k)) = Zpos (digits2_pos p) + Zpos k.
Proof.
  induction k as [|k IH] using Pos.peano_ind.
  - cbn [Pos.iter digits2_pos]. lia.
  - rewrite Pos.iter_succ. cbn [digits2_pos]. lia.
Qed.

Lemma binary_round_finite (s : bool) (p : positive) :
  Zpos p <= 2 ^ 63 ->
  exists m e, binary_round prec emax s p 0 = S754_finite s m e.
Proof.
  intros Hp. pose proof (digits2_pos_bounds p) as [Blo Bhi].
  unfold binary_round.
  set (d := Zpos (digits2_pos p)) in *.
  assert (1 <= d <= 64) as Hd.
  { split; [unfold d; lia|].
    assert (d - 1 < 64); [|lia]. apply (Z.pow_lt_mono_r_iff 2); lia. }
  rewrite fexp_of by lia. unfold shl_align.
  replace (d + 0 - 53 - 0) with (d - 53) by lia.
  destruct (d - 53) as [|t|k] eqn:E.
  - exists p, 0. apply round_aligned; [fold d|]; lia.
  - apply round_long. fold d. lia.
  - exists (Pos.iter xO p k), (d + 0 - 53). apply round_aligned.
    + rewrite digits2_pos_iter. fold d. lia.
    + lia.
Qed.

Lemma binary_round_aux_opp (m e : Z) (l : location) :
  binary_round_aux prec emax true m e l
  = SFopp (binary_round_aux prec emax false m e l).
Proof.
  unfold binary_round_aux.
  destruct (shr_fexp prec emax m e l) as [mrs' e'].
  destruct (shr_fexp prec emax _ e' loc_Exact) as [mrs'' e''].
  destruct (shr_m mrs''); [reflexivity| |reflexivity].
  destruct (e'' <=? emax - prec); reflexivity.
Qed.

Lemma shr_nonneg (mrs : shr_record) (e n : Z) :
  0 <= shr_m mrs -> 0 <= shr_m (fst (shr mrs e n)).
Proof.
  intros H. destruct n as [|k|k]; cbn [shr fst]; try exact H.
  rewrite iter_shr_1 by exact H. apply Z.div_pos; [exact H|].
  apply Z.pow_pos_nonneg; lia.
Qed.

Lemma shr_record_of_loc_m (m : Z) (l : location) : shr_m (shr_record_of_loc m l) = m.
Proof. destruct l as [|[]]; reflexivity. Qed.

Lemma binary_round_aux_not_nan (s : bool) (m e : Z) (l : location) :
  0 <= m -> binary_round_aux prec emax s m e l <> S754_nan.
Proof.
  intros H. unfold binary_round_aux, shr_fexp.
  pose proof (shr_nonneg (shr_record_of_loc m l) e
                (fexp prec emax (Zdigits2 m + e) - e)) as H1.
  rewrite shr_record_of_loc_m in H1. specialize (H1 H).
  destruct (shr (shr_record_of_loc m l) e _) as [mrs' e']. cbn [fst] in H1.
  set (m2 := round_nearest_even (shr_m mrs') (loc_of_shr_record mrs')).
  assert (0 <= m2) as H2.
  { unfold m2, round_nearest_even.
    destruct (loc_of_shr_record mrs') as [|[]]; try destruct (Z.even _); lia. }
  pose proof (shr_nonneg (shr_record_of_loc m2 loc_Exact) e'
                (fexp prec emax (Zdigits2 m2 + e') - e')) as H3.
  rewrite shr_record_of_loc_m in H3. specialize (H3 H2).
  destruct (shr (shr_record_of_loc m2 loc_Exact) e' _) as [mrs'' e'']. cbn [fst] in H3.
  destruct (shr_m mrs''); [discriminate| |lia].
  destruct (e'' <=? emax - prec); discriminate.
Qed.

Lemma binary_round_opp (p : positive) (e : Z) :
  binary_round prec emax true p e = SFopp (binary_round prec emax false p e).
Proof.
  unfold binary_round. destruct (shl_align p e _) as [mz ez].
  apply binary_round_aux_opp.
Qed.

Lemma valid_binary_opp (x : spec_float) :
  valid_binary (SFopp x) = valid_binary x.
Proof. destruct x; reflexivity. Qed.

Lemma float64_uint (n : Z) :
  0 <= n < 2 ^ 63 -> float64 n = PrimFloat.of_uint63 (Uint63.of_Z n).
Proof.
  intros H. unfold float64, nearestFloat.
  rewrite <- (SF2Prim_Prim2SF (PrimFloat.of_uint63 (Uint63.of_Z n))).
  rewrite of_uint63_spec, Uint63.of_Z_spec, Z.mod_small; [reflexivity|].
  exact H.
Qed.

Lemma nearestFloat_valid (n : Z) :
  - 2 ^ 63 <= n < 2 ^ 63 -> valid_binary (nearestFloat n) = true.
Proof.
  intros H.
  assert (forall k, 0 <= k < 2 ^ 63 -> valid_binary (nearestFloat k) = true)
    as Hpos.
  { intros k Hk. unfold nearestFloat.
    rewrite <- (Z.mod_small k (2 ^ 63)) by exact Hk.
    change (2 ^ 63) with wB. rewrite <- Uint63.of_Z_spec, <- of_uint63_spec.
    apply Prim2SF_valid. }
  destruct n as [|p|p].
  - reflexivity.
  - apply Hpos. lia.
  - destruct (Z.eq_dec (Zneg p) (- 2 ^ 63)) as [E|E].
    + rewrite E. reflexivity.
    + unfold nearestFloat, binary_normalize.
      rewrite binary_round_opp, valid_binary_opp.
      apply (Hpos (Zpos p)). lia.
Qed.

Lemma Prim2SF_float64 (n : Z) :
  - 2 ^ 63 <= n < 2 ^ 63 -> Prim2SF (float64 n) = nearestFloat n.
Proof. intros H. apply Prim2SF_SF2Prim. now apply nearestFloat_valid. Qed.

Lemma nearestFloat_positive (n : Z) :
  0 < n <= 2 ^ 63 -> exists m e, nearestFloat n = S754_finite false m e.
Proof.
  intros H. destruct n as [|p|p]; try lia. now apply binary_round_finite.
Qed.

Lemma nearestFloat_number (n : Z) :
  - 2 ^ 63 <= n <= 2 ^ 63 ->
  (exists s, nearestFloat n = S754_zero s)
  \/ exists s m e, nearestFloat n = S754_finite s m e.
Proof.
  intros H. destruct n as [|p|p].
  - left. exists false. reflexivity.
  - right. exists false. now apply binary_round_finite.
  - right. exists true. apply binary_round_finite.
    pose proof (Pos2Z.opp_pos p). lia.
Qed.

Lemma SFdiv_not_nan (x : spec_float) (s : bool) (m : positive) (e : Z) :
  (exists sx, x = S754_zero sx) \/ (exists sx mx ex, x = S754_finite sx mx ex) ->
  SFdiv prec emax x (S754_finite s m e) <> S754_nan.
Proof.
  intros [[sx ->]|(sx & mx & ex & ->)]; [discriminate|].
  unfold SFdiv, SFdiv_core_binary.
  set (m' := match _ with Zpos _ => _ | Z0 => _ | Zneg _ => _ end).
  assert (0 <= m') as Hm'.
  { unfold m'. destruct (_ - _ - _)%Z; try lia. apply Z.shiftl_nonneg. lia. }
  pose proof (Z_div_mod m' (Zpos m) ltac:(lia)) as Hdiv.
  destruct (Z.div_eucl m' (Zpos m)) as [q r].
  apply binary_round_aux_not_nan. nia.
Qed.

Lemma SFmul_not_nan (x : spec_float) (s : bool) (m : positive) (e : Z) :
  x <> S754_nan -> SFmul prec emax x (S754_finite s m e) <> S754_nan.
Proof.
  intros H. destruct x as [sx|sx| |sx mx ex]; try discriminate; [congruence|].
  cbn [SFmul]. apply binary_round_aux_not_nan. lia.
Qed.

End Float64.

Lemma wrapInt_bounds (word : wordSize) (z : Z) :
  (minInt word <= wrapInt word z <= maxInt word)%Z.
Proof.
  unfold wrapInt, minInt, maxInt.
  destruct word; cbn [intBits];
    set (a := (2 ^ (32 - 1))%Z) in *; set (b := (2 ^ 32)%Z) in *;
    set (c := (2 ^ (64 - 1))%Z) in *; set (d := (2 ^ 64)%Z) in *;
    vm_compute in a, b, c, d; subst a b c d.
  - pose proof (Z.mod_pos_bound (z + 2147483648) 4294967296 eq_refl). lia.
  - pose proof (Z.mod_pos_bound (z + 9223372036854775808) 18446744073709551616 eq_refl).
    lia.
Qed.

Lemma int_in_float_range (word : wordSize) :
  (- 2 ^ 63 <= minInt word /\ maxInt word < 2 ^ 63)%Z.
Proof. destruct word; vm_compute; split; congruence. Qed.

(** C9: [printFinalStats] prints the success rate as its last line exactly
    when [Success + Errors > 0]; otherwise (every job skipped, say) the
    division is not made and no line reports a success rate.  Under the
    guard the divisor [float64(processed)] is a positive finite number, not
    zero; the rate is the [float64] product of the [float64] quotient of
    the two counts by 100, as IEEE 754 defines them, and it is a number,
    never NaN.  Three jobs out of four print 75.0, one out of three 33.3,
    two out of three 66.7, five out of five 100.0, none out of seven 0.0. *)
Theorem success_rate_is_guarded (word : wordSize) (stats : ConversionStats) (w : World) :
  let processed := wrapInt word (Success stats + Errors stats) in
  let rate := successRate (Success stats) processed in
  stdout (printFinalStats word stats w)
  = stdout w ++ summaryLines stats
    ++ (if (processed >? 0)%Z
        then [logInfo ("Success rate:      " +++ fmtF1 rate +++ "%")]
        else [])
  /\ existsb isRateLine (summaryLines stats) = false
  /\ ((processed >? 0)%Z = true ->
      (exists m e, Prim2SF (float64 processed) = S754_finite false m e)
      /\ ((minInt word <= Success stats <= maxInt word)%Z ->
          Prim2SF rate
          = SF64mul (SF64div (nearestFloat (Success stats)) (nearestFloat processed))
                    (nearestFloat 100)
          /\ Prim2SF rate <> S754_nan))
  /\ ((processed >? 0)%Z = false ->
      existsb isRateLine (skipn (List.length (stdout w))
                                (stdout (printFinalStats word stats w))) = false)
  /\ (fmtF1 (successRate 3 4) = "75.0" /\ fmtF1 (successRate 1 3) = "33.3"
      /\ fmtF1 (successRate 2 3) = "66.7" /\ fmtF1 (successRate 5 5) = "100.0"
      /\ fmtF1 (successRate 0 7) = "0.0")%string.
Proof.
  intros processed rate.
  assert (existsb isRateLine (summaryLines stats) = false) as Hsum.
  { unfold summaryLines.
    destruct (Skipped stats >? 0)%Z, (Errors stats >? 0)%Z,
      (NonImageFiles stats >? 0)%Z; reflexivity. }
  assert (stdout (printFinalStats word stats w)
          = stdout w ++ summaryLines stats
            ++ (if (processed >? 0)%Z
                then [logInfo ("Success rate:      " +++ fmtF1 rate +++ "%")]
                else [])) as Hout.
  { unfold printFinalStats, summaryLines. fold processed.
    destruct (Skipped stats >? 0)%Z, (Errors stats >? 0)%Z,
      (NonImageFiles stats >? 0)%Z, (processed >? 0)%Z;
      rewrite ?stdout_println, <- ?app_assoc; reflexivity. }
  split; [exact Hout|]. split; [exact Hsum|]. split; [|split].
  - intros Hp. apply Z.gtb_lt in Hp.
    pose proof (wrapInt_bounds word (Success stats + Errors stats)) as Hb.
    fold processed in Hb. destruct (int_in_float_range word) as [Hlo Hhi].
    destruct (nearestFloat_positive processed) as (m & e & Hd); [lia|].
    split.
    + exists m, e. rewrite Prim2SF_float64 by lia. exact Hd.
    + intros Hs.
      assert (Prim2SF rate
              = SF64mul (SF64div (nearestFloat (Success stats)) (nearestFloat processed))
                        (nearestFloat 100)) as Hrate.
      { unfold rate, successRate.
        rewrite FloatAxioms.mul_spec, FloatAxioms.div_spec, !Prim2SF_float64 by lia.
        reflexivity. }
      split; [exact Hrate|]. rewrite Hrate, Hd.
      destruct (nearestFloat_positive 100) as (m1 & e1 & ->); [lia|].
      apply SFmul_not_nan, SFdiv_not_nan, nearestFloat_number. lia.
  - intros Hp. rewrite Hout, Hp, app_nil_r.
    rewrite skipn_app, skipn_all, Nat.sub_diag. exact Hsum.
  - repeat split; vm_compute; reflexivity.
Qed.

Lemma success_rate_is_guarded_witness :
  stdout (printFinalStats W64
            {| Total := 5; Success := 3; Errors := 1; Skipped := 1;
               NonImageFiles := 2 |}
            {| files := Sample.root; stdout := [] |})
  = [ logInfo "Conversion completed";
      logInfo "Total folders:     5";
      logOK "Successful:        3";
      logWarning "Skipped:           1";
      logError "Errors:            1";
      logInfo "Non-image files:   2 (excluded)";
      logInfo "Success rate:      75.0%" ].
Proof.
  destruct (success_rate_is_guarded W64
              {| Total := 5; Success := 3; Errors := 1; Skipped := 1;
                 NonImageFiles := 2 |}
              {| files := Sample.root; stdout := [] |}) as [H _].
  rewrite H. vm_compute. reflexivity.
Defined.

(** ** One job *)

(** How a job ends. *)
Inductive Outcome :=
| Succeeded (excluded : Z)
| Failed (err : error)
| SkippedExisting.

(** The counters after a job that ended with the given outcome. *)
Definition count (word : wordSize) (o : Outcome) (stats : ConversionStats)
    : ConversionStats :=
  match o with
  | Succeeded excluded =>
      {| Total := Total stats; Success := wrapInt word (Success stats + 1);
         Errors := Errors stats; Skipped := Skipped stats;
         NonImageFiles := wrapInt word (NonImageFiles stats + excluded) |}
  | Failed _ =>
      {| Total := Total stats; Success := Success stats;
         Errors := wrapInt word (Errors stats + 1); Skipped := Skipped stats;
         NonImageFiles := NonImageFiles stats |}
  | SkippedExisting =>
      {| Total := Total stats; Success := Success stats; Errors := Errors stats;
         Skipped := wrapInt word (Skipped stats + 1);
         NonImageFiles := NonImageFiles stats |}
  end.

(** The outcome of the job for [item] in a file system: skipped when the
    archive exists, else what the conversion returns. *)
Definition outcome (zipEncode : list zip.member -> bytes) (item : WorkItem)
    (fs : os.FS) : Outcome :=
  match os.Stat fs (OutputPath item) with
  | Ok _ => SkippedExisting
  | Err _ =>
      match fst (convertToCBZ zipEncode (SourcePath item) (OutputPath item)
                   {| files := fs; stdout := [] |}) with
      | Ok excluded => Succeeded excluded
      | Err err => Failed err
      end
  end.

(** What is printed does not matter to the scan or to the conversion. *)
Lemma analyzeDirectory_stdout (dir : string) (w : World) (out : list string) :
  analyzeDirectory dir {| files := files w; stdout := out |}
  = (fst (analyzeDirectory dir w),
     {| files := files w;
        stdout := out ++ skipn (List.length (stdout w))
                               (stdout (snd (analyzeDirectory dir w))) |}).
Proof.
  unfold analyzeDirectory. cbn [files stdout].
  destruct (WalkDir _ _ _ _) as [s [e|]]; cbn [fst snd stdout];
    now rewrite skipn_app, skipn_all, Nat.sub_diag.
Qed.

Lemma convertToCBZ_stdout (zipEncode : list zip.member -> bytes)
    (sourceDir cbzPath : string) (w : World) (out : list string) :
  fst (convertToCBZ zipEncode sourceDir cbzPath {| files := files w; stdout := out |})
  = fst (convertToCBZ zipEncode sourceDir cbzPath w)
  /\ files (snd (convertToCBZ zipEncode sourceDir cbzPath
                   {| files := files w; stdout := out |}))
     = files (snd (convertToCBZ zipEncode sourceDir cbzPath w)).
Proof.
  unfold convertToCBZ. rewrite analyzeDirectory_stdout.
  pose proof (analyzeDirectory_files sourceDir w) as Hf.
  destruct (analyzeDirectory sourceDir w) as [[[images nonImages]|e] w1];
    cbn [fst snd files stdout] in *; rewrite Hf; [|now split].
  destruct (Z.of_nat (List.length images) =? 0)%Z; [now split|].
  destruct (os.Create (files w) cbzPath) as [created|e]; [|now split].
  destruct (addImageFiles created zip.NewWriter images sourceDir) as [zw [e|]];
    split; reflexivity.
Qed.

(** A job counts its outcome, once. *)
Lemma processWorkItem_counts (zipEncode : list zip.member -> bytes)
    (word : wordSize) (workerID : Z) (item : WorkItem) (stats : ConversionStats)
    (w : World) :
  fst (processWorkItem zipEncode word workerID item stats w)
  = count word (outcome zipEncode item (files w)) stats.
Proof.
  unfold processWorkItem, outcome. rewrite files_println.
  destruct (os.Stat (files w) (OutputPath item)) as [info|e]; [reflexivity|].
  match goal with
  | |- context [convertToCBZ zipEncode ?s ?c (println ?l w)] =>
      destruct (convertToCBZ_stdout zipEncode s c
                  {| files := files w; stdout := [] |} (stdout (println l w)))
        as [Hr _];
      change {| files := files {| files := files w; stdout := [] |};
                stdout := stdout (println l w) |} with (println l w) in Hr;
      destruct (convertToCBZ zipEncode s c (println l w)) as [r w1]
  end.
  cbn [fst] in Hr. rewrite <- Hr.
  destruct r as [n|e']; [|reflexivity].
  destruct (n >? 0)%Z; reflexivity.
Qed.

Lemma length_eqb_0 {A : Type} (l : list A) :
  (Z.of_nat (List.length l) =? 0)%Z = match l with [] => true | _ :: _ => false end.
Proof. destruct l; reflexivity. Qed.

(** The ways [convertToCBZ] returns. *)
Lemma convertToCBZ_cases (zipEncode : list zip.member -> bytes)
    (sourceDir cbzPath : string) (w : World) :
  let r := convertToCBZ zipEncode sourceDir cbzPath w in
  (exists e, fst (analyzeDirectory sourceDir w) = Err e
             /\ fst r = Err (Wrapped "failed to analyze directory" e)
             /\ files (snd r) = files w)
  \/ (exists nonImages, fst (analyzeDirectory sourceDir w) = Ok ([], nonImages)
                        /\ fst r = Err (ErrorString "no image files found")
                        /\ files (snd r) = files w)
  \/ (exists images nonImages,
        fst (analyzeDirectory sourceDir w) = Ok (images, nonImages)
        /\ images <> []
        /\ ((exists e, os.Create (files w) cbzPath = Err e
                       /\ fst r = Err (Wrapped "failed to create CBZ file" e)
                       /\ files (snd r) = files w)
            \/ (exists created zipWriter failed,
                  os.Create (files w) cbzPath = Ok created
                  /\ addImageFiles created zip.NewWriter images sourceDir
                     = (zipWriter, failed)
                  /\ files (snd r)
                     = os.WriteFile created cbzPath (zipEncode (zip.dir zipWriter))
                  /\ fst r = match failed with
                             | Some e => Err (Wrapped "failed to add file to archive" e)
                             | None => Ok (Z.of_nat (List.length nonImages))
                             end))).
Proof.
  unfold convertToCBZ.
  pose proof (analyzeDirectory_files sourceDir w) as Hf.
  destruct (analyzeDirectory sourceDir w) as [[[images nonImages]|e] w1];
    cbn [fst snd] in *.
  - destruct images as [|p images].
    + right; left. exists nonImages. auto.
    + right; right. exists (p :: images), nonImages.
      split; [reflexivity|]. split; [discriminate|].
      rewrite length_eqb_0, Hf.
      destruct (os.Create (files w) cbzPath) as [created|e].
      * right.
        destruct (addImageFiles created zip.NewWriter (p :: images) sourceDir)
          as [zw failed] eqn:E.
        exists created, zw, failed. destruct failed; auto.
      * left. exists e. auto.
  - left. exists e. auto.
Qed.

(** The file system after a job. *)
Lemma processWorkItem_files (zipEncode : list zip.member -> bytes)
    (word : wordSize) (workerID : Z) (item : WorkItem) (stats : ConversionStats)
    (w : World) :
  files (snd (processWorkItem zipEncode word workerID item stats w))
  = match os.Stat (files w) (OutputPath item) with
    | Ok _ => files w
    | Err _ => files (snd (convertToCBZ zipEncode (SourcePath item) (OutputPath item) w))
    end.
Proof.
  unfold processWorkItem. rewrite files_println.
  destruct (os.Stat (files w) (OutputPath item)) as [info|e]; [reflexivity|].
  match goal with
  | |- context [convertToCBZ zipEncode ?s ?c (println ?l w)] =>
      destruct (convertToCBZ_stdout zipEncode s c w (stdout (println l w)))
        as [_ Hr];
      change {| files := files w; stdout := stdout (println l w) |}
        with (println l w) in Hr;
      destruct (convertToCBZ zipEncode s c (println l w)) as [r w1]
  end.
  cbn [snd] in Hr. rewrite <- Hr.
  destruct r as [n|e']; [|reflexivity].
  destruct (n >? 0)%Z; reflexivity.
Qed.

(** The prefix of the lines a worker prints. *)
Definition workerPrefix (workerID : Z) : string :=
  "[WORKER " +++ fmt.itoa workerID +++ "]".

(** The job of an item whose archive exists: two lines are printed, the
    skip is counted, nothing else happens. *)
Lemma processWorkItem_skip (zipEncode : list zip.member -> bytes)
    (word : wordSize) (workerID : Z) (item : WorkItem) (stats : ConversionStats)
    (w : World) (info : os.FileInfo) :
  os.Stat (files w) (OutputPath item) = Ok info ->
  processWorkItem zipEncode word workerID item stats w
  = (count word SkippedExisting stats,
     {| files := files w;
        stdout := stdout w
          ++ [ logInfo (workerPrefix workerID +++ " Processing: "
                        +++ truncateString (FolderName item) 60);
               logWarning (workerPrefix workerID +++ " CBZ already exists, skipping: "
                           +++ filepath.Base (OutputPath item)) ] |}).
Proof.
  intros H. unfold processWorkItem. rewrite files_println, H.
  unfold println. cbn [files stdout count]. now rewrite <- app_assoc.
Qed.

(** C3: when the scan finds no image file, the conversion fails with "no
    image files found" before anything is created: the file system is as
    it was, so there is no archive at the destination that was not there
    before, and the job counts as an error. *)
Theorem empty_scan_fails_without_archive (zipEncode : list zip.member -> bytes)
    (sourceDir cbzPath : string) (w : World) (nonImages : list string) :
  fst (analyzeDirectory sourceDir w) = Ok ([], nonImages) ->
  let r := convertToCBZ zipEncode sourceDir cbzPath w in
  fst r = Err (ErrorString "no image files found")
  /\ files (snd r) = files w
  /\ os.Stat (files (snd r)) cbzPath = os.Stat (files w) cbzPath
  /\ (forall word workerID item stats e,
        SourcePath item = sourceDir -> OutputPath item = cbzPath ->
        os.Stat (files w) cbzPath = Err e ->
        let job := processWorkItem zipEncode word workerID item stats w in
        fst job = count word (Failed (ErrorString "no image files found")) stats
        /\ files (snd job) = files w
        /\ os.Stat (files (snd job)) cbzPath = Err e).
Proof.
  intros Hscan r.
  assert (fst r = Err (ErrorString "no image files found")
          /\ files (snd r) = files w) as [Hr Hf].
  { subst r. unfold convertToCBZ.
    pose proof (analyzeDirectory_files sourceDir w) as Hf.
    destruct (analyzeDirectory sourceDir w) as [scanned w1]. cbn [fst snd] in *.
    subst scanned. auto. }
  repeat split; auto.
  - now rewrite Hf.
  - rewrite processWorkItem_counts. unfold outcome. rewrite H0, H, H1.
    destruct (convertToCBZ_stdout zipEncode sourceDir cbzPath w []) as [Ho _].
    destruct w as [fs out]. cbn [files] in *.
    fold r in Ho. rewrite Ho, Hr. reflexivity.
  - rewrite processWorkItem_files, H0, H, H1. exact Hf.
  - rewrite processWorkItem_files, H0, H, H1. fold r. now rewrite Hf.
Qed.

Lemma empty_scan_fails_without_archive_witness :
  fst (convertToCBZ Sample.encode "in/b" "out/b.cbz" Sample.world)
  = Err (ErrorString "no image files found")
  /\ os.Stat (files (snd (convertToCBZ Sample.encode "in/b" "out/b.cbz" Sample.world)))
             "out/b.cbz"
     = Err (PathError "stat" "out/b.cbz" ENOENT).
Proof.
  destruct (empty_scan_fails_without_archive Sample.encode "in/b" "out/b.cbz"
              Sample.world ["readme.txt"%string] eq_refl) as (H1 & _ & H3 & _).
  split; [exact H1|]. rewrite H3. reflexivity.
Defined.

(** A conversion that got as far as creating the archive leaves a file at
    the destination, whether adding the images succeeded or not. *)
Lemma convertToCBZ_leaves_archive (zipEncode : list zip.member -> bytes)
    (sourceDir cbzPath : string) (w : World) :
  let r := convertToCBZ zipEncode sourceDir cbzPath w in
  (exists n, fst r = Ok n)
  \/ (exists e, fst r = Err (Wrapped "failed to add file to archive" e)) ->
  exists info, os.Stat (files (snd r)) cbzPath = Ok info.
Proof.
  intros r H.
  destruct (convertToCBZ_cases zipEncode sourceDir cbzPath w)
    as [(e & _ & Hr & _)|[(ni & _ & Hr & _)|(images & ni & _ & _ & Hc)]];
    fold r in Hr || fold r in Hc.
  - rewrite Hr in H. destruct H as [[n H]|[e' H]]; discriminate.
  - rewrite Hr in H. destruct H as [[n H]|[e' H]]; discriminate.
  - destruct Hc as [(e & _ & Hr & _)|(created & zw & failed & Hcr & _ & Hf & _)].
    + rewrite Hr in H. destruct H as [[n H]|[e' H]]; discriminate.
    + rewrite Hf. eapply Create_then_Stat; eauto.
Qed.

(** C5: a job whose destination exists is skipped on existence alone,
    whatever is at the destination and whatever the source folder holds:
    the skip is counted and nothing else, the file system stays as it is
    (no archive is built, the existing one keeps its bytes), and only the
    two lines of the skip are printed (no scan ran).  After a conversion
    that succeeded the destination exists, so running the job again, in
    any later world with the same files, skips it. *)
Theorem existing_archive_is_skipped (zipEncode : list zip.member -> bytes)
    (word : wordSize) (workerID : Z) (item : WorkItem) (stats : ConversionStats)
    (w : World) :
  (forall info,
     os.Stat (files w) (OutputPath item) = Ok info ->
     let job := processWorkItem zipEncode word workerID item stats w in
     fst job = count word SkippedExisting stats
     /\ Skipped (fst job) = wrapInt word (Skipped stats + 1)
     /\ (Total (fst job), Success (fst job), Errors (fst job), NonImageFiles (fst job))
        = (Total stats, Success stats, Errors stats, NonImageFiles stats)
     /\ files (snd job) = files w
     /\ os.resolve (files (snd job)) (OutputPath item)
        = os.resolve (files w) (OutputPath item)
     /\ stdout (snd job)
        = stdout w
          ++ [ logInfo (workerPrefix workerID +++ " Processing: "
                        +++ truncateString (FolderName item) 60);
               logWarning (workerPrefix workerID +++ " CBZ already exists, skipping: "
                           +++ filepath.Base (OutputPath item)) ])
  /\ (forall n w',
        convertToCBZ zipEncode (SourcePath item) (OutputPath item) w = (Ok n, w') ->
        forall workerID' stats' again,
          files again = files w' ->
          let job := processWorkItem zipEncode word workerID' item stats' again in
          fst job = count word SkippedExisting stats'
          /\ files (snd job) = files w').
Proof.
  split.
  - intros info H job. subst job. rewrite (processWorkItem_skip _ _ _ _ _ _ _ H).
    cbn [fst snd files stdout count Skipped Total Success Errors NonImageFiles].
    repeat split.
  - intros n w' H workerID' stats' again Hfiles job. subst job.
    destruct (convertToCBZ_leaves_archive zipEncode (SourcePath item)
                (OutputPath item) w) as [info Hinfo].
    { left. exists n. now rewrite H. }
    rewrite H in Hinfo. cbn [snd] in Hinfo. rewrite <- Hfiles in Hinfo.
    rewrite (processWorkItem_skip _ _ _ _ _ _ _ Hinfo). cbn [fst snd files].
    split; [reflexivity|exact Hfiles].
Qed.

(** C10: when adding a file to the archive fails, the archive created at
    the destination is not removed: it is there after the failed job, and
    a later run of the job skips the folder instead of converting it. *)
Theorem failed_build_leaves_archive (zipEncode : list zip.member -> bytes)
    (item : WorkItem) (w : World) (e : error) (w' : World) :
  convertToCBZ zipEncode (SourcePath item) (OutputPath item) w
  = (Err (Wrapped "failed to add file to archive" e), w') ->
  (exists info, os.Stat (files w') (OutputPath item) = Ok info)
  /\ (forall word workerID stats again,
        files again = files w' ->
        let job := processWorkItem zipEncode word workerID item stats again in
        fst job = count word SkippedExisting stats
        /\ files (snd job) = files w').
Proof.
  intros H.
  destruct (convertToCBZ_leaves_archive zipEncode (SourcePath item)
              (OutputPath item) w) as [info Hinfo].
  { right. exists e. now rewrite H. }
  rewrite H in Hinfo. cbn [snd] in Hinfo.
  split; [eauto|].
  intros word workerID stats again Hfiles job. subst job.
  rewrite <- Hfiles in Hinfo.
  rewrite (processWorkItem_skip _ _ _ _ _ _ _ Hinfo). cbn [fst snd files].
  split; [reflexivity|exact Hfiles].
Qed.

Lemma failed_build_leaves_archive_witness :
  (exists info,
     os.Stat (files (snd (convertToCBZ Sample.encode "in/c" "out/c.cbz" Sample.world)))
             "out/c.cbz" = Ok info)
  /\ Skipped (fst (processWorkItem Sample.encode W64 1 (Sample.item "c")
                     (Sample.noStats 1)
                     (snd (convertToCBZ Sample.encode "in/c" "out/c.cbz" Sample.world))))
     = 1%Z.
Proof.
  destruct (failed_build_leaves_archive Sample.encode (Sample.item "c") Sample.world
              (PathError "open" "in/c/locked" EACCES)
              (snd (convertToCBZ Sample.encode "in/c" "out/c.cbz" Sample.world))
              eq_refl) as [H1 H2].
  split; [exact H1|].
  destruct (H2 W64 1%Z (Sample.noStats 1) _ eq_refl) as [H _].
  rewrite H. reflexivity.
Defined.

(** ** What the scan returns *)

(** The walk from [n] at [path] reaches the node [m] at [p]. *)
Inductive reaches : string -> os.node -> string -> os.node -> Prop :=
| reachesHere path n : reaches path n path n
| reachesBelow path le es name child p m :
    In (name, child) es ->
    reaches (filepath.Join path name) child p m ->
    reaches path (os.Dir le es) p m.

(** The scanned files are the regular files the walk reaches, at any depth. *)
Lemma filesUnder_reaches (n : os.node) :
  forall path p, In p (filesUnder path n) <-> exists f, reaches path n p (os.File f).
Proof.
  induction n as [f|le es IH] using node_induction; intros path p.
  - simpl. split.
    + intros [<-|[]]. exists f. constructor.
    + intros [g H]. inversion H; subst. now left.
  - rewrite filesUnder_Dir. split.
    + intros H. induction es as [|[name c] es IHes]; [contradiction|].
      inversion IH as [|? ? IHc IHrest]; subst. simpl in H, IHc.
      apply in_app_or in H as [H|H].
      * apply IHc in H as [g H]. exists g. econstructor; [now left|exact H].
      * destruct (IHes IHrest H) as [g Hg]. exists g.
        inversion Hg; subst. econstructor; [right; eassumption|eassumption].
    + intros [g H]. inversion H as [|? ? ? name child ? ? Hin Hr]; subst.
      clear H. induction es as [|[name' c] es IHes]; [contradiction|].
      inversion IH as [|? ? IHc IHrest]; subst. simpl in IHc. simpl.
      apply in_or_app. destruct Hin as [Heq|Hin].
      * inversion Heq; subst. left. apply IHc. eauto.
      * right. now apply IHes.
Qed.

(** Every scanned file goes to exactly one of the two lists. *)
Lemma filter_split_length {A : Type} (f : A -> bool) (l : list A) :
  (List.length (filter (fun x => negb (f x)) l) + List.length (filter f l)
   = List.length l)%nat.
Proof.
  induction l as [|x l IH]; simpl; [reflexivity|].
  destruct (f x); simpl; lia.
Qed.

Lemma filter_Permutation {A : Type} (f : A -> bool) (l1 l2 : list A) :
  Permutation l1 l2 -> Permutation (filter f l1) (filter f l2).
Proof.
  induction 1 as [|x l1 l2 P IH|x y l|l1 l2 l3 P1 IH1 P2 IH2]; simpl.
  - constructor.
  - destruct (f x); [now constructor|exact IH].
  - destruct (f x), (f y); try apply Permutation_refl. constructor.
  - eapply Permutation_trans; eassumption.
Qed.

Lemma analyzeDirectory_Ok (dir : string) (w : World) (images nonImages : list string)
    (w' : World) :
  analyzeDirectory dir w = (Ok (images, nonImages), w') ->
  scannable (files w) dir = true
  /\ images = sort.Strings (filter (fun p => negb (isNonImage (files w) p))
                                   (scannedFiles (files w) dir))
  /\ nonImages = sort.Strings (map filepath.Base
                                   (filter (isNonImage (files w))
                                           (scannedFiles (files w) dir)))
  /\ w' = {| files := files w;
             stdout := stdout w ++ map unclassifiedWarning
                         (filter (unclassified (files w))
                                 (scannedFiles (files w) dir)) |}.
Proof.
  intros H. destruct (scannable (files w) dir) eqn:R.
  - rewrite analyzeDirectory_scannable in H by exact R. now inversion H.
  - destruct (analyzeDirectory_unscannable dir w R) as (op & p & e & w1 & H1 & _).
    rewrite H1 in H. discriminate.
Qed.

(** C7: the scan returns the image list sorted by path and the list of
    the other files sorted by base name.  The lists hold the regular files
    the walk reaches below the folder, at any depth, each in one list, and
    nothing else (no directory).  They are the same for every order in
    which the directories enumerate their entries. *)
Theorem scan_lists_are_sorted (dir : string) (w : World)
    (images nonImages : list string) (w' : World) :
  analyzeDirectory dir w = (Ok (images, nonImages), w') ->
  let fs := files w in
  let found := scannedFiles fs dir in
  sortedStrings images
  /\ sortedStrings nonImages
  /\ Permutation images (filter (fun p => negb (isNonImage fs p)) found)
  /\ Permutation nonImages (map filepath.Base (filter (isNonImage fs) found))
  /\ (forall enumerated, Permutation enumerated found ->
        images = sort.Strings (filter (fun p => negb (isNonImage fs p)) enumerated)
        /\ nonImages
           = sort.Strings (map filepath.Base (filter (isNonImage fs) enumerated)))
  /\ (forall n, os.resolve fs dir = os.Got n ->
        forall p, In p found <-> exists f, reaches dir n p (os.File f))
  /\ (List.length images + List.length nonImages = List.length found)%nat.
Proof.
  intros H fs found.
  apply analyzeDirectory_Ok in H as (R & -> & -> & _). fold fs found.
  repeat split.
  - apply Strings_sorted.
  - apply Strings_sorted.
  - apply Permutation_sym, Strings_perm.
  - apply Permutation_sym, Strings_perm.
  - now apply Strings_order_independent, Permutation_sym, filter_Permutation.
  - now apply Strings_order_independent, Permutation_sym, Permutation_map,
      filter_Permutation.
  - subst found. unfold scannedFiles. rewrite H. apply filesUnder_reaches.
  - subst found. unfold scannedFiles. rewrite H. apply filesUnder_reaches.
  - rewrite !Strings_length, length_map. apply filter_split_length.
Qed.

Lemma scan_lists_are_sorted_witness :
  sortedStrings ["in/a/page001.dat"; "in/a/page002.png"; "in/a/sub.webp";
                 "in/a/sub/page000.gif"]%string
  /\ sortedStrings ["cover.jpg"; "notes.txt"]%string.
Proof.
  destruct (scan_lists_are_sorted "in/a" Sample.world
              ["in/a/page001.dat"; "in/a/page002.png"; "in/a/sub.webp";
               "in/a/sub/page000.gif"]%string
              ["cover.jpg"; "notes.txt"]%string
              Sample.world eq_refl) as (H1 & H2 & _).
  split; [exact H1|exact H2].
Defined.

(** ** Files the classifier fails on *)

(** When the classifier fails on a file, the callback of the scan appends
    the file to the image list, prints a warning, and returns no error; so
    a scan that can walk the tree succeeds whatever the classifier answers,
    and every scanned file the classifier failed on is in the image list it
    returns. *)
Lemma scan_appends_unclassified_files (dir : string) (w : World) :
  scannable (files w) dir = true ->
  let fs := files w in
  (forall path d s e,
     os.entryIsDir d = false -> isImageFile fs path = Err e ->
     visit fs path (Some d) None s
     = ({| imageFiles := imageFiles s ++ [path];
           nonImageFiles := nonImageFiles s;
           printed := printed s ++ [unclassifiedWarning path] |}, None))
  /\ exists images nonImages w',
       analyzeDirectory dir w = (Ok (images, nonImages), w')
       /\ files w' = fs
       /\ forall path e,
            In path (scannedFiles fs dir) -> isImageFile fs path = Err e ->
            In path images /\ In (unclassifiedWarning path) (stdout w').
Proof.
  intros R fs. split.
  - intros path d s e Hd He. unfold visit. now rewrite Hd, He.
  - rewrite analyzeDirectory_scannable by exact R. fold fs.
    eexists _, _, _. split; [reflexivity|]. split; [reflexivity|].
    intros path e Hin He. split.
    + apply Strings_In, filter_In. split; [exact Hin|].
      unfold isNonImage. now rewrite He.
    + cbn [stdout]. apply in_or_app. right. apply in_map, filter_In.
      split; [exact Hin|]. unfold unclassified. now rewrite He.
Qed.

(** ** The worker pool *)

Section Pool.

Variable zipEncode : list zip.member -> bytes.
Variable word : wordSize.




Lemma list_sum_setWorker (f : goroutine -> nat) (ws : list goroutine) :
  forall i g g', nth_error ws i = Some g ->
    (list_sum (map f (setWorker i g' ws)) + f g = list_sum (map f ws) + f g')%nat.
Proof.
  induction ws as [|w ws IH]; intros [|i] g g' H; simpl in *; try discriminate.
  - inversion H; subst. lia.
  - specialize (IH i g g' H). lia.
Qed.

Lemma in_setWorker (x g : goroutine) (ws : list goroutine) :
  forall i, In x (setWorker i g ws) -> x = g \/ In x ws.
Proof.
  induction ws as [|w ws IH]; intros [|i] H; simpl in *; try tauto.
  - destruct H as [H|H]; auto.
  - destruct H as [H|H]; auto. destruct (IH i H); auto.
Qed.

Lemma length_setWorker (g : goroutine) (ws : list goroutine) :
  forall i, List.length (setWorker i g ws) = List.length ws.
Proof.
  induction ws as [|w ws IH]; intros [|i]; simpl; auto.
Qed.

Lemma nth_error_setWorker (g : goroutine) (ws : list goroutine) :
  forall i, (i < List.length ws)%nat -> nth_error (setWorker i g ws) i = Some g.
Proof.
  induction ws as [|w ws IH]; intros [|i] H; simpl in *; try lia; auto.
  apply IH. lia.
Qed.







(** A worker counts 2 while it holds an item, 1 while it waits. *)
Definition weight (g : goroutine) : nat :=
  match g with
  | Returned => 0
  | Receiving => 1
  | Holding _ => 2
  end.

(** What is left to do: every step makes it smaller. *)
Definition workLeft (p : Pool) : nat :=
  3 * List.length (toSend p) + 2 * List.length (workChan p)
  + list_sum (map weight (workers p)) + (if closed p then 0 else 1).

Lemma step_workLeft (p q : Pool) :
  step zipEncode word p q -> (workLeft q < workLeft p)%nat.
Proof.
  unfold workLeft.
  intros [p' item rest Hsend Hopen Hcap|p' Hsend Hopen
         |p' i item rest Hw Hchan|p' i item Hw|p' i Hw Hchan Hcl];
    cbn [toSend closed workChan capacity workers sharedStats sharedWorld].
  - rewrite Hsend, length_app. cbn [List.length]. lia.
  - rewrite Hsend, Hopen. lia.
  - rewrite Hchan. cbn [List.length].
    pose proof (list_sum_setWorker weight _ _ _ (Holding item) Hw) as Hh.
    cbn [weight] in Hh. lia.
  - pose proof (list_sum_setWorker weight _ _ _ Receiving Hw) as Hh.
    cbn [weight] in Hh. lia.
  - pose proof (list_sum_setWorker weight _ _ _ Returned Hw) as Hh.
    cbn [weight] in Hh. lia.
Qed.

Lemma step_capacity (p q : Pool) :
  step zipEncode word p q -> capacity q = capacity p.
Proof. intros []; reflexivity. Qed.

Lemma joined_dec (p : Pool) : {joined p} + {~ joined p}.
Proof.
  unfold joined. apply Forall_dec. intros [|item|]; auto; right; discriminate.
Qed.

Lemma not_joined_worker (ws : list goroutine) :
  ~ Forall (eq Returned) ws ->
  exists i g, nth_error ws i = Some g /\ g <> Returned.
Proof.
  induction ws as [|g ws IH]; intros H.
  - exfalso. apply H. constructor.
  - destruct g as [|item|].
    + exists 0%nat, Receiving. split; [reflexivity|discriminate].
    + exists 0%nat, (Holding item). split; [reflexivity|discriminate].
    + destruct IH as (i & g & Hi & Hg).
      * intros Hf. apply H. now constructor.
      * exists (S i), g. auto.
Qed.

(** No deadlock: while a worker has not returned, some goroutine can
    take a step. *)
Lemma pool_progress (p : Pool) :
  (1 <= capacity p)%nat -> ~ joined p -> exists q, step zipEncode word p q.
Proof.
  intros Hcap Hj. apply not_joined_worker in Hj as (i & g & Hi & Hg).
  destruct g as [|item|]; [|eexists; eapply stepProcess; eassumption|congruence].
  destruct (workChan p) as [|item rest] eqn:Hchan.
  - destruct (closed p) eqn:Hcl.
    + eexists. eapply stepReturn; eassumption.
    + destruct (toSend p) as [|item rest] eqn:Hsend.
      * eexists. eapply stepClose; eassumption.
      * eexists. eapply stepSend; try eassumption. rewrite Hchan. simpl. lia.
  - eexists. eapply stepReceive; eassumption.
Qed.

(** The workers all return: from every state of the pool a state is
    reached where [wg.Wait()] returns. *)
Lemma pool_joins (n : nat) :
  forall p, (workLeft p <= n)%nat -> (1 <= capacity p)%nat ->
            exists q, steps zipEncode word p q /\ joined q.
Proof.
  induction n as [|n IH]; intros p Hn Hcap.
  - destruct (joined_dec p) as [Hj|Hj]; [exists p; split; [constructor|exact Hj]|].
    destruct (pool_progress p Hcap Hj) as [q Hq].
    apply step_workLeft in Hq. lia.
  - destruct (joined_dec p) as [Hj|Hj]; [exists p; split; [constructor|exact Hj]|].
    destruct (pool_progress p Hcap Hj) as [q Hq].
    destruct (IH q) as (r & Hr & Hjr).
    + apply step_workLeft in Hq. lia.
    + now rewrite (step_capacity _ _ Hq).
    + exists r. split; [econstructor; eassumption|exact Hjr].
Qed.


End Pool.

(** The statistics [main] starts with. *)
Definition freshStats (total : nat) : ConversionStats :=
  {| Total := Z.of_nat total; Success := 0; Errors := 0; Skipped := 0;
     NonImageFiles := 0 |}.


(** ** The whole run *)

(** The names of the directories directly in [dir]. *)
Definition immediateSubfolders (fs : os.FS) (dir : string) : list string :=
  match os.resolve fs dir with
  | os.Got (os.Dir _ es) => map fst (filter (fun e => os.isDirNode (snd e)) es)
  | _ => []
  end.

Lemma getFolders_subfolders (fs : os.FS) (dir : string) (folders : list string) :
  getFolders fs dir = Ok folders ->
  folders = sort.Strings (immediateSubfolders fs dir).
Proof.
  unfold getFolders, os.ReadDir, immediateSubfolders.
  destruct (os.resolve fs dir) as [[f|[e|] es]|e]; try discriminate.
  intros H. inversion H. f_equal. clear H H1.
  induction es as [|[name n] es IH]; [reflexivity|].
  cbn [map filter os.entryOf os.entryIsDir snd]. destruct (os.isDirNode n); cbn [map fst];
    now rewrite IH.
Qed.


(** What [main] hands to [processConcurrently]. *)
Lemma mainPrepare_dispatch (word : wordSize) (flags : Flags) (numCPU : Z) (w : World)
    (workItems : list WorkItem) (th : Z) (stats : ConversionStats) (w1 : World) :
  mainPrepare word flags numCPU w = Dispatch workItems th stats w1 ->
  exists folders,
    getFolders (files w1) (inputDir flags) = Ok folders
    /\ workItems = createWorkItems (inputDir flags) (outputDir flags) folders
    /\ stats = freshStats (List.length folders)
    /\ th = fst (validateThreadCount word (threads flags) numCPU)
    /\ folders <> [].
Proof.
  unfold mainPrepare. intros H.
  destruct (showVersion flags); [discriminate|].
  destruct (showHelp flags || _ || _); [discriminate|].
  destruct (validateThreadCount word (threads flags) numCPU) as [th0 notice0].
  destruct (match os.Stat _ _ with Err err => _ | Ok _ => _ end); [discriminate|].
  destruct (os.MkdirAll _ _) as [fs|e]; [|discriminate].
  rewrite !files_println in H. cbn [files] in H.
  destruct (getFolders fs (inputDir flags)) as [folders|e] eqn:Hg; [|discriminate].
  rewrite length_eqb_0 in H. destruct folders as [|f folders]; [discriminate|].
  inversion H; subst. cbn [files fst]. exists (f :: folders).
  repeat split; auto. discriminate.
Qed.


Definition sampleFlags : Flags :=
  {| program := "convert_cbz"; inputDir := "in"; outputDir := "out";
     threads := 4; showHelp := false; showVersion := false |}.


(** ** The classifier *)

(** The buffer of 512 zero bytes after the first bytes of a file were read
    into it. *)
Definition zeroFilled (chunk : bytes) : bytes :=
  chunk ++ repeat x00 (512 - List.length chunk).

Lemma skipn_repeat {A : Type} (x : A) (n m : nat) :
  skipn n (repeat x m) = repeat x (m - n).
Proof.
  revert m. induction n as [|n IH]; intros [|m]; simpl; auto.
Qed.

(** What the classifier answers for a file that can be opened and read:
    the label is derived from the whole buffer, the bytes read followed by
    the zero bytes the buffer was made with. *)
Lemma isImageFile_readable (fs : os.FS) (path : string) (f : os.file) :
  os.resolve fs path = os.Got (os.File f) ->
  os.openErr f = None -> os.readErr f = None ->
  isImageFile fs path
  = Ok (strings.HasPrefix
          (http.DetectContentType (zeroFilled (firstn 512 (os.data f)))) "image/").
Proof.
  intros Hr Ho He. unfold isImageFile, os.Open, os.Read.
  rewrite Hr, Ho. cbn [os.fileNode os.fileName]. rewrite He.
  rewrite repeat_length. unfold zeroFilled.
  destruct (firstn 512 (os.data f)) as [|b chunk] eqn:E.
  - reflexivity.
  - cbv beta iota. now rewrite skipn_repeat.
Qed.

(** For a file of 512 bytes or more the buffer holds the first 512 bytes
    of the file and nothing else. *)
Lemma zeroFilled_full (data : bytes) :
  (512 <= List.length data)%nat -> zeroFilled (firstn 512 data) = firstn 512 data.
Proof.
  intros H. unfold zeroFilled. rewrite length_firstn, Nat.min_l by exact H.
  rewrite Nat.sub_diag. apply app_nil_r.
Qed.

(** The bytes an image of a common format begins with. *)
Inductive imageMagic : bytes -> Prop :=
| magicJPEG : imageMagic [xff; xd8; xff]
| magicPNG : imageMagic ([x89] ++ bytesOf "PNG" ++ [x0d; x0a; x1a; x0a])
| magicGIF87 : imageMagic (bytesOf "GIF87a")
| magicGIF89 : imageMagic (bytesOf "GIF89a")
| magicWebP a b c d : imageMagic (bytesOf "RIFF" ++ [a; b; c; d] ++ bytesOf "WEBPVP").

Lemma firstMatch_cons (sig : http.sniffSig) (sigs : list http.sniffSig)
    (data : bytes) (ws : nat) :
  http.firstMatch (sig :: sigs) data ws
  = if String.eqb (http.sigMatch sig data ws) ""
    then http.firstMatch sigs data ws
    else http.sigMatch sig data ws.
Proof. reflexivity. Qed.

Lemma maskedLoop_cons (m p d : byte) (mask pat data : bytes) :
  http.maskedLoop (m :: mask) (p :: pat) (d :: data)
  = ((http.byteAnd d m =? Byte.to_N p)%N && http.maskedLoop mask pat data)%bool.
Proof. reflexivity. Qed.

Lemma byteAnd_zero (d : byte) : http.byteAnd d x00 = 0%N.
Proof. unfold http.byteAnd. apply N.land_0_r. Qed.

(** The WebP signature matches whatever the four bytes of the RIFF size are. *)
Lemma webp_matches (a b c d : byte) (tail : bytes) :
  http.maskedLoop (http.ff 4 ++ http.zz 4 ++ http.ff 6)
    (bytesOf "RIFF" ++ http.zz 4 ++ bytesOf "WEBPVP")
    (bytesOf "RIFF" ++ [a; b; c; d] ++ bytesOf "WEBPVP" ++ tail) = true.
Proof.
  change (http.ff 4 ++ http.zz 4 ++ http.ff 6)
    with [xff; xff; xff; xff; x00; x00; x00; x00; xff; xff; xff; xff; xff; xff].
  change (bytesOf "RIFF" ++ http.zz 4 ++ bytesOf "WEBPVP")
    with [x52; x49; x46; x46; x00; x00; x00; x00; x57; x45; x42; x50; x56; x50].
  change (bytesOf "RIFF" ++ [a; b; c; d] ++ bytesOf "WEBPVP" ++ tail)
    with ([x52; x49; x46; x46; a; b; c; d; x57; x45; x42; x50; x56; x50] ++ tail).
  cbn [app]. rewrite !maskedLoop_cons, !byteAnd_zero. reflexivity.
Qed.

(** The first 512 bytes of the buffer begin with the first bytes of the
    file. *)
Lemma buffer_prefix (magic rest : bytes) :
  (List.length magic <= 512)%nat ->
  exists tail,
    firstn http.sniffLen (zeroFilled (firstn 512 (magic ++ rest))) = magic ++ tail.
Proof.
  intros H. unfold zeroFilled, http.sniffLen.
  assert (firstn 512 (magic ++ rest) = magic ++ firstn (512 - List.length magic) rest)
    as -> by (rewrite firstn_app, firstn_all2 by exact H; reflexivity).
  rewrite <- app_assoc, firstn_app, firstn_all2 by exact H.
  eauto.
Qed.

Lemma magic_label (magic tail : bytes) :
  imageMagic magic ->
  strings.HasPrefix
    (http.firstMatch http.sniffSignatures (magic ++ tail)
       (http.firstNonWS (magic ++ tail))) "image/" = true.
Proof.
  intros [| | | |a b c d]; [lazy; reflexivity..|].
  change (http.firstNonWS _) with 0%nat.
  unfold http.sniffSignatures.
  repeat (rewrite firstMatch_cons;
          match goal with
          | |- context [String.eqb (http.sigMatch ?s ?data ?ws) ""] =>
              replace (http.sigMatch s data ws) with ""%string by (lazy; reflexivity)
          end; cbn [String.eqb]).
  rewrite firstMatch_cons.
  match goal with
  | |- context [http.sigMatch ?s ?data ?ws] =>
      assert (http.sigMatch s data ws = "image/webp"%string) as ->
  end.
  { unfold http.sigMatch, http.maskedMatch.
    change ((bytesOf "RIFF" ++ [a; b; c; d] ++ bytesOf "WEBPVP") ++ tail)
      with (bytesOf "RIFF" ++ [a; b; c; d] ++ bytesOf "WEBPVP" ++ tail).
    rewrite webp_matches. reflexivity. }
  reflexivity.
Qed.

(** A file that begins with the magic bytes of a JPEG, PNG, GIF or WebP image
    is an image for the classifier, whatever its name. *)
Lemma magic_bytes_classified (fs : os.FS) (path : string) (f : os.file)
    (magic rest : bytes) :
  os.resolve fs path = os.Got (os.File f) ->
  os.openErr f = None -> os.readErr f = None ->
  imageMagic magic -> os.data f = magic ++ rest ->
  isImageFile fs path = Ok true.
Proof.
  intros Hr Ho He Hm Hd.
  rewrite (isImageFile_readable fs path f Hr Ho He), Hd.
  unfold http.DetectContentType.
  destruct (buffer_prefix magic rest) as [tail ->].
  - destruct Hm; cbn; lia.
  - now rewrite magic_label.
Qed.

(** C6 (the code departs from the claim): a file of the three bytes
    [00 00 01] is classified as an image.  The label derived from the bytes
    read is [application/octet-stream]; the classifier passes the whole
    zero-filled buffer to [DetectContentType], where the fourth byte, a zero
    the file does not have, completes the signature [00 00 01 00] of an
    icon.  Where the padding cannot matter the classifier does what the
    claim says: for a file of 512 bytes or more the label is the one
    derived from the first 512 bytes; a file that begins with JPEG, PNG,
    GIF or WebP magic bytes is an image under any name; and the text file
    [cover.jpg] of the sample is not. *)
Theorem short_file_classified_with_padding :
  (os.resolve Sample.root "in/d/tiny" = os.Got (Sample.plain [x00; x00; x01])
   /\ isImageFile Sample.root "in/d/tiny" = Ok true
   /\ http.DetectContentType [x00; x00; x01] = "application/octet-stream"%string
   /\ strings.HasPrefix (http.DetectContentType [x00; x00; x01]) "image/" = false
   /\ http.DetectContentType (zeroFilled [x00; x00; x01]) = "image/x-icon"%string)
  /\ (forall fs path f,
        os.resolve fs path = os.Got (os.File f) ->
        os.openErr f = None -> os.readErr f = None ->
        isImageFile fs path
        = Ok (strings.HasPrefix
                (http.DetectContentType (zeroFilled (firstn 512 (os.data f))))
                "image/")
        /\ ((512 <= List.length (os.data f))%nat ->
            isImageFile fs path
            = Ok (strings.HasPrefix
                    (http.DetectContentType (firstn 512 (os.data f))) "image/"))
        /\ (forall magic rest,
              imageMagic magic -> os.data f = magic ++ rest ->
              isImageFile fs path = Ok true))
  /\ (os.resolve Sample.root "in/a/cover.jpg" = os.Got (Sample.plain Sample.text)
      /\ isImageFile Sample.root "in/a/cover.jpg" = Ok false).
Proof.
  split; [|split].
  - split; [reflexivity|]. split; [vm_compute; reflexivity|].
    split; [vm_compute; reflexivity|]. split; vm_compute; reflexivity.
  - intros fs path f Hr Ho He.
    split; [exact (isImageFile_readable fs path f Hr Ho He)|]. split.
    + intros Hlen. rewrite (isImageFile_readable fs path f Hr Ho He).
      now rewrite zeroFilled_full.
    + intros magic rest Hm Hd. eapply magic_bytes_classified; eassumption.
  - split; [reflexivity|vm_compute; reflexivity].
Qed.

(** ** Paths *)

(** No separator in the string. *)
Fixpoint noSep (s : string) : bool :=
  match s with
  | EmptyString => true
  | String c rest => negb (filepath.isSep c) && noSep rest
  end.

(** A name an entry of a directory can have. *)
Definition validName (name : string) : bool :=
  negb (String.eqb name "") && negb (String.eqb name ".")
  && negb (String.eqb name "..") && noSep name.

(** The path with the given elements, from the root or not. *)
Definition render (rooted : bool) (es : list string) : string :=
  let body := filepath.joinElems es in
  if rooted then filepath.sepString +++ body
  else if String.eqb body "" then "."%string
  else body.

(** An element that names a step. *)
Definition namesStep (e : string) : bool :=
  negb (String.eqb e "" || String.eqb e ".").

Lemma pathElems_filter (path : string) :
  os.pathElems path = filter namesStep (filepath.split path).
Proof. reflexivity. Qed.

Lemma split_not_nil (s : string) : exists e es, filepath.split s = e :: es.
Proof.
  induction s as [|c s (e & es & IH)]; simpl; [eauto|].
  destruct (filepath.isSep c); [eauto|]. rewrite IH. eauto.
Qed.

Lemma split_app (a b : string) :
  filepath.split (a +++ String filepath.Separator b)
  = filepath.split a ++ filepath.split b.
Proof.
  induction a as [|c a IH]; simpl.
  - reflexivity.
  - destruct (filepath.isSep c) eqn:Ec; rewrite IH; [reflexivity|].
    destruct (split_not_nil a) as (e & es & ->). reflexivity.
Qed.

Lemma split_noSep (s : string) : noSep s = true -> filepath.split s = [s].
Proof.
  induction s as [|c s IH]; simpl; [reflexivity|].
  intros H. apply andb_prop in H as [Hc Hs].
  apply negb_true_iff in Hc. rewrite Hc, (IH Hs). reflexivity.
Qed.

Lemma split_elements_noSep (s : string) :
  Forall (fun e => noSep e = true) (filepath.split s).
Proof.
  induction s as [|c s IH]; simpl; [repeat constructor|].
  destruct (filepath.isSep c) eqn:Ec.
  - constructor; [reflexivity|exact IH].
  - destruct (filepath.split s) as [|e es]; [repeat constructor; simpl; now rewrite Ec|].
    inversion IH; subst. constructor; [simpl; now rewrite Ec|assumption].
Qed.

Lemma validName_facts (name : string) :
  validName name = true ->
  name <> ""%string /\ namesStep name = true /\ name <> ".."%string
  /\ noSep name = true.
Proof.
  unfold validName, namesStep. intros H.
  apply andb_prop in H as [H Hs]. apply andb_prop in H as [H Hdd].
  apply andb_prop in H as [He Hd].
  apply negb_true_iff in He, Hd, Hdd. rewrite He, Hd.
  repeat split; auto; now apply String.eqb_neq.
Qed.

(** Without [..] elements [Clean] keeps the elements that name a step. *)
Lemma cleanElems_plain (rooted : bool) (es : list string) :
  forall stack,
    Forall (fun e => e <> ".."%string) (filter namesStep es) ->
    filepath.cleanElems rooted stack es = rev (filter namesStep es) ++ stack.
Proof.
  induction es as [|e es IH]; intros stack H; [reflexivity|].
  cbn [filepath.cleanElems filter]. unfold namesStep at 1 in H. unfold namesStep at 1.
  cbn [filter] in H.
  destruct (String.eqb e "" || String.eqb e ".") eqn:E; cbn [negb] in *.
  - now apply IH.
  - inversion H as [|? ? Hne Hrest]; subst.
    apply String.eqb_neq in Hne. rewrite Hne.
    rewrite IH by exact Hrest. cbn [rev]. now rewrite <- app_assoc.
Qed.

Lemma Clean_plain (path : string) :
  path <> ""%string ->
  Forall (fun e => e <> ".."%string) (os.pathElems path) ->
  filepath.Clean path = render (filepath.isRooted path) (os.pathElems path).
Proof.
  intros Hne H. unfold filepath.Clean, render.
  apply String.eqb_neq in Hne. rewrite Hne.
  rewrite pathElems_filter in *.
  now rewrite cleanElems_plain, app_nil_r, rev_involutive by exact H.
Qed.

Lemma joinElems_cons (e e' : string) (es : list string) :
  filepath.joinElems (e :: e' :: es)
  = (e +++ String filepath.Separator (filepath.joinElems (e' :: es)))%string.
Proof. reflexivity. Qed.

Lemma string_app_nil (s : string) : (s +++ "")%string = s.
Proof. induction s as [|c s IH]; simpl; [reflexivity|now rewrite IH]. Qed.

Lemma string_app_assoc (a b c : string) :
  ((a +++ b) +++ c)%string = (a +++ (b +++ c))%string.
Proof. induction a as [|x a IH]; simpl; [reflexivity|now rewrite IH]. Qed.

Lemma joinElems_app (es es' : list string) :
  es <> [] -> es' <> [] ->
  filepath.joinElems (es ++ es')
  = (filepath.joinElems es +++ String filepath.Separator (filepath.joinElems es'))%string.
Proof.
  intros Hne Hne'. induction es as [|e es IH]; [congruence|].
  destruct es as [|e1 es].
  - destruct es' as [|e' es']; [congruence|]. reflexivity.
  - change ((e :: e1 :: es) ++ es') with (e :: e1 :: (es ++ es')).
    rewrite !joinElems_cons.
    change (e1 :: es ++ es') with ((e1 :: es) ++ es').
    rewrite IH by discriminate. now rewrite string_app_assoc.
Qed.

(** The names of a path: each a valid name. *)
Definition validNames (es : list string) : Prop :=
  Forall (fun e => validName e = true) es.

Lemma split_joinElems (es : list string) :
  es <> [] -> validNames es -> filepath.split (filepath.joinElems es) = es.
Proof.
  intros Hne V. induction es as [|e es IH]; [congruence|].
  inversion V as [|? ? Ve Ves]; subst.
  apply validName_facts in Ve as (_ & _ & _ & Hs).
  destruct es as [|e1 es].
  - now apply split_noSep.
  - rewrite joinElems_cons, split_app, split_noSep by exact Hs.
    rewrite IH by (discriminate || assumption). reflexivity.
Qed.

Lemma filter_namesStep_valid (es : list string) :
  validNames es -> filter namesStep es = es.
Proof.
  induction 1 as [|e es Ve _ IH]; [reflexivity|].
  apply validName_facts in Ve as (_ & Hk & _). simpl. now rewrite Hk, IH.
Qed.

Lemma joinElems_not_empty (es : list string) :
  es <> [] -> validNames es -> filepath.joinElems es <> ""%string.
Proof.
  intros Hne V. destruct es as [|e es]; [congruence|].
  inversion V as [|? ? Ve _]; subst.
  apply validName_facts in Ve as (He & _).
  destruct es; [exact He|]. rewrite joinElems_cons.
  destruct e; [congruence|discriminate].
Qed.

(** A rendered path resolves through its elements. *)
Lemma pathElems_render (rooted : bool) (es : list string) :
  validNames es -> os.pathElems (render rooted es) = es.
Proof.
  intros V. rewrite pathElems_filter. unfold render.
  destruct es as [|e es].
  - destruct rooted; reflexivity.
  - assert (e :: es <> []) as Hne by discriminate.
    pose proof (joinElems_not_empty _ Hne V) as Hj.
    destruct rooted.
    + change (filepath.sepString +++ filepath.joinElems (e :: es))%string
        with (String filepath.Separator (filepath.joinElems (e :: es))).
      cbn [filepath.split]. change (filepath.isSep filepath.Separator) with true.
      cbv iota. rewrite split_joinElems by assumption.
      transitivity (filter namesStep (e :: es));
        [reflexivity|now apply filter_namesStep_valid].
    + apply String.eqb_neq in Hj. rewrite Hj.
      rewrite split_joinElems by assumption. now apply filter_namesStep_valid.
Qed.

Lemma render_not_empty (rooted : bool) (es : list string) :
  render rooted es <> ""%string.
Proof.
  unfold render. destruct rooted; [discriminate|].
  destruct (String.eqb (filepath.joinElems es) "") eqn:E; [discriminate|].
  now apply String.eqb_neq.
Qed.

Lemma isRooted_render (rooted : bool) (es : list string) :
  validNames es -> filepath.isRooted (render rooted es) = rooted.
Proof.
  intros V. unfold render. destruct rooted; [reflexivity|].
  destruct (String.eqb (filepath.joinElems es) "") eqn:E; [reflexivity|].
  destruct es as [|e es]; [discriminate|].
  inversion V as [|? ? Ve _]; subst.
  unfold validName in Ve. apply andb_prop in Ve as [H Hs].
  apply andb_prop in H as [H _]. apply andb_prop in H as [He _].
  destruct e as [|c e]; [discriminate|].
  simpl in Hs. apply andb_prop in Hs as [Hc _]. apply negb_true_iff in Hc.
  destruct es; exact Hc.
Qed.

Lemma validNames_not_dotdot (es : list string) :
  validNames es -> Forall (fun e => e <> ".."%string) es.
Proof.
  apply Forall_impl. intros e V. now apply validName_facts in V.
Qed.

(** A rendered path is clean. *)
Lemma Clean_render (rooted : bool) (es : list string) :
  validNames es -> filepath.Clean (render rooted es) = render rooted es.
Proof.
  intros V. rewrite Clean_plain.
  - now rewrite isRooted_render, pathElems_render.
  - apply render_not_empty.
  - rewrite pathElems_render by exact V. now apply validNames_not_dotdot.
Qed.

(** Joining a valid name to a path adds one element. *)
Lemma Join_plain (dir name : string) :
  dir <> ""%string -> validNames (os.pathElems dir) -> validName name = true ->
  filepath.Join dir name
  = render (filepath.isRooted dir) (os.pathElems dir ++ [name]).
Proof.
  intros Hne V Vn. unfold filepath.Join.
  apply String.eqb_neq in Hne. rewrite Hne. cbn [negb].
  assert (os.pathElems (dir +++ filepath.sepString +++ name)
          = os.pathElems dir ++ [name]) as HE.
  { rewrite !pathElems_filter.
    change (filepath.sepString +++ name)%string with (String filepath.Separator name).
    rewrite split_app, filter_app.
    pose proof (validName_facts _ Vn) as (_ & Hk & _ & Hs).
    rewrite (split_noSep name Hs). cbn [filter]. now rewrite Hk. }
  rewrite Clean_plain.
  - rewrite HE. f_equal. destruct dir; [discriminate|reflexivity].
  - destruct dir; discriminate.
  - rewrite HE. apply validNames_not_dotdot, Forall_app. split; [exact V|].
    now constructor.
Qed.

(** ** Well-formed trees *)

Fixpoint distinct (names : list string) : bool :=
  match names with
  | [] => true
  | name :: rest => negb (existsb (String.eqb name) rest) && distinct rest
  end.

(** The entries of every directory have valid names, each once. *)
Fixpoint wellFormed (n : os.node) : bool :=
  match n with
  | os.File _ => true
  | os.Dir _ es =>
      distinct (map fst es)
      && (fix all (es : list (string * os.node)) : bool :=
            match es with
            | [] => true
            | (name, c) :: es' => validName name && wellFormed c && all es'
            end) es
  end.

Fixpoint wellFormedAll (es : list (string * os.node)) : bool :=
  match es with
  | [] => true
  | (name, c) :: es' => validName name && wellFormed c && wellFormedAll es'
  end.

Lemma wellFormed_Dir (le : option errno) (es : list (string * os.node)) :
  wellFormed (os.Dir le es) = distinct (map fst es) && wellFormedAll es.
Proof.
  simpl. apply f_equal.
  induction es as [|[name c] es IH]; simpl; [reflexivity|now rewrite IH].
Qed.

(** The regular files below [n] by the names that lead to them from [n],
    in the order of the walk. *)
Fixpoint namesUnder (n : os.node) : list (list string) :=
  match n with
  | os.File _ => [[]]
  | os.Dir _ es =>
      (fix below (es : list (string * os.node)) : list (list string) :=
         match es with
         | [] => []
         | (name, c) :: es' => map (cons name) (namesUnder c) ++ below es'
         end) es
  end.

Fixpoint namesBelow (es : list (string * os.node)) : list (list string) :=
  match es with
  | [] => []
  | (name, c) :: es' => map (cons name) (namesUnder c) ++ namesBelow es'
  end.

Lemma namesUnder_Dir (le : option errno) (es : list (string * os.node)) :
  namesUnder (os.Dir le es) = namesBelow es.
Proof. simpl. induction es as [|[name c] es IH]; simpl; [reflexivity|now rewrite IH]. Qed.

(** The paths the walk gives the files below the entries of [dir], once
    the walk gives those below each entry at a rendered path. *)
Lemma filesBelow_names (dir : string) (es : list (string * os.node)) :
  dir <> ""%string -> validNames (os.pathElems dir) ->
  wellFormedAll es = true ->
  Forall (fun e =>
            wellFormed (snd e) = true ->
            forall rooted elems, validNames elems ->
              filesUnder (render rooted elems) (snd e)
              = map (fun names => render rooted (elems ++ names)) (namesUnder (snd e)))
         es ->
  filesBelow dir es
  = map (fun names => render (filepath.isRooted dir) (os.pathElems dir ++ names))
        (namesBelow es).
Proof.
  intros Hne V W IH. induction es as [|[name c] es IHes]; [reflexivity|].
  simpl in W. apply andb_prop in W as [W Wes]. apply andb_prop in W as [Vn Wc].
  inversion IH as [|? ? IHc IHrest]; subst. simpl in IHc.
  simpl. rewrite map_app, map_map, (IHes Wes IHrest). f_equal.
  rewrite Join_plain by assumption.
  rewrite IHc; [|exact Wc|].
  - apply map_ext. intros names. now rewrite <- app_assoc.
  - apply Forall_app. split; [exact V|now constructor].
Qed.

Lemma filesUnder_render (n : os.node) :
  wellFormed n = true ->
  forall rooted elems, validNames elems ->
    filesUnder (render rooted elems) n
    = map (fun names => render rooted (elems ++ names)) (namesUnder n).
Proof.
  induction n as [f|le es IH] using node_induction; intros W rooted elems V.
  - simpl. now rewrite app_nil_r.
  - rewrite filesUnder_Dir, namesUnder_Dir. rewrite wellFormed_Dir in W.
    apply andb_prop in W as [_ W].
    rewrite filesBelow_names.
    + now rewrite isRooted_render, pathElems_render.
    + apply render_not_empty.
    + now rewrite pathElems_render.
    + exact W.
    + exact IH.
Qed.

(** The paths of the files the walk of a directory comes by. *)
Lemma filesUnder_names (dir : string) (le : option errno)
    (es : list (string * os.node)) :
  dir <> ""%string -> validNames (os.pathElems dir) ->
  wellFormed (os.Dir le es) = true ->
  filesUnder dir (os.Dir le es)
  = map (fun names => render (filepath.isRooted dir) (os.pathElems dir ++ names))
        (namesUnder (os.Dir le es)).
Proof.
  intros Hne V W. rewrite filesUnder_Dir, namesUnder_Dir.
  rewrite wellFormed_Dir in W. apply andb_prop in W as [_ W].
  apply filesBelow_names; try assumption.
  apply Forall_forall. intros e _ We. now apply filesUnder_render.
Qed.

Lemma find_wellFormed (name : string) (es : list (string * os.node)) (c : os.node) :
  wellFormedAll es = true -> os.find name es = Some c ->
  validName name = true /\ wellFormed c = true.
Proof.
  induction es as [|[k v] es IH]; intros W H; [discriminate|].
  simpl in W, H. apply andb_prop in W as [W Wes]. apply andb_prop in W as [Vk Wv].
  destruct (String.eqb k name) eqn:E.
  - apply String.eqb_eq in E. subst k. inversion H; subst v. auto.
  - now apply IH.
Qed.

(** The names a path resolves through in a well-formed tree are valid. *)
Lemma lookup_wellFormed (elems : list string) :
  forall n m, wellFormed n = true -> os.lookup elems n = os.Got m ->
              validNames elems /\ wellFormed m = true.
Proof.
  induction elems as [|e elems IH]; intros n m W H.
  - inversion H; subst m. split; [constructor|exact W].
  - simpl in H. destruct n as [f|le es]; [discriminate|].
    destruct (os.find e es) as [c|] eqn:Ef; [|discriminate].
    rewrite wellFormed_Dir in W. apply andb_prop in W as [_ W].
    destruct (find_wellFormed _ _ _ W Ef) as [Ve Wc].
    destruct (IH c m Wc H) as [Vs Wm]. split; [now constructor|exact Wm].
Qed.

Lemma lookup_app (a b : list string) :
  forall n, os.lookup (a ++ b) n
            = match os.lookup a n with
              | os.Got m => os.lookup b m
              | os.Errno e => os.Errno e
              end.
Proof.
  induction a as [|e a IH]; intros n; [reflexivity|].
  simpl. destruct n as [f|le es]; [reflexivity|].
  destruct (os.find e es); [apply IH|reflexivity].
Qed.

Lemma find_distinct (name : string) (c : os.node) (es : list (string * os.node)) :
  distinct (map fst es) = true -> In (name, c) es -> os.find name es = Some c.
Proof.
  induction es as [|[k v] es IH]; intros D Hin; [contradiction|].
  simpl in D. apply andb_prop in D as [Dk Des]. apply negb_true_iff in Dk.
  simpl. destruct Hin as [Heq|Hin].
  - inversion Heq; subst. now rewrite String.eqb_refl.
  - destruct (String.eqb k name) eqn:E; [|now apply IH].
    apply String.eqb_eq in E. subst k. exfalso.
    assert (existsb (String.eqb name) (map fst es) = true) as Hx; [|congruence].
    apply existsb_exists. exists name. split; [|apply String.eqb_refl].
    change name with (fst (name, c)). now apply in_map.
Qed.

(** The names of a file below a well-formed node lead to it. *)
Lemma lookup_namesUnder (n : os.node) :
  wellFormed n = true ->
  forall names, In names (namesUnder n) ->
    validNames names /\ exists f, os.lookup names n = os.Got (os.File f).
Proof.
  induction n as [f|le es IH] using node_induction; intros W names Hin.
  - destruct Hin as [<-|[]]. split; [apply Forall_nil|exists f; reflexivity].
  - rewrite namesUnder_Dir in Hin. rewrite wellFormed_Dir in W.
    apply andb_prop in W as [D W].
    assert (exists name c rest, In (name, c) es /\ names = name :: rest
                                /\ In rest (namesUnder c)
                                /\ validName name = true /\ wellFormed c = true)
      as (name & c & rest & Hc & -> & Hrest & Vn & Wc).
    { clear D IH. induction es as [|[k v] es IHes]; [contradiction|].
      simpl in W, Hin. apply andb_prop in W as [W Wes].
      apply andb_prop in W as [Vk Wv]. apply in_app_or in Hin as [Hin|Hin].
      - apply in_map_iff in Hin as (rest & <- & Hrest).
        exists k, v, rest. repeat split; auto. now left.
      - destruct (IHes Wes Hin) as (name & c & rest & Hc & He & Hr).
        exists name, c, rest. split; [now right|]. now split. }
    rewrite Forall_forall in IH. destruct (IH _ Hc Wc rest Hrest) as (Vr & f & Hf).
    split; [now constructor|]. exists f.
    cbn [os.lookup]. now rewrite (find_distinct _ _ _ D Hc).
Qed.

Lemma namesUnder_Dir_not_nil (le : option errno) (es : list (string * os.node))
    (names : list string) :
  In names (namesUnder (os.Dir le es)) -> names <> [].
Proof.
  rewrite namesUnder_Dir. induction es as [|[k v] es IH]; [contradiction|].
  simpl. intros H. apply in_app_or in H as [H|H]; [|now apply IH].
  apply in_map_iff in H as (rest & <- & _). discriminate.
Qed.

(** ** Relative paths *)

Lemma render_is_not (rooted : bool) (es : list string) (path : string) :
  es <> [] -> validNames es -> os.pathElems path = [] ->
  String.eqb (render rooted es) path = false.
Proof.
  intros Hne V Hp. apply String.eqb_neq. intros E.
  apply (f_equal os.pathElems) in E. rewrite pathElems_render in E by exact V.
  congruence.
Qed.

Lemma split_render (rooted : bool) (es : list string) :
  es <> [] -> validNames es ->
  filepath.split (render rooted es) = if rooted then ""%string :: es else es.
Proof.
  intros Hne V. unfold render. destruct rooted.
  - change (filepath.sepString +++ filepath.joinElems es)%string
      with (String filepath.Separator (filepath.joinElems es)).
    cbn [filepath.split]. change (filepath.isSep filepath.Separator) with true.
    cbv iota. now rewrite split_joinElems.
  - pose proof (joinElems_not_empty _ Hne V) as Hj.
    apply String.eqb_neq in Hj. rewrite Hj. now apply split_joinElems.
Qed.

Lemma segments_render (rooted : bool) (es : list string) :
  es <> [] -> validNames es ->
  filepath.segments (render rooted es) = if rooted then ""%string :: es else es.
Proof.
  intros Hne V. unfold filepath.segments.
  rewrite !render_is_not by (assumption || reflexivity).
  now apply split_render.
Qed.

(** The base of [Rel], with [.] replaced by the empty path. *)
Lemma segments_base (rooted : bool) (es : list string) :
  validNames es ->
  let base := render rooted es in
  let base := if String.eqb base "." then ""%string else base in
  filepath.segments base = (if rooted then ""%string :: es else es)
  /\ filepath.isRooted base = rooted.
Proof.
  intros V. destruct es as [|e es].
  - destruct rooted; split; reflexivity.
  - cbv zeta. rewrite render_is_not by (assumption || reflexivity || discriminate).
    split; [now apply segments_render|now apply isRooted_render].
Qed.

Lemma relLoop_prefix (base targ : list string) :
  filepath.relLoop base (base ++ targ) = (false, [], targ).
Proof.
  induction base as [|b base IH]; simpl.
  - destruct targ; reflexivity.
  - now rewrite String.eqb_refl.
Qed.

(** [Rel] of a file the walk of [dir] came by: the names from [dir] to
    the file, joined. *)
Lemma Rel_below (dir : string) (names : list string) :
  dir <> ""%string -> validNames (os.pathElems dir) ->
  names <> [] -> validNames names ->
  filepath.Rel dir (render (filepath.isRooted dir) (os.pathElems dir ++ names))
  = Ok (filepath.joinElems names).
Proof.
  intros Hne V Hn Vn. unfold filepath.Rel. cbv zeta.
  assert (validNames (os.pathElems dir ++ names)) as Vall
    by (apply Forall_app; now split).
  rewrite (Clean_plain dir) by (auto using validNames_not_dotdot).
  rewrite Clean_render by exact Vall.
  set (rooted := filepath.isRooted dir). set (elems := os.pathElems dir) in *.
  destruct (String.eqb (render rooted (elems ++ names)) (render rooted elems)) eqn:E.
  - apply String.eqb_eq in E. apply (f_equal os.pathElems) in E.
    rewrite !pathElems_render in E by assumption.
    rewrite <- (app_nil_r elems) in E at 2. apply app_inv_head in E. congruence.
  - destruct (segments_base rooted elems V) as [Hs Hr]. cbv zeta in Hs, Hr.
    assert (elems ++ names <> []) as Hall
      by (intros Hx; apply app_eq_nil in Hx; tauto).
    rewrite (render_is_not rooted (elems ++ names) ".") by (assumption || reflexivity).
    rewrite Hs, Hr, isRooted_render, Bool.eqb_reflx by exact Vall.
    cbn [negb].
    rewrite segments_render by assumption.
    destruct rooted.
    + change (""%string :: elems ++ names) with ((""%string :: elems) ++ names).
      now rewrite relLoop_prefix.
    + now rewrite relLoop_prefix.
Qed.

(** What comes before the relative name in the path of a file below the
    directory with the given elements. *)
Definition dirPrefix (rooted : bool) (es : list string) : string :=
  match es with
  | [] => if rooted then filepath.sepString else ""%string
  | _ :: _ => (render rooted es +++ filepath.sepString)%string
  end.

Lemma render_below (rooted : bool) (es names : list string) :
  validNames es -> names <> [] -> validNames names ->
  render rooted (es ++ names)
  = (dirPrefix rooted es +++ filepath.joinElems names)%string.
Proof.
  intros V Hn Vn.
  pose proof (joinElems_not_empty _ Hn Vn) as Hj. apply String.eqb_neq in Hj.
  destruct es as [|e es].
  - unfold render, dirPrefix. cbn [app]. rewrite Hj. now destruct rooted.
  - assert (e :: es <> []) as Hne by discriminate.
    assert (validNames ((e :: es) ++ names)) as Vall by (apply Forall_app; now split).
    assert ((e :: es) ++ names <> []) as Hall by discriminate.
    pose proof (joinElems_not_empty _ Hne V) as He. apply String.eqb_neq in He.
    pose proof (joinElems_not_empty _ Hall Vall) as Ha. apply String.eqb_neq in Ha.
    unfold dirPrefix, render. rewrite joinElems_app in * by assumption.
    destruct rooted.
    + now rewrite !string_app_assoc.
    + rewrite Ha, He. now rewrite string_app_assoc.
Qed.

Lemma ascii_compare_refl (c : ascii) : Ascii.compare c c = Eq.
Proof. unfold Ascii.compare. apply N.compare_refl. Qed.

(** The order of two strings after a common prefix is their order. *)
Lemma stringLe_prefix (a x y : string) :
  stringLe (a +++ x) (a +++ y) <-> stringLe x y.
Proof.
  unfold stringLe, String.leb.
  induction a as [|c a IH]; [reflexivity|].
  simpl. now rewrite ascii_compare_refl.
Qed.

Lemma sortedStrings_prefix (a : string) (l : list string) :
  sortedStrings (map (String.append a) l) -> sortedStrings l.
Proof.
  unfold sortedStrings. induction l as [|x l IH]; intros H; [constructor|].
  simpl in H. inversion H as [|? ? Hs Hall]; subst.
  constructor; [now apply IH|].
  rewrite Forall_map in Hall. revert Hall. apply Forall_impl.
  intros y. apply stringLe_prefix.
Qed.

(** ** The archive *)

(** The member [addFileToZip] writes for a file: the given name, deflate,
    size and time of the file, and its bytes. *)
Definition entryFor (name : string) (f : os.file) : zip.member :=
  {| zip.header :=
       {| zip.Name := name; zip.Method := zip.Deflate;
          zip.UncompressedSize64 := Z.of_nat (List.length (os.data f));
          zip.Modified := os.modTime f |};
     zip.body := os.data f |}.

(** The member [m] holds the file at [path] of [fs] under its path relative
    to [sourceDir], with slashes. *)
Definition stored (fs : os.FS) (sourceDir path : string) (m : zip.member) : Prop :=
  exists rel f,
    filepath.Rel sourceDir path = Ok rel
    /\ os.resolve fs path = os.Got (os.File f)
    /\ os.openErr f = None /\ os.readErr f = None
    /\ m = entryFor (filepath.ToSlash rel) f.

(** The classifier says "image". *)
Definition isImage (fs : os.FS) (path : string) : bool :=
  match isImageFile fs path with
  | Ok true => true
  | _ => false
  end.

Lemma addFileToZip_Ok (fs : os.FS) (zipWriter zipWriter' : zip.Writer)
    (filePath baseDir : string) :
  addFileToZip fs zipWriter filePath baseDir = (zipWriter', None) ->
  exists m, stored fs baseDir filePath m
            /\ zip.dir zipWriter' = zip.dir zipWriter ++ [m].
Proof.
  unfold addFileToZip, stored. intros H.
  destruct (filepath.Rel baseDir filePath) as [rel|e]; [|discriminate].
  unfold os.Open in H.
  destruct (os.resolve fs filePath) as [[f|le es]|e]; [| |discriminate].
  - destruct (os.openErr f) eqn:Ho; [discriminate|].
    unfold os.FStat, zip.FileInfoHeader, zip.CreateHeader, os.ReadAll in H.
    cbn [os.fileNode os.fileName os.infoOf os.Name os.Size os.ModTime
         zip.Name zip.UncompressedSize64 zip.Modified zip.dir] in H.
    destruct (65535 <? _)%Z; [discriminate|].
    destruct (os.readErr f) eqn:Hr; [discriminate|].
    inversion H; subst zipWriter'. clear H.
    exists (entryFor (filepath.ToSlash rel) f). split.
    + exists rel, f. auto.
    + unfold zip.Write. cbn [zip.dir]. rewrite rev_unit.
      now rewrite rev_involutive.
  - destruct le; [discriminate|].
    unfold os.FStat, zip.FileInfoHeader, zip.CreateHeader, os.ReadAll in H.
    cbn [os.fileNode os.fileName os.infoOf os.Name os.Size os.ModTime
         zip.Name zip.UncompressedSize64 zip.Modified zip.dir] in H.
    destruct (65535 <? _)%Z; discriminate.
Qed.

Lemma addImageFiles_Ok (fs : os.FS) (sourceDir : string) (imageFiles : list string) :
  forall zipWriter zipWriter',
    addImageFiles fs zipWriter imageFiles sourceDir = (zipWriter', None) ->
    exists members,
      zip.dir zipWriter' = zip.dir zipWriter ++ members
      /\ Forall2 (stored fs sourceDir) imageFiles members.
Proof.
  induction imageFiles as [|p ps IH]; intros zw zw' H; simpl in H.
  - inversion H; subst zw'. exists []. split; [now rewrite app_nil_r|constructor].
  - destruct (addFileToZip fs zw p sourceDir) as [zw1 [e|]] eqn:E; [discriminate|].
    apply addFileToZip_Ok in E as (m & Hm & Hd).
    apply IH in H as (ms & Hms & Hall).
    exists (m :: ms). split; [|now constructor].
    now rewrite Hms, Hd, <- app_assoc.
Qed.

(** The archive file after [os.Create] and the writes. *)
Lemma Create_then_resolve (fs fs' : os.FS) (path : string) (content : bytes) :
  os.Create fs path = Ok fs' ->
  os.resolve (os.WriteFile fs' path content) path
  = os.Got (os.File {| os.openErr := None; os.readErr := None;
                       os.data := content; os.modTime := 0 |}).
Proof.
  unfold os.Create, os.WriteFile, os.resolve. intros H.
  destruct (String.eqb path ""); [discriminate|].
  destruct (os.putFile (os.pathElems path) os.emptyFile fs) as [n|] eqn:E;
    [|discriminate].
  inversion H; subst n. pose proof (putFile_lookup _ _ _ _ E) as L.
  assert (os.pathElems path <> []) as Hne
    by (intros Hn; rewrite Hn in E; discriminate).
  destruct (putFile_again _
              {| os.openErr := None; os.readErr := None; os.data := content;
                 os.modTime := 0 |} _ _ L eq_refl Hne) as [n' Hn'].
  rewrite Hn'. exact (putFile_lookup _ _ _ _ Hn').
Qed.

(** [os.Create] leaves the files at other paths as they were. *)
Lemma Create_frame (fs fs' : os.FS) (path other : string) (g : os.file) :
  os.Create fs path = Ok fs' ->
  os.pathElems other <> os.pathElems path ->
  os.resolve fs' other = os.Got (os.File g) ->
  os.resolve fs other = os.Got (os.File g).
Proof.
  unfold os.Create, os.resolve. intros H Hne L.
  destruct (String.eqb path ""); [discriminate|].
  destruct (os.putFile (os.pathElems path) os.emptyFile fs) as [n|] eqn:E;
    [|discriminate].
  inversion H; subst n.
  destruct (String.eqb other ""); [discriminate|].
  eapply putFile_frame; eauto.
Qed.

(** In a well-formed tree every scanned path leads to a regular file. *)
Lemma scannedFiles_resolve (fs : os.FS) (dir path : string) :
  wellFormed fs = true -> In path (scannedFiles fs dir) ->
  exists f, os.resolve fs path = os.Got (os.File f).
Proof.
  unfold scannedFiles. intros W Hin.
  destruct (os.resolve fs dir) as [n|e] eqn:R; [|contradiction].
  unfold os.resolve in R. destruct (String.eqb dir "") eqn:Ed; [discriminate|].
  apply String.eqb_neq in Ed.
  destruct (lookup_wellFormed _ _ _ W R) as [V Wn].
  destruct n as [f|le es].
  - destruct Hin as [<-|[]]. exists f. unfold os.resolve.
    apply String.eqb_neq in Ed. now rewrite Ed.
  - rewrite filesUnder_names in Hin by assumption.
    apply in_map_iff in Hin as (names & <- & Hin).
    destruct (lookup_namesUnder _ Wn names Hin) as (Vn & f & Hf).
    exists f. unfold os.resolve.
    pose proof (render_not_empty (filepath.isRooted dir) (os.pathElems dir ++ names)) as Hr.
    apply String.eqb_neq in Hr. rewrite Hr.
    rewrite pathElems_render by (apply Forall_app; now split).
    now rewrite lookup_app, R.
Qed.

(** The scanned paths of a directory of a well-formed tree: the names from
    the directory to a file, after the prefix of the directory; [Rel]
    gives the names back. *)
Lemma scannedFiles_relative (fs : os.FS) (dir path : string)
    (le : option errno) (es : list (string * os.node)) :
  wellFormed fs = true -> os.resolve fs dir = os.Got (os.Dir le es) ->
  In path (scannedFiles fs dir) ->
  exists names,
    In names (namesUnder (os.Dir le es))
    /\ path = (dirPrefix (filepath.isRooted dir) (os.pathElems dir)
               +++ filepath.joinElems names)%string
    /\ filepath.Rel dir path = Ok (filepath.joinElems names).
Proof.
  unfold scannedFiles. intros W R Hin. rewrite R in Hin.
  unfold os.resolve in R. destruct (String.eqb dir "") eqn:Ed; [discriminate|].
  apply String.eqb_neq in Ed.
  destruct (lookup_wellFormed _ _ _ W R) as [V Wn].
  rewrite filesUnder_names in Hin by assumption.
  apply in_map_iff in Hin as (names & <- & Hin).
  destruct (lookup_namesUnder _ Wn names Hin) as (Vn & _).
  pose proof (namesUnder_Dir_not_nil _ _ _ Hin) as Hn.
  exists names. split; [exact Hin|]. split.
  - now apply render_below.
  - now apply Rel_below.
Qed.

Lemma Forall2_impl_In {A B : Type} (R R' : A -> B -> Prop) (l : list A) (l' : list B) :
  (forall x y, In x l -> R x y -> R' x y) -> Forall2 R l l' -> Forall2 R' l l'.
Proof.
  intros H F. induction F as [|x y l l' Hxy F IH]; constructor.
  - apply H; [now left|exact Hxy].
  - apply IH. intros x' y' Hin. apply H. now right.
Qed.

Lemma Forall2_In_left {A B : Type} (R : A -> B -> Prop) (l : list A) (l' : list B)
    (x : A) :
  Forall2 R l l' -> In x l -> exists y, R x y.
Proof.
  intros F. induction F as [|x' y l l' Hxy F IH]; intros Hin; [contradiction|].
  destruct Hin as [<-|Hin]; [eauto|now apply IH].
Qed.

Lemma Forall2_right {A B : Type} (R : A -> B -> Prop) (P : B -> Prop)
    (l : list A) (l' : list B) :
  (forall x y, R x y -> P y) -> Forall2 R l l' -> Forall P l'.
Proof. intros H F. induction F; constructor; eauto. Qed.

Lemma Forall2_map_right {A B : Type} (g : B -> A) (l : list A) (l' : list B) :
  Forall2 (fun x y => x = g y) l l' -> l = map g l'.
Proof. intros F. induction F; simpl; congruence. Qed.

(** A path that leads to a file is not the path of a file that is not
    there. *)
Lemma resolve_apart (fs : os.FS) (path missing : string) (f : os.file) (e : error) :
  os.resolve fs path = os.Got (os.File f) -> missing <> ""%string ->
  os.Stat fs missing = Err e ->
  os.pathElems path <> os.pathElems missing.
Proof.
  unfold os.Stat, os.resolve. intros Hp Hne Hs Heq.
  apply String.eqb_neq in Hne. rewrite Hne in Hs.
  destruct (String.eqb path ""); [discriminate|].
  rewrite <- Heq, Hp in Hs. discriminate.
Qed.

Lemma Create_not_empty (fs fs' : os.FS) (path : string) :
  os.Create fs path = Ok fs' -> path <> ""%string.
Proof. unfold os.Create. intros H ->. discriminate. Qed.

(** What a build that adds every image stored, in terms of the file system
    before the archive was created. *)
Lemma stored_before (fs created : os.FS) (sourceDir cbzPath path : string)
    (m : zip.member) (e : error) :
  wellFormed fs = true -> os.Stat fs cbzPath = Err e ->
  os.Create fs cbzPath = Ok created ->
  In path (scannedFiles fs sourceDir) ->
  stored created sourceDir path m ->
  stored fs sourceDir path m
  /\ (isImage fs path = true \/ isNonImage fs path = true).
Proof.
  intros W Hs Hc Hin (rel & f & HR & Hres & Ho & Hr & ->).
  destruct (scannedFiles_resolve _ _ _ W Hin) as [g Hg].
  pose proof (resolve_apart _ _ _ _ _ Hg (Create_not_empty _ _ _ Hc) Hs) as Hne.
  pose proof (Create_frame _ _ _ _ _ Hc Hne Hres) as Hf.
  split.
  - exists rel, f. auto.
  - unfold isImage, isNonImage.
    rewrite (isImageFile_readable _ _ _ Hf Ho Hr).
    destruct (strings.HasPrefix _ _); auto.
Qed.

(** C4: a successful conversion leaves at the destination the archive of
    the scanned files the classifier says are images (the classifier
    failed on none of them and none is left out), one member per file, in
    the order of the sorted paths.  Each member has the path of its file
    relative to the source folder as its name (for a source folder that is
    a directory: the names from the folder down to the file, joined by
    slashes), the deflate method, and the bytes of the file.  The names are
    in increasing order.  The count returned is the number of scanned files
    the classifier says are no images.  The tree is well formed and, as
    the caller has checked, nothing is at the destination before. *)
Theorem archive_holds_the_images (zipEncode : list zip.member -> bytes)
    (sourceDir cbzPath : string) (w w' : World) (n : Z) (e : error) :
  wellFormed (files w) = true ->
  os.Stat (files w) cbzPath = Err e ->
  convertToCBZ zipEncode sourceDir cbzPath w = (Ok n, w') ->
  let fs := files w in
  let found := scannedFiles fs sourceDir in
  let images := sort.Strings (filter (isImage fs) found) in
  exists members,
    os.resolve (files w') cbzPath
    = os.Got (os.File {| os.openErr := None; os.readErr := None;
                         os.data := zipEncode members; os.modTime := 0 |})
    /\ Forall2 (stored fs sourceDir) images members
    /\ (forall path, In path found ->
          isImage fs path = true \/ isNonImage fs path = true)
    /\ (forall le es, os.resolve fs sourceDir = os.Got (os.Dir le es) ->
          Forall2 (fun path m =>
                     exists names,
                       In names (namesUnder (os.Dir le es))
                       /\ path = (dirPrefix (filepath.isRooted sourceDir)
                                            (os.pathElems sourceDir)
                                  +++ filepath.joinElems names)%string
                       /\ zip.Name (zip.header m) = filepath.joinElems names)
                  images members)
    /\ sortedStrings images
    /\ sortedStrings (map (fun m => zip.Name (zip.header m)) members)
    /\ Forall (fun m => zip.Method (zip.header m) = zip.Deflate) members
    /\ n = Z.of_nat (List.length (filter (isNonImage fs) found))
    /\ (List.length members + Z.to_nat n = List.length found)%nat.
Proof.
  intros W Hs H fs found images.
  pose proof (convertToCBZ_cases zipEncode sourceDir cbzPath w) as C.
  rewrite H in C. cbn [fst snd] in C.
  destruct C as [(e1 & _ & Hr & _)|[(ni & _ & Hr & _)|(imgs & ni & Ha & _ & C)]];
    try discriminate.
  destruct C as [(e1 & _ & Hr & _)|(created & zw & failed & Hc & Hadd & Hf & Hr)];
    [discriminate|].
  destruct failed as [e1|]; [discriminate|]. inversion Hr; subst n. clear Hr.
  destruct (analyzeDirectory sourceDir w) as [r w1] eqn:EA.
  cbn [fst] in Ha. subst r.
  apply analyzeDirectory_Ok in EA as (R & Hi & Hn & _). fold fs found in Hi, Hn.
  apply addImageFiles_Ok in Hadd as (members & Hd & Hall).
  cbn [zip.dir zip.NewWriter app] in Hd. rewrite Hd in Hf. clear Hd zw.
  (* every scanned file was classified *)
  assert (forall path, In path found ->
            isImage fs path = true \/ isNonImage fs path = true) as Hcl.
  { intros path Hin. destruct (isNonImage fs path) eqn:En; [now right|].
    assert (In path imgs) as Hp.
    { rewrite Hi. apply Strings_In, filter_In. now rewrite En. }
    destruct (Forall2_In_left _ _ _ _ Hall Hp) as [m Hm].
    destruct (stored_before _ _ _ _ _ _ _ W Hs Hc Hin Hm) as [_ [Hx|Hx]];
      [now left|fold fs in Hx; congruence]. }
  assert (imgs = images) as ->.
  { rewrite Hi. unfold images. f_equal. apply filter_ext_in.
    intros path Hin. unfold isImage, isNonImage.
    destruct (Hcl path Hin) as [Hx|Hx]; unfold isImage, isNonImage in Hx;
      destruct (isImageFile fs path) as [[|]|]; try discriminate; reflexivity. }
  assert (forall path, In path images -> In path found) as Hfound.
  { intros path Hp. apply Strings_In, filter_In in Hp. tauto. }
  assert (Forall2 (stored fs sourceDir) images members) as Hst.
  { revert Hall. apply Forall2_impl_In. intros path m Hp Hm.
    now apply (stored_before _ _ _ _ _ _ _ W Hs Hc (Hfound _ Hp) Hm). }
  assert (forall le es, os.resolve fs sourceDir = os.Got (os.Dir le es) ->
            Forall2 (fun path m =>
                       exists names,
                         In names (namesUnder (os.Dir le es))
                         /\ path = (dirPrefix (filepath.isRooted sourceDir)
                                              (os.pathElems sourceDir)
                                    +++ filepath.joinElems names)%string
                         /\ zip.Name (zip.header m) = filepath.joinElems names)
                    images members) as Hnames.
  { intros le es Hdir. revert Hst. apply Forall2_impl_In.
    intros path m Hp (rel & f & HR & _ & _ & _ & ->).
    destruct (scannedFiles_relative fs sourceDir path le es W Hdir (Hfound _ Hp))
      as (names & Hin & Hpath & Hrel).
    exists names. repeat split; try assumption.
    rewrite Hrel in HR. inversion HR. reflexivity. }
  exists members. split; [|split; [|split; [|split; [|split; [|split; [|split; [|split]]]]]]].
  - rewrite Hf. apply (Create_then_resolve _ _ _ _ Hc).
  - exact Hst.
  - exact Hcl.
  - exact Hnames.
  - apply Strings_sorted.
  - unfold scannable in R. fold fs in R. destruct (os.resolve fs sourceDir) as [[f|le es]|] eqn:Hsrc;
      [| |discriminate].
    + assert (List.length members <= 1)%nat as Hlen.
      { rewrite <- (Forall2_length Hst). unfold images. rewrite Strings_length.
        etransitivity; [apply filter_length_le|].
        unfold found, scannedFiles. rewrite Hsrc. simpl. lia. }
      destruct members as [|m [|m' ms]]; simpl in Hlen; try lia;
        repeat constructor.
    + apply (sortedStrings_prefix
               (dirPrefix (filepath.isRooted sourceDir) (os.pathElems sourceDir))).
      rewrite map_map.
      assert (images
              = map (fun m => (dirPrefix (filepath.isRooted sourceDir)
                                         (os.pathElems sourceDir)
                               +++ zip.Name (zip.header m))%string) members)
        as <-; [|apply Strings_sorted].
      apply Forall2_map_right. generalize (Hnames le es eq_refl).
      apply Forall2_impl_In. intros path m _ (names & _ & -> & ->). reflexivity.
  - revert Hst. apply Forall2_right.
    intros path m (rel & f & _ & _ & _ & _ & ->). reflexivity.
  - rewrite Hn, Strings_length, length_map. reflexivity.
  - rewrite Hn, Strings_length, length_map, Nat2Z.id.
    rewrite <- (Forall2_length Hst). unfold images. rewrite Strings_length.
    rewrite <- (filter_split_length (isNonImage fs) found). f_equal.
    f_equal. apply filter_ext_in. intros path Hin. unfold isImage, isNonImage.
    destruct (Hcl path Hin) as [Hx|Hx]; unfold isImage, isNonImage in Hx;
      destruct (isImageFile fs path) as [[|]|]; try discriminate; reflexivity.
Qed.

Lemma archive_holds_the_images_witness :
  exists members,
    os.resolve
      (files (snd (convertToCBZ Sample.encode "in/a" "out/a.cbz" Sample.world)))
      "out/a.cbz"
    = os.Got (os.File {| os.openErr := None; os.readErr := None;
                         os.data := Sample.encode members; os.modTime := 0 |})
    /\ map (fun m => zip.Name (zip.header m)) members
       = ["page001.dat"; "page002.png"; "sub.webp"; "sub/page000.gif"]%string
    /\ map zip.body members = [Sample.jpeg; Sample.png; Sample.webp; Sample.gif]
    /\ Forall (fun m => zip.Method (zip.header m) = zip.Deflate) members
    /\ fst (convertToCBZ Sample.encode "in/a" "out/a.cbz" Sample.world) = Ok 2%Z.
Proof.
  destruct (archive_holds_the_images Sample.encode "in/a" "out/a.cbz" Sample.world
              (snd (convertToCBZ Sample.encode "in/a" "out/a.cbz" Sample.world))
              2 (PathError "stat" "out/a.cbz" ENOENT)
              eq_refl eq_refl eq_refl)
    as (members & Hfile & Hst & _ & _ & _ & _ & Hdeflate & _).
  exists members. split; [exact Hfile|].
  split; [|split; [|split; [exact Hdeflate|reflexivity]]].
  - set (images := sort.Strings _) in Hst. vm_compute in images. subst images.
    inversion Hst as [|p1 m1 l1 ms1 (r1 & f1 & R1 & _ & _ & _ & E1) Hst1]; subst.
    inversion Hst1 as [|p2 m2 l2 ms2 (r2 & f2 & R2 & _ & _ & _ & E2) Hst2]; subst.
    inversion Hst2 as [|p3 m3 l3 ms3 (r3 & f3 & R3 & _ & _ & _ & E3) Hst3]; subst.
    inversion Hst3 as [|p4 m4 l4 ms4 (r4 & f4 & R4 & _ & _ & _ & E4) Hst4]; subst.
    inversion Hst4; subst.
    vm_compute in R1, R2, R3, R4.
    inversion R1; inversion R2; inversion R3; inversion R4. reflexivity.
  - set (images := sort.Strings _) in Hst. vm_compute in images. subst images.
    inversion Hst as [|p1 m1 l1 ms1 (r1 & f1 & _ & L1 & _ & _ & E1) Hst1]; subst.
    inversion Hst1 as [|p2 m2 l2 ms2 (r2 & f2 & _ & L2 & _ & _ & E2) Hst2]; subst.
    inversion Hst2 as [|p3 m3 l3 ms3 (r3 & f3 & _ & L3 & _ & _ & E3) Hst3]; subst.
    inversion Hst3 as [|p4 m4 l4 ms4 (r4 & f4 & _ & L4 & _ & _ & E4) Hst4]; subst.
    inversion Hst4; subst.
    vm_compute in L1, L2, L3, L4.
    inversion L1; inversion L2; inversion L3; inversion L4. reflexivity.
Defined.

(** ** Files the classifier fails on, in the archive

    The scan keeps a file the classifier fails on "to include it in the
    archive anyway".  The build opens the file again, the way the
    classifier did. *)

(** [addFileToZip] fails on every file [isImageFile] fails on: it opens the
    file the same way, and reads it. *)
Lemma unclassified_file_is_not_added (fs : os.FS) (zipWriter : zip.Writer)
    (filePath baseDir : string) (e : error) :
  isImageFile fs filePath = Err e ->
  exists err, snd (addFileToZip fs zipWriter filePath baseDir) = Some err.
Proof.
  unfold isImageFile, addFileToZip. intros H.
  destruct (filepath.Rel baseDir filePath) as [rel|e1]; [|cbn; eauto].
  unfold os.Open in *.
  destruct (os.resolve fs filePath) as [[f|le es]|e1]; [| |cbn; eauto].
  - destruct (os.openErr f) eqn:Ho; [cbn; eauto|].
    unfold os.Read in H. cbn [os.fileNode os.fileName] in H.
    unfold os.FStat, zip.FileInfoHeader, zip.CreateHeader, os.ReadAll.
    cbn [os.fileNode os.fileName os.infoOf os.Name os.Size os.ModTime
         zip.Name zip.UncompressedSize64 zip.Modified zip.dir].
    destruct (65535 <? _)%Z; [cbn; eauto|].
    destruct (os.readErr f) eqn:Hr; [cbn; eauto|].
    exfalso.
    destruct (firstn _ (os.data f)); [|discriminate].
    cbn in H. discriminate.
  - destruct le; [cbn; eauto|].
    unfold os.FStat, zip.FileInfoHeader, zip.CreateHeader, os.ReadAll.
    cbn [os.fileNode os.fileName os.infoOf os.Name os.Size os.ModTime
         zip.Name zip.UncompressedSize64 zip.Modified zip.dir].
    destruct (65535 <? _)%Z; cbn; eauto.
Qed.

(** A conversion whose scan finds a file the classifier fails on returns an
    error. *)
Lemma unclassified_file_fails_conversion (zipEncode : list zip.member -> bytes)
    (sourceDir cbzPath path : string) (w : World) (e e0 : error) :
  wellFormed (files w) = true ->
  os.Stat (files w) cbzPath = Err e0 ->
  In path (scannedFiles (files w) sourceDir) ->
  isImageFile (files w) path = Err e ->
  exists err, fst (convertToCBZ zipEncode sourceDir cbzPath w) = Err err.
Proof.
  intros W Hs Hin He.
  pose proof (convertToCBZ_cases zipEncode sourceDir cbzPath w) as C.
  cbv zeta in C.
  destruct C as [(e1 & _ & Hr & _)|[(ni & _ & Hr & _)|(imgs & ni & Ha & _ & C)]];
    eauto.
  destruct C as [(e1 & _ & Hr & _)|(created & zw & failed & Hc & Hadd & Hf & Hr)];
    eauto.
  destruct failed as [e1|]; eauto. exfalso.
  destruct (analyzeDirectory sourceDir w) as [r w1] eqn:EA.
  cbn [fst] in Ha. subst r.
  apply analyzeDirectory_Ok in EA as (R & Hi & _).
  apply addImageFiles_Ok in Hadd as (members & _ & Hall).
  assert (In path imgs) as Hp.
  { rewrite Hi. apply Strings_In, filter_In. split; [exact Hin|].
    unfold isNonImage. now rewrite He. }
  destruct (Forall2_In_left _ _ _ _ Hall Hp) as [m Hm].
  destruct (stored_before _ _ _ _ _ _ _ W Hs Hc Hin Hm) as [_ [Hx|Hx]];
    unfold isImage, isNonImage in Hx; rewrite He in Hx; discriminate.
Qed.

(** C2: a file the classifier fails on is appended to the image list, with
    a warning that says it is included in the archive, and the scan
    returns no error; but the file is in no archive.  On the sample folder
    [in/c], whose file [locked] cannot be opened: the classifier fails on
    it, the scan returns it first in the image list and prints the
    warning, the conversion fails on the same open error, the file left at
    the destination is an archive without a member, and the job is counted
    as an error.  In general: every scan that can walk the tree succeeds
    and has each file the classifier failed on in its image list;
    [addFileToZip] fails on every file the classifier fails on; and a
    conversion whose scan finds such a file returns an error (the tree well
    formed, nothing at the destination before). *)
Theorem unclassified_file_fails_the_build :
  let fs := Sample.root in
  let job := processWorkItem Sample.encode W64 1 (Sample.item "c")
               (Sample.noStats 4) Sample.world in
  let built := convertToCBZ Sample.encode "in/c" "out/c.cbz" Sample.world in
  (isImageFile fs "in/c/locked" = Err (PathError "open" "in/c/locked" EACCES)
   /\ analyzeDirectory "in/c" Sample.world
      = (Ok (["in/c/locked"; "in/c/page.jpg"], []),
         {| files := fs; stdout := [unclassifiedWarning "in/c/locked"] |})
   /\ fst built = Err (Wrapped "failed to add file to archive"
                         (PathError "open" "in/c/locked" EACCES))
   /\ os.resolve (files (snd built)) "out/c.cbz"
      = os.Got (os.File {| os.openErr := None; os.readErr := None;
                           os.data := Sample.encode []; os.modTime := 0 |})
   /\ fst job = {| Total := 4; Success := 0; Errors := 1; Skipped := 0;
                   NonImageFiles := 0 |}
   /\ stdout (snd job)
      = [logInfo "[WORKER 1] Processing: c";
         logWarning "Could not determine file type for locked, including in archive";
         logError ("[WORKER 1] Conversion failed: failed to add file to archive: "
                   +++ "open in/c/locked: permission denied")])%string
  /\ (forall dir w,
        scannable (files w) dir = true ->
        exists images nonImages w',
          analyzeDirectory dir w = (Ok (images, nonImages), w')
          /\ files w' = files w
          /\ forall path e,
               In path (scannedFiles (files w) dir) ->
               isImageFile (files w) path = Err e ->
               In path images /\ In (unclassifiedWarning path) (stdout w'))
  /\ (forall fs zipWriter filePath baseDir e,
        isImageFile fs filePath = Err e ->
        exists err, snd (addFileToZip fs zipWriter filePath baseDir) = Some err)
  /\ (forall zipEncode sourceDir cbzPath path w e e0,
        wellFormed (files w) = true ->
        os.Stat (files w) cbzPath = Err e0 ->
        In path (scannedFiles (files w) sourceDir) ->
        isImageFile (files w) path = Err e ->
        exists err, fst (convertToCBZ zipEncode sourceDir cbzPath w) = Err err).
Proof.
  intros fs job built. split; [|split; [|split]].
  - repeat split; vm_compute; reflexivity.
  - intros dir w R.
    destruct (scan_appends_unclassified_files dir w R) as [_ H]. exact H.
  - exact unclassified_file_is_not_added.
  - exact unclassified_file_fails_conversion.
Qed.

(** * Further properties of the program *)

(** ** Files that are there stay as they are *)

(** [putFile] keeps the regular files at other names. *)
Lemma putFile_keeps (elems : list string) (f : os.file) :
  forall n n' elems' g,
    os.putFile elems f n = os.Got n' ->
    elems' <> elems ->
    os.lookup elems' n = os.Got (os.File g) ->
    os.lookup elems' n' = os.Got (os.File g).
Proof.
  induction elems as [|name rest IH]; intros n n' elems' g H Hne L;
    simpl in H; [discriminate|].
  destruct n as [h|le es]; [discriminate|].
  destruct elems' as [|name' rest']; [discriminate|].
  cbn [os.lookup] in L.
  destruct (String.eqb name' name) eqn:En.
  - apply String.eqb_eq in En. subst name'.
    assert (rest' <> rest) as Hr by congruence.
    destruct (os.find name es) as [child|] eqn:Ef; [|discriminate].
    destruct rest as [|r rs]; cbv beta iota in H.
    + destruct child as [old|le' es'].
      * destruct rest' as [|r' rs']; [congruence|discriminate].
      * discriminate.
    + destruct (os.putFile (r :: rs) f child) as [child'|] eqn:E; [|discriminate].
      inversion H; subst n'. cbn [os.lookup]. rewrite find_setEntry_same.
      eapply IH; eauto.
  - apply String.eqb_neq in En.
    assert (exists c', n' = os.Dir le (os.setEntry name c' es)) as [c' ->].
    { destruct rest as [|r rs]; cbv beta iota in H.
      - destruct (os.find name es) as [[old|]|]; try discriminate;
          [destruct (os.openErr old); [discriminate|]|]; inversion H; eauto.
      - destruct (os.find name es) as [child|]; [|discriminate].
        destruct (os.putFile (r :: rs) f child) as [child'|]; [|discriminate].
        inversion H; eauto. }
    cbn [os.lookup]. now rewrite find_setEntry_other by exact En.
Qed.

(** [mkdirs] keeps every regular file. *)
Lemma mkdirs_keeps (elems : list string) :
  forall n n' elems' g,
    os.mkdirs elems n = os.Got n' ->
    os.lookup elems' n = os.Got (os.File g) ->
    os.lookup elems' n' = os.Got (os.File g).
Proof.
  induction elems as [|name rest IH]; intros n n' elems' g H L; simpl in H.
  - destruct n; [discriminate|]. now inversion H; subst.
  - destruct n as [h|le es]; [discriminate|].
    destruct (os.mkdirs rest _) as [child'|] eqn:E; [|discriminate].
    inversion H; subst n'. clear H.
    destruct elems' as [|name' rest']; [discriminate|].
    cbn [os.lookup] in L |- *.
    destruct (String.eqb name' name) eqn:En.
    + apply String.eqb_eq in En. subst name'. rewrite find_setEntry_same.
      destruct (os.find name es) as [child|]; [|discriminate].
      eapply IH; eauto.
    + apply String.eqb_neq in En. now rewrite find_setEntry_other by exact En.
Qed.

Lemma MkdirAll_keeps (fs fs' : os.FS) (dir path : string) (g : os.file) :
  os.MkdirAll fs dir = Ok fs' ->
  os.resolve fs path = os.Got (os.File g) ->
  os.resolve fs' path = os.Got (os.File g).
Proof.
  unfold os.MkdirAll, os.resolve. intros H L.
  destruct (String.eqb dir ""); [discriminate|].
  destruct (os.mkdirs (os.pathElems dir) fs) as [n|] eqn:E; [|discriminate].
  inversion H; subst n.
  destruct (String.eqb path ""); [discriminate|].
  eapply mkdirs_keeps; eauto.
Qed.

(** [os.Create] and the writes to the file keep the regular files at
    other paths. *)
Lemma WriteFile_keeps (fs : os.FS) (path other : string) (content : bytes)
    (g : os.file) :
  os.pathElems other <> os.pathElems path ->
  os.resolve fs other = os.Got (os.File g) ->
  os.resolve (os.WriteFile fs path content) other = os.Got (os.File g).
Proof.
  unfold os.WriteFile, os.resolve. intros Hne L.
  destruct (String.eqb other ""); [discriminate|].
  destruct (os.putFile (os.pathElems path) _ fs) as [n|] eqn:E; [|exact L].
  eapply putFile_keeps; eauto.
Qed.

Lemma Create_keeps (fs fs' : os.FS) (path other : string) (g : os.file) :
  os.Create fs path = Ok fs' ->
  os.pathElems other <> os.pathElems path ->
  os.resolve fs other = os.Got (os.File g) ->
  os.resolve fs' other = os.Got (os.File g).
Proof.
  unfold os.Create, os.resolve. intros H Hne L.
  destruct (String.eqb path ""); [discriminate|].
  destruct (os.putFile (os.pathElems path) os.emptyFile fs) as [n|] eqn:E;
    [|discriminate].
  inversion H; subst n.
  destruct (String.eqb other ""); [discriminate|].
  eapply putFile_keeps; eauto.
Qed.

(** [convertToCBZ] writes to its destination only. *)
Lemma convertToCBZ_keeps (zipEncode : list zip.member -> bytes)
    (sourceDir cbzPath : string) (w : World) (path : string) (g : os.file) :
  cbzPath = ""%string \/ os.pathElems path <> os.pathElems cbzPath ->
  os.resolve (files w) path = os.Got (os.File g) ->
  os.resolve (files (snd (convertToCBZ zipEncode sourceDir cbzPath w))) path
  = os.Got (os.File g).
Proof.
  intros Hne L.
  destruct (convertToCBZ_cases zipEncode sourceDir cbzPath w)
    as [(e & _ & _ & Hf)|[(ni & _ & _ & Hf)|(images & ni & _ & _ & Hc)]];
    try (rewrite Hf; exact L).
  destruct Hc as [(e & _ & _ & Hf)|(created & zw & failed & Hcr & _ & Hf & _)];
    rewrite Hf; [exact L|].
  destruct Hne as [->|Hne]; [discriminate|].
  apply WriteFile_keeps; [exact Hne|].
  eapply Create_keeps; eauto.
Qed.

(** A job keeps every regular file that is there when it starts. *)
Lemma processWorkItem_keeps (zipEncode : list zip.member -> bytes)
    (word : wordSize) (workerID : Z) (item : WorkItem) (stats : ConversionStats)
    (w : World) (path : string) (g : os.file) :
  os.resolve (files w) path = os.Got (os.File g) ->
  os.resolve (files (snd (processWorkItem zipEncode word workerID item stats w))) path
  = os.Got (os.File g).
Proof.
  intros L. rewrite processWorkItem_files.
  destruct (os.Stat (files w) (OutputPath item)) as [info|e] eqn:Hs; [exact L|].
  apply convertToCBZ_keeps; [|exact L].
  unfold os.Stat, os.resolve in Hs, L.
  destruct (String.eqb path "") eqn:Ep; [discriminate|].
  destruct (String.eqb (OutputPath item) "") eqn:Eo.
  - left. now apply String.eqb_eq.
  - right. intros Heq. rewrite <- Heq, L in Hs. discriminate.
Qed.

(** The writes to the archive create no file at another path. *)
Lemma WriteFile_frame (fs : os.FS) (path other : string) (content : bytes)
    (g : os.file) :
  os.pathElems other <> os.pathElems path ->
  os.resolve (os.WriteFile fs path content) other = os.Got (os.File g) ->
  os.resolve fs other = os.Got (os.File g).
Proof.
  unfold os.WriteFile, os.resolve. intros Hne L.
  destruct (String.eqb other ""); [discriminate|].
  destruct (os.putFile (os.pathElems path) _ fs) as [n|] eqn:E; [|exact L].
  eapply putFile_frame; eauto.
Qed.

(** X1: a job touches the file system at its output path only.  A regular
    file that is there when the job starts is at the same path with the
    same bytes afterwards, whatever the job does (skip, fail, convert): the
    archive is only written where [os.Stat] found nothing.  And a regular
    file found afterwards at a path that resolves through other names than
    the output path was there before. *)
Theorem job_writes_its_archive_only (zipEncode : list zip.member -> bytes)
    (word : wordSize) (workerID : Z) (item : WorkItem) (stats : ConversionStats)
    (w : World) :
  let w' := snd (processWorkItem zipEncode word workerID item stats w) in
  (forall path g,
     os.resolve (files w) path = os.Got (os.File g) ->
     os.resolve (files w') path = os.Got (os.File g))
  /\ (forall path g,
        os.pathElems path <> os.pathElems (OutputPath item) ->
        os.resolve (files w') path = os.Got (os.File g) ->
        os.resolve (files w) path = os.Got (os.File g)).
Proof.
  intros w'. split.
  - intros path g. apply processWorkItem_keeps.
  - intros path g Hne. subst w'. rewrite processWorkItem_files.
    destruct (os.Stat (files w) (OutputPath item)) as [info|e]; [auto|].
    destruct (convertToCBZ_cases zipEncode (SourcePath item) (OutputPath item) w)
      as [(e1 & _ & _ & Hf)|[(ni & _ & _ & Hf)|(images & ni & _ & _ & Hc)]];
      try (rewrite Hf; auto).
    destruct Hc as [(e1 & _ & _ & Hf)|(created & zw & failed & Hcr & _ & Hf & _)];
      rewrite Hf; [auto|].
    intros L. apply (Create_frame _ _ _ _ _ Hcr Hne).
    now apply WriteFile_frame in L.
Qed.

Lemma fold_println_files (lines : list string) :
  forall w, files (fold_left (fun w line => println line w) lines w) = files w.
Proof.
  induction lines as [|l lines IH]; intros w; [reflexivity|].
  simpl. now rewrite IH.
Qed.

Lemma printFinalStats_files (word : wordSize) (stats : ConversionStats) (w : World) :
  files (printFinalStats word stats w) = files w.
Proof.
  unfold printFinalStats.
  destruct (Skipped stats >? 0)%Z, (Errors stats >? 0)%Z,
    (NonImageFiles stats >? 0)%Z, (wrapInt word (Success stats + Errors stats) >? 0)%Z;
    reflexivity.
Qed.

(** The file system [main] leaves when it stops before the jobs, or hands
    to them: the one it found, or that one with the output directory
    made. *)
Lemma mainPrepare_files (word : wordSize) (flags : Flags) (numCPU : Z) (w : World) :
  let w1 := match mainPrepare word flags numCPU w with
            | Return _ w1 => w1
            | Dispatch _ _ _ w1 => w1
            end in
  files w1 = files w \/ os.MkdirAll (files w) (outputDir flags) = Ok (files w1).
Proof.
  unfold mainPrepare.
  destruct (showVersion flags); [now left|].
  destruct (showHelp flags || _ || _);
    [left; unfold showUsage; apply fold_println_files|].
  destruct (validateThreadCount word (threads flags) numCPU) as [th notice].
  rewrite !fold_println_files.
  destruct (match os.Stat _ _ with Err err => _ | Ok _ => _ end);
    [left; apply fold_println_files|].
  destruct (os.MkdirAll _ _) as [fs|e]; [|left; apply fold_println_files].
  right. cbn [files println].
  destruct (getFolders fs (inputDir flags)) as [folders|e]; [|reflexivity].
  destruct (Z.of_nat (List.length folders) =? 0)%Z; reflexivity.
Qed.

Lemma steps_keep_existing_files (zipEncode : list zip.member -> bytes)
    (word : wordSize) (p q : Pool) (path : string) (g : os.file) :
  steps zipEncode word p q ->
  os.resolve (files (sharedWorld p)) path = os.Got (os.File g) ->
  os.resolve (files (sharedWorld q)) path = os.Got (os.File g).
Proof.
  induction 1 as [p|p q r Hs _ IH]; intros L; [exact L|].
  apply IH. destruct Hs; cbn [sharedWorld]; try exact L.
  now apply processWorkItem_keeps.
Qed.

(** The thread count [main] uses is at least one. *)
Lemma validateThreadCount_positive (word : wordSize) (t numCPU : Z) :
  (1 <= numCPU)%Z -> (2 * numCPU <= maxInt word)%Z ->
  (1 <= fst (validateThreadCount word t numCPU))%Z.
Proof.
  intros Hc Hm. unfold validateThreadCount.
  assert (wrapInt word (numCPU * 2) = (numCPU * 2)%Z) as ->.
  { apply wrapInt_in_range. pose proof (maxInt_pos word). unfold minInt.
    assert (0 < 2 ^ (intBits word - 1))%Z by (destruct word; reflexivity). lia. }
  destruct (t <? 1)%Z eqn:E1; cbn [fst]; [lia|].
  destruct (t >? numCPU * 2)%Z; cbn [fst]; lia.
Qed.

(** With a worker or more, the pool can run to the end. *)
Lemma processConcurrently_returns (zipEncode : list zip.member -> bytes)
    (word : wordSize) (workItems : list WorkItem) (numThreads : Z)
    (stats : ConversionStats) (w : World) :
  (1 <= numThreads)%Z ->
  exists stats' w',
    processConcurrently zipEncode word workItems numThreads stats w stats' w'.
Proof.
  intros Hth.
  destruct (pool_joins zipEncode word _
              (startPool workItems numThreads stats w) (le_n _)) as (q & Hq & Hj).
  - cbn [startPool capacity]. lia.
  - exists (sharedStats q), (sharedWorld q), q. auto.
Qed.

(** [main] can always run to its end. *)
Lemma main_returns (zipEncode : list zip.member -> bytes) (word : wordSize)
    (flags : Flags) (numCPU : Z) (w : World) :
  (1 <= numCPU)%Z -> (2 * numCPU <= maxInt word)%Z ->
  exists code w', main zipEncode word flags numCPU w code w'.
Proof.
  intros Hc Hm. unfold main.
  destruct (mainPrepare word flags numCPU w) as [c w1|items th stats w1] eqn:E.
  - exists c, w1. auto.
  - destruct (mainPrepare_dispatch _ _ _ _ _ _ _ _ E) as (folders & _ & _ & _ & -> & _).
    destruct (processConcurrently_returns zipEncode word items
                (fst (validateThreadCount word (threads flags) numCPU)) stats w1)
      as (stats' & w2 & Hrun).
    + now apply validateThreadCount_positive.
    + exists 0%Z, (printFinalStats word stats' w2), stats', w2. auto.
Qed.

(** X2: a run of the program never changes a regular file that is there
    when it starts.  Whatever the flags and however the workers are
    scheduled, every such file is at the same path with the same bytes when
    [main] ends: making the output directory replaces no file, and no job
    writes over one. *)
Theorem run_keeps_existing_files (zipEncode : list zip.member -> bytes)
    (word : wordSize) (flags : Flags) (numCPU : Z) (w : World)
    (code : Z) (w' : World) (path : string) (g : os.file) :
  main zipEncode word flags numCPU w code w' ->
  os.resolve (files w) path = os.Got (os.File g) ->
  os.resolve (files w') path = os.Got (os.File g).
Proof.
  unfold main. intros Hmain L.
  pose proof (mainPrepare_files word flags numCPU w) as Hf. cbv zeta in Hf.
  destruct (mainPrepare word flags numCPU w) as [c w1|items th stats w1].
  - destruct Hmain as [_ ->].
    destruct Hf as [->|Hmk]; [exact L|]. eapply MkdirAll_keeps; eauto.
  - destruct Hmain as (stats' & w2 & (p & Hsteps & _ & _ & Hw) & _ & ->).
    rewrite printFinalStats_files, <- Hw.
    apply (steps_keep_existing_files _ _ _ _ _ _ Hsteps). cbn [startPool sharedWorld].
    destruct Hf as [->|Hmk]; [exact L|]. eapply MkdirAll_keeps; eauto.
Qed.

Lemma run_keeps_existing_files_witness :
  exists code w',
    main Sample.encode W64 sampleFlags 1 Sample.world code w'
    /\ os.resolve (files w') "in/a/page002.png" = os.Got (Sample.plain Sample.png).
Proof.
  destruct (main_returns Sample.encode W64 sampleFlags 1 Sample.world)
    as (code & w' & Hmain); [lia|vm_compute; discriminate|].
  exists code, w'. split; [exact Hmain|].
  apply (run_keeps_existing_files Sample.encode W64 sampleFlags 1 Sample.world
           code w' "in/a/page002.png"
           {| os.openErr := None; os.readErr := None; os.data := Sample.png;
              os.modTime := 1700000000 |} Hmain).
  reflexivity.
Defined.

(** ** The classifier on files it cannot read, and on the empty file *)

(** X3: [isImageFile] answers exactly for the regular files that can be
    opened and read.  A path that does not resolve, or a file that cannot be
    opened, gives the error of [os.Open]; a directory or a file that cannot
    be read gives the error of [file.Read].  Reaching the end of the file at
    once is no error: an empty file is classified, and it is not an
    image. *)
Theorem classifier_errors_and_empty_file (fs : os.FS) (path : string) :
  (forall e, os.resolve fs path = os.Errno e ->
             isImageFile fs path = Err (PathError "open" path e))
  /\ (forall le es, os.resolve fs path = os.Got (os.Dir le es) ->
        isImageFile fs path
        = Err match le with
              | Some e => PathError "open" path e
              | None => PathError "read" path EISDIR
              end)
  /\ (forall f, os.resolve fs path = os.Got (os.File f) ->
        match os.openErr f, os.readErr f with
        | Some e, _ => isImageFile fs path = Err (PathError "open" path e)
        | None, Some e => isImageFile fs path = Err (PathError "read" path e)
        | None, None =>
            exists image, isImageFile fs path = Ok image
                          /\ (os.data f = [] -> image = false)
        end)
  /\ ((exists image, isImageFile fs path = Ok image)
      <-> exists f, os.resolve fs path = os.Got (os.File f)
                    /\ os.openErr f = None /\ os.readErr f = None).
Proof.
  assert (forall f, os.resolve fs path = os.Got (os.File f) ->
            match os.openErr f, os.readErr f with
            | Some e, _ => isImageFile fs path = Err (PathError "open" path e)
            | None, Some e => isImageFile fs path = Err (PathError "read" path e)
            | None, None =>
                exists image, isImageFile fs path = Ok image
                              /\ (os.data f = [] -> image = false)
            end) as Hfile.
  { intros f Hr. destruct (os.openErr f) as [e|] eqn:Ho.
    - unfold isImageFile, os.Open. now rewrite Hr, Ho.
    - destruct (os.readErr f) as [e|] eqn:He.
      + unfold isImageFile, os.Open, os.Read. rewrite Hr, Ho.
        cbn [os.fileNode os.fileName]. now rewrite He.
      + rewrite (isImageFile_readable _ _ _ Hr Ho He).
        eexists. split; [reflexivity|]. intros ->. vm_compute. reflexivity. }
  assert (forall le es, os.resolve fs path = os.Got (os.Dir le es) ->
            isImageFile fs path
            = Err match le with
                  | Some e => PathError "open" path e
                  | None => PathError "read" path EISDIR
                  end) as Hdir.
  { intros le es Hr. unfold isImageFile, os.Open, os.Read. rewrite Hr.
    destruct le; reflexivity. }
  assert (forall e, os.resolve fs path = os.Errno e ->
                    isImageFile fs path = Err (PathError "open" path e)) as Hmiss.
  { intros e Hr. unfold isImageFile, os.Open. now rewrite Hr. }
  split; [exact Hmiss|]. split; [exact Hdir|]. split; [exact Hfile|].
  split.
  - intros [image H].
    destruct (os.resolve fs path) as [[f|le es]|e] eqn:Hr.
    + specialize (Hfile f eq_refl). exists f.
      destruct (os.openErr f); [congruence|].
      destruct (os.readErr f); [congruence|auto].
    + rewrite (Hdir le es eq_refl) in H. discriminate.
    + rewrite (Hmiss e eq_refl) in H. discriminate.
  - intros (f & Hr & Ho & He). specialize (Hfile f Hr).
    rewrite Ho, He in Hfile. destruct Hfile as (image & H & _). eauto.
Qed.

(** ** The folders of the input directory *)

(** X4: [getFolders] returns the names of the directories directly in
    [dir], in increasing order: regular files are left out, directories
    further down are not looked at, and a directory that cannot be read
    itself is still listed.  It fails, with the error of [os.ReadDir], when
    [dir] does not resolve, is a regular file, or cannot be opened; for a
    regular file the error is "not a directory", under the operation [open]
    (or [readdirent], with an older library). *)
Theorem getFolders_sorted_subdirectories (fs : os.FS) (dir : string) :
  match os.resolve fs dir with
  | os.Got (os.Dir None es) =>
      exists folders,
        getFolders fs dir = Ok folders
        /\ sortedStrings folders
        /\ Permutation folders (map fst (filter (fun e => os.isDirNode (snd e)) es))
        /\ (forall name, In name folders
                         <-> exists le' es', In (name, os.Dir le' es') es)
  | os.Got (os.Dir (Some e) _) => getFolders fs dir = Err (PathError "open" dir e)
  | os.Got (os.File _) =>
      exists op, getFolders fs dir = Err (PathError op dir ENOTDIR)
                 /\ (op = "open" \/ op = "readdirent")%string
  | os.Errno e => getFolders fs dir = Err (PathError "open" dir e)
  end.
Proof.
  unfold getFolders, os.ReadDir.
  destruct (os.resolve fs dir) as [[f|[e|] es]|e]; try reflexivity.
  { exists "open"%string. split; [reflexivity|now left]. }
  assert (map os.entryName
              (filter os.entryIsDir (map (fun '(name, n) => os.entryOf name n) es))
          = map fst (filter (fun e => os.isDirNode (snd e)) es)) as ->.
  { induction es as [|[name n] es IH]; [reflexivity|].
    simpl. destruct (os.isDirNode n); simpl; now rewrite IH. }
  eexists. split; [reflexivity|]. split; [apply Strings_sorted|].
  split; [apply Permutation_sym, Strings_perm|].
  intros name. rewrite Strings_In, in_map_iff. split.
  - intros ([k n] & <- & Hin). apply filter_In in Hin as [Hin Hd].
    destruct n as [f|le' es']; [discriminate|]. eauto.
  - intros (le' & es' & Hin). exists (name, os.Dir le' es').
    split; [reflexivity|]. apply filter_In. now split.
Qed.

(** ** The jobs [main] creates *)

Lemma string_length_app (a b : string) :
  String.length (a +++ b) = (String.length a + String.length b)%nat.
Proof. induction a as [|c a IH]; simpl; [reflexivity|now rewrite IH]. Qed.

Lemma string_app_inv_tail (a b c : string) : (a +++ c)%string = (b +++ c)%string -> a = b.
Proof.
  revert b. induction a as [|x a IH]; intros [|y b] H.
  - reflexivity.
  - apply (f_equal String.length) in H. simpl in H.
    rewrite string_length_app in H. lia.
  - apply (f_equal String.length) in H. simpl in H.
    rewrite string_length_app in H. lia.
  - simpl in H. inversion H; subst. f_equal. now apply IH.
Qed.

Lemma noSep_app (a b : string) : noSep (a +++ b) = noSep a && noSep b.
Proof.
  induction a as [|c a IH]; simpl; [reflexivity|].
  now rewrite IH, andb_assoc.
Qed.

(** The name of the archive of a folder is a valid name. *)
Lemma validName_cbz (folder : string) :
  validName folder = true -> validName (folder +++ ".cbz") = true.
Proof.
  intros V. apply validName_facts in V as (Hne & _ & _ & Hs).
  unfold validName. rewrite noSep_app, Hs.
  assert (forall s, (5 <= String.length s)%nat -> forall t,
            (String.length t <= 2)%nat -> String.eqb s t = false) as Hlen.
  { intros s Hl t Ht. apply String.eqb_neq. intros ->. lia. }
  assert (5 <= String.length (folder +++ ".cbz"))%nat as H5.
  { rewrite string_length_app. destruct folder; [congruence|simpl; lia]. }
  rewrite !Hlen by (exact H5 || (simpl; lia)). reflexivity.
Qed.

(** The elements of a path without [..] are valid names. *)
Lemma pathElems_valid (path : string) :
  ~ In ".."%string (os.pathElems path) -> validNames (os.pathElems path).
Proof.
  intros H. apply Forall_forall. intros e He.
  assert (e <> ".."%string) as Hdd by (intros ->; contradiction).
  rewrite pathElems_filter in He. apply filter_In in He as [Hin Hk].
  pose proof (split_elements_noSep path) as Hs.
  rewrite Forall_forall in Hs. specialize (Hs e Hin).
  unfold namesStep in Hk. apply negb_true_iff, orb_false_elim in Hk as [H1 H2].
  apply String.eqb_neq in Hdd. unfold validName. now rewrite H1, H2, Hdd, Hs.
Qed.

Lemma Base_render (rooted : bool) (es : list string) (name : string) :
  validNames (es ++ [name]) -> filepath.Base (render rooted (es ++ [name])) = name.
Proof.
  intros V. unfold filepath.Base.
  pose proof (render_not_empty rooted (es ++ [name])) as Hne.
  apply String.eqb_neq in Hne. rewrite Hne.
  rewrite split_render by (exact V || (destruct es; discriminate)).
  assert (filter (fun e => negb (String.eqb e "")) (es ++ [name]) = es ++ [name]) as Hf.
  { apply forallb_filter_id. apply forallb_forall. intros e He.
    pose proof (proj1 (Forall_forall _ _) V e He) as Ve.
    apply validName_facts in Ve as (Hv & _). apply negb_true_iff.
    now apply String.eqb_neq. }
  destruct rooted.
  - cbn [filter String.eqb negb]. rewrite Hf, rev_unit. reflexivity.
  - rewrite Hf, rev_unit. reflexivity.
Qed.

Lemma distinct_NoDup (names : list string) : distinct names = true -> NoDup names.
Proof.
  induction names as [|name rest IH]; intros D; [constructor|].
  simpl in D. apply andb_prop in D as [Dn Dr]. apply negb_true_iff in Dn.
  constructor; [|now apply IH].
  intros Hin. assert (existsb (String.eqb name) rest = true) as Hx; [|congruence].
  apply existsb_exists. exists name. split; [exact Hin|apply String.eqb_refl].
Qed.

Lemma NoDup_map_filter {A B : Type} (f : A -> B) (keep : A -> bool) (l : list A) :
  NoDup (map f l) -> NoDup (map f (filter keep l)).
Proof.
  induction l as [|x l IH]; intros H; [constructor|].
  simpl in H. inversion H as [|? ? Hn Hr]; subst. simpl.
  destruct (keep x); [|now apply IH]. simpl. constructor; [|now apply IH].
  intros Hin. apply Hn. apply in_map_iff in Hin as (y & Hy & Hin).
  apply filter_In in Hin as [Hin _]. apply in_map_iff. eauto.
Qed.

(** X5: the jobs [main] creates for the folders [getFolders] found, in a
    well-formed tree and for an output path without [..]: the source path
    of a job leads to the folder of its name in the input directory, its
    output path leads to the file [<folder>.cbz] directly in the output
    directory, and no two jobs have the same output file. *)
Theorem jobs_map_folders_to_archives (fs : os.FS) (inputDir outputDir : string)
    (folders : list string) :
  wellFormed fs = true ->
  getFolders fs inputDir = Ok folders ->
  outputDir <> ""%string -> ~ In ".."%string (os.pathElems outputDir) ->
  let items := createWorkItems inputDir outputDir folders in
  (forall item, In item items ->
     (exists le es listed,
        os.resolve fs inputDir = os.Got (os.Dir None listed)
        /\ os.find (FolderName item) listed = Some (os.Dir le es)
        /\ os.resolve fs (SourcePath item) = os.Got (os.Dir le es))
     /\ os.pathElems (SourcePath item) = os.pathElems inputDir ++ [FolderName item]
     /\ os.pathElems (OutputPath item)
        = os.pathElems outputDir ++ [(FolderName item +++ ".cbz")%string]
     /\ filepath.Base (OutputPath item) = (FolderName item +++ ".cbz")%string)
  /\ NoDup (map (fun item => os.pathElems (OutputPath item)) items).
Proof.
  intros W Hg Hout Hdd items.
  pose proof (getFolders_subfolders _ _ _ Hg) as Hf.
  unfold immediateSubfolders in Hf.
  unfold getFolders, os.ReadDir in Hg.
  destruct (os.resolve fs inputDir) as [[f|[e|] listed]|e] eqn:Hr; try discriminate.
  clear Hg. unfold os.resolve in Hr.
  destruct (String.eqb inputDir "") eqn:Ein; [discriminate|].
  apply String.eqb_neq in Ein.
  destruct (lookup_wellFormed _ _ _ W Hr) as [Vin Wd].
  rewrite wellFormed_Dir in Wd. apply andb_prop in Wd as [D Wall].
  pose proof (pathElems_valid _ Hdd) as Vout.
  assert (forall folder, In folder folders ->
            validName folder = true
            /\ exists le es, os.find folder listed = Some (os.Dir le es)) as Hfolder.
  { intros folder Hin. rewrite Hf in Hin. apply Strings_In, in_map_iff in Hin.
    destruct Hin as ([k n] & <- & Hin). apply filter_In in Hin as [Hin Hd].
    destruct n as [f|le es]; [discriminate|]. cbn [fst].
    pose proof (find_distinct _ _ _ D Hin) as Hfind.
    split; [exact (proj1 (find_wellFormed _ _ _ Wall Hfind))|eauto]. }
  split.
  - intros item Hin. apply in_map_iff in Hin as (folder & <- & Hin).
    cbn [FolderName SourcePath OutputPath].
    destruct (Hfolder folder Hin) as (Vf & le & es & Hfind).
    pose proof (validName_cbz _ Vf) as Vc.
    rewrite !Join_plain by assumption.
    assert (validNames (os.pathElems inputDir ++ [folder])) as V1
      by (apply Forall_app; split; [exact Vin|now constructor]).
    assert (validNames (os.pathElems outputDir ++ [(folder +++ ".cbz")%string])) as V2
      by (apply Forall_app; split; [exact Vout|now constructor]).
    rewrite !pathElems_render, Base_render by assumption.
    split; [|auto]. exists le, es, listed. split; [reflexivity|]. split; [exact Hfind|].
    unfold os.resolve.
    pose proof (render_not_empty (filepath.isRooted inputDir)
                  (os.pathElems inputDir ++ [folder])) as Hne.
    apply String.eqb_neq in Hne. rewrite Hne, pathElems_render by exact V1.
    rewrite lookup_app, Hr. cbn [os.lookup]. now rewrite Hfind.
  - unfold items, createWorkItems. rewrite map_map. cbn [OutputPath].
    rewrite (map_ext_in _ (fun folder =>
               os.pathElems outputDir ++ [(folder +++ ".cbz")%string])).
    + apply Finite.Injective_map_NoDup.
      * intros a b Hab. apply app_inv_head in Hab. inversion Hab as [Hs].
        now apply string_app_inv_tail in Hs.
      * rewrite Hf. eapply Permutation_NoDup; [apply Strings_perm|].
        now apply NoDup_map_filter, distinct_NoDup.
    + intros folder Hin. destruct (Hfolder folder Hin) as (Vf & _).
      pose proof (validName_cbz _ Vf) as Vc.
      rewrite Join_plain by assumption. apply pathElems_render.
      apply Forall_app; split; [exact Vout|now constructor].
Qed.

Lemma jobs_map_folders_to_archives_witness :
  NoDup (map (fun item => os.pathElems (OutputPath item))
             (createWorkItems "in" "out" ["a"; "b"; "c"; "d"]%string)).
Proof.
  destruct (jobs_map_folders_to_archives Sample.root "in" "out"
              ["a"; "b"; "c"; "d"]%string eq_refl eq_refl) as [_ H].
  - discriminate.
  - vm_compute. intros [H|[]]. discriminate.
  - exact H.
Defined.

(** ** Truncated names *)

(** The encoding of one rune, as [[]rune(s)] gives them. *)
Definition wellEncoded (r : bytes) : bool :=
  match r with
  | [b0] => (Byte.to_N b0 <? 128)%N
  | [b0; b1] =>
      match utf8.lead b0 with
      | Some (lo, hi, 2%nat) => utf8.between lo hi b1
      | _ => false
      end
  | [b0; b1; b2] =>
      match utf8.lead b0 with
      | Some (lo, hi, 3%nat) => utf8.between lo hi b1 && utf8.cont b2
      | _ => false
      end
  | [b0; b1; b2; b3] =>
      match utf8.lead b0 with
      | Some (lo, hi, 4%nat) => utf8.between lo hi b1 && utf8.cont b2 && utf8.cont b3
      | _ => false
      end
  | _ => false
  end.

(** The number of runes of a string. *)
Definition runeCount (s : string) : nat := List.length (utf8.runes (bytesOf s)).

Lemma lead_high (b0 : byte) (lo hi : N) (n : nat) :
  utf8.lead b0 = Some (lo, hi, n) -> (Byte.to_N b0 <? 128)%N = false.
Proof.
  unfold utf8.lead. intros H. apply N.ltb_ge.
  destruct ((194 <=? Byte.to_N b0) && _)%N eqn:E1.
  { apply andb_prop in E1 as [E _]. apply N.leb_le in E. lia. }
  destruct (Byte.to_N b0 =? 224)%N eqn:E2; [apply N.eqb_eq in E2; lia|].
  destruct ((225 <=? Byte.to_N b0) && _)%N eqn:E3.
  { apply andb_prop in E3 as [E _]. apply N.leb_le in E. lia. }
  destruct (Byte.to_N b0 =? 237)%N eqn:E4; [apply N.eqb_eq in E4; lia|].
  destruct ((238 <=? Byte.to_N b0) && _)%N eqn:E5.
  { apply andb_prop in E5 as [E _]. apply N.leb_le in E. lia. }
  destruct (Byte.to_N b0 =? 240)%N eqn:E6; [apply N.eqb_eq in E6; lia|].
  destruct ((241 <=? Byte.to_N b0) && _)%N eqn:E7.
  { apply andb_prop in E7 as [E _]. apply N.leb_le in E. lia. }
  destruct (Byte.to_N b0 =? 244)%N eqn:E8; [apply N.eqb_eq in E8; lia|].
  discriminate.
Qed.

(** Decoding reads an encoded rune back, whatever follows it. *)
Lemma runes_rune (r rest : bytes) :
  wellEncoded r = true -> utf8.runes (r ++ rest) = r :: utf8.runes rest.
Proof.
  intros H.
  destruct r as [|b0 [|b1 [|b2 [|b3 [|b4 r]]]]]; try discriminate;
    cbn [wellEncoded] in H.
  - cbn [app utf8.runes]. now rewrite H.
  - destruct (utf8.lead b0) as [[[lo hi] [|[|[|n]]]]|] eqn:L; try discriminate.
    cbn [app utf8.runes]. now rewrite (lead_high _ _ _ _ L), L, H.
  - destruct (utf8.lead b0) as [[[lo hi] [|[|[|[|n]]]]]|] eqn:L; try discriminate.
    cbn [app utf8.runes]. now rewrite (lead_high _ _ _ _ L), L, H.
  - destruct (utf8.lead b0) as [[[lo hi] [|[|[|[|[|n]]]]]]|] eqn:L; try discriminate.
    cbn [app utf8.runes]. now rewrite (lead_high _ _ _ _ L), L, H.
Qed.

(** Every rune [[]rune(s)] gives is an encoded rune. *)
Lemma runes_wellEncoded (n : nat) :
  forall s, (List.length s <= n)%nat ->
            Forall (fun r => wellEncoded r = true) (utf8.runes s).
Proof.
  induction n as [|n IH]; intros s Hlen.
  - destruct s; [constructor|simpl in Hlen; lia].
  - destruct s as [|b0 r0]; [constructor|]. simpl in Hlen.
    assert (Forall (fun r => wellEncoded r = true) (utf8.runes r0)) as H0
      by (apply IH; lia).
    cbn [utf8.runes]. destruct (Byte.to_N b0 <? 128)%N eqn:E.
    + constructor; [exact E|exact H0].
    + destruct (utf8.lead b0) as [[[lo hi] k]|] eqn:L; [|now constructor].
      destruct k as [|[|[|[|[|k]]]]]; try (now constructor).
      * destruct r0 as [|b1 r1]; [now constructor|].
        destruct (utf8.between lo hi b1) eqn:B; [|now constructor].
        constructor; [cbn [wellEncoded]; now rewrite L|].
        apply IH. simpl in Hlen. lia.
      * destruct r0 as [|b1 [|b2 r2]]; try (now constructor).
        destruct (utf8.between lo hi b1 && utf8.cont b2) eqn:B; [|now constructor].
        constructor; [cbn [wellEncoded]; now rewrite L|].
        apply IH. simpl in Hlen. lia.
      * destruct r0 as [|b1 [|b2 [|b3 r3]]]; try (now constructor).
        destruct (utf8.between lo hi b1 && utf8.cont b2 && utf8.cont b3) eqn:B;
          [|now constructor].
        constructor; [cbn [wellEncoded]; now rewrite L|].
        apply IH. simpl in Hlen. lia.
Qed.

(** [[]rune(string(rs) + tail)] for runes [rs] taken from a string. *)
Lemma runes_concat (rs : list bytes) (tail : bytes) :
  Forall (fun r => wellEncoded r = true) rs ->
  utf8.runes (List.concat rs ++ tail) = rs ++ utf8.runes tail.
Proof.
  induction 1 as [|r rs Hr _ IH]; [reflexivity|].
  simpl. now rewrite <- app_assoc, runes_rune, IH.
Qed.

Lemma bytesOf_app (a b : string) : bytesOf (a +++ b) = bytesOf a ++ bytesOf b.
Proof.
  unfold bytesOf, list_byte_of_string.
  induction a as [|c a IH]; simpl; [reflexivity|f_equal; exact IH].
Qed.

Lemma bytesOf_encode (rs : list bytes) : bytesOf (utf8.encode rs) = List.concat rs.
Proof. apply list_byte_of_string_of_list_byte. Qed.

Lemma Forall_firstn_of {A : Type} (P : A -> Prop) (n : nat) (l : list A) :
  Forall P l -> Forall P (firstn n l).
Proof.
  revert n. induction l as [|x l IH]; intros [|n] H; simpl; try constructor.
  - now inversion H.
  - apply IH. now inversion H.
Qed.

(** [[]rune] of the string made of the first [k] runes of [s] and [tail]. *)
Lemma runes_truncated (s : string) (k : nat) (tail : string) :
  utf8.runes (bytesOf (utf8.encode (firstn k (utf8.runes (bytesOf s))) +++ tail))
  = firstn k (utf8.runes (bytesOf s)) ++ utf8.runes (bytesOf tail).
Proof.
  rewrite bytesOf_app, bytesOf_encode. apply runes_concat.
  apply Forall_firstn_of. now apply (runes_wellEncoded (List.length (bytesOf s))).
Qed.

(** X6: [truncateString(s, maxLen)] for [maxLen >= 0] never has more than
    [maxLen] runes.  A string of at most [maxLen] runes is returned as it
    is.  A longer one is cut to exactly [maxLen] runes: its first
    [maxLen - 3] runes and three dots, or for [maxLen <= 3] its first
    [maxLen] runes.  Runes are counted as [[]rune(s)] does, a byte that
    starts no valid UTF-8 sequence being one rune. *)
Theorem truncateString_fits (s : string) (maxLen : Z) :
  (0 <= maxLen)%Z ->
  let t := truncateString s maxLen in
  let rs := utf8.runes (bytesOf s) in
  (Z.of_nat (runeCount t) <= maxLen)%Z
  /\ ((Z.of_nat (runeCount s) <= maxLen)%Z -> t = s)
  /\ ((maxLen < Z.of_nat (runeCount s))%Z ->
      Z.of_nat (runeCount t) = maxLen
      /\ utf8.runes (bytesOf t)
         = (if (maxLen <=? 3)%Z then firstn (Z.to_nat maxLen) rs
            else firstn (Z.to_nat (maxLen - 3)) rs ++ utf8.runes (bytesOf "..."))
      /\ ((3 < maxLen)%Z ->
          t = (utf8.encode (firstn (Z.to_nat (maxLen - 3)) rs) +++ "...")%string)).
Proof.
  intros Hpos t rs.
  assert ((maxLen < Z.of_nat (runeCount s))%Z ->
          Z.of_nat (runeCount t) = maxLen
          /\ utf8.runes (bytesOf t)
             = (if (maxLen <=? 3)%Z then firstn (Z.to_nat maxLen) rs
                else firstn (Z.to_nat (maxLen - 3)) rs ++ utf8.runes (bytesOf "..."))
          /\ ((3 < maxLen)%Z ->
              t = (utf8.encode (firstn (Z.to_nat (maxLen - 3)) rs) +++ "...")%string))
    as Hcut.
  { intros Hlong. unfold runeCount in *. subst t. unfold truncateString. fold rs in Hlong |- *.
    destruct (Z.of_nat (List.length rs) <=? maxLen)%Z eqn:E;
      [apply Z.leb_le in E; lia|].
    destruct (maxLen <=? 3)%Z eqn:E3.
    - rewrite <- (string_app_nil (utf8.encode _)). unfold rs.
      rewrite runes_truncated. fold rs. cbn [bytesOf list_byte_of_string utf8.runes].
      rewrite app_nil_r, firstn_length_le by lia.
      split; [lia|]. split; [reflexivity|]. apply Z.leb_le in E3. lia.
    - unfold rs. rewrite runes_truncated. fold rs.
      apply Z.leb_gt in E3. rewrite length_app, firstn_length_le by lia.
      split; [|split; [reflexivity|reflexivity]].
      change (List.length (utf8.runes (bytesOf "..."))) with 3%nat. lia. }
  split; [|split; [|exact Hcut]].
  - destruct (Z_le_gt_dec (Z.of_nat (runeCount s)) maxLen) as [Hle|Hgt].
    + subst t. unfold truncateString. fold (runeCount s).
      apply Z.leb_le in Hle. rewrite Hle. now apply Z.leb_le.
    + destruct Hcut as [H _]; lia.
  - intros Hle. subst t. unfold truncateString. fold (runeCount s).
    apply Z.leb_le in Hle. now rewrite Hle.
Qed.

Lemma truncateString_fits_witness :
  (Z.of_nat (runeCount (truncateString "chapter one" 8)) <= 8)%Z
  /\ truncateString "chapter one" 8 = "chapt..."%string.
Proof.
  destruct (truncateString_fits "chapter one" 8) as (H1 & _ & H3); [lia|].
  split; [exact H1|].
  destruct H3 as (_ & _ & H); [vm_compute; reflexivity|].
  rewrite H by lia. reflexivity.
Defined.

(** ** The queue of the pool *)

Section Queue.

Variable zipEncode : list zip.member -> bytes.
Variable word : wordSize.

(** The items no worker has taken yet: in the channel, then still to
    send. *)
Definition waiting (p : Pool) : list WorkItem := workChan p ++ toSend p.

(** A step leaves the items that wait, or a worker at [range workChan]
    takes the first of them. *)
Lemma step_waiting (p q : Pool) :
  step zipEncode word p q ->
  waiting q = waiting p
  \/ exists i item,
       waiting p = item :: waiting q
       /\ nth_error (workers p) i = Some Receiving
       /\ nth_error (workers q) i = Some (Holding item).
Proof.
  unfold waiting.
  intros [p' item rest Hsend Hopen Hcap|p' Hsend Hopen
         |p' i item rest Hw Hchan|p' i item Hw|p' i Hw Hchan Hcl];
    cbn [toSend closed workChan capacity workers sharedStats sharedWorld].
  - left. now rewrite Hsend, <- app_assoc.
  - left. now rewrite Hsend.
  - right. exists i, item. rewrite Hchan. split; [reflexivity|]. split; [exact Hw|].
    apply nth_error_setWorker. apply nth_error_Some. congruence.
  - now left.
  - now left.
Qed.

(** X7: the queue of [processConcurrently] keeps the order of the work
    list and its bound.  In every state the pool reaches, the items that
    wait are the work list without the items already taken, in the order of
    the list, and the channel holds at most [numThreads] of them; a step
    changes the waiting items only by a worker taking the first one. *)
Theorem queue_keeps_order_and_bound (workItems : list WorkItem) (numThreads : Z)
    (stats : ConversionStats) (w : World) (p : Pool) :
  steps zipEncode word (startPool workItems numThreads stats w) p ->
  (exists taken, workItems = taken ++ waiting p)
  /\ (List.length (workChan p) <= Z.to_nat numThreads)%nat
  /\ capacity p = Z.to_nat numThreads
  /\ forall q, step zipEncode word p q ->
       waiting q = waiting p
       \/ exists i item,
            waiting p = item :: waiting q
            /\ nth_error (workers p) i = Some Receiving
            /\ nth_error (workers q) i = Some (Holding item).
Proof.
  intros Hsteps.
  assert ((exists taken, workItems = taken ++ waiting p)
          /\ (List.length (workChan p) <= capacity p)%nat
          /\ capacity p = Z.to_nat numThreads) as (Ht & Hb & Hc).
  { remember (startPool workItems numThreads stats w) as p0 eqn:E.
    assert ((exists taken, workItems = taken ++ waiting p0)
            /\ (List.length (workChan p0) <= capacity p0)%nat
            /\ capacity p0 = Z.to_nat numThreads) as H0.
    { subst p0. split; [exists []; reflexivity|]. split; [simpl; lia|reflexivity]. }
    clear E. induction Hsteps as [p|p q r Hpq _ IH]; [exact H0|].
    apply IH. destruct H0 as ([taken Ht] & Hb & Hc).
    split; [|split].
    - destruct (step_waiting _ _ Hpq) as [->|(i & item & Hw & _)]; [eauto|].
      exists (taken ++ [item]). now rewrite Ht, Hw, <- app_assoc.
    - destruct Hpq as [p' item rest Hsend Hopen Hcap| | | |];
        cbn [workChan capacity]; try assumption.
      + rewrite length_app. simpl. lia.
      + match goal with H : workChan _ = _ :: _ |- _ => rewrite H in Hb end.
        simpl in Hb. lia.
    - now rewrite (step_capacity _ _ _ _ Hpq). }
  split; [exact Ht|]. split; [lia|]. split; [exact Hc|].
  intros q. apply step_waiting.
Qed.

End Queue.

(** The pool of two workers after the first of two items was sent. *)
Definition firstSent : Pool :=
  {| toSend := [Sample.item "b"]; closed := false;
     workChan := [Sample.item "a"]; capacity := 2;
     workers := [Receiving; Receiving];
     sharedStats := Sample.noStats 2; sharedWorld := Sample.world |}.

Lemma firstSent_reached :
  steps Sample.encode W64
    (startPool (createWorkItems "in" "out" ["a"; "b"]%string) 2
       (Sample.noStats 2) Sample.world)
    firstSent.
Proof.
  eapply stepsStep; [|apply stepsRefl].
  apply (stepSend Sample.encode W64
           (startPool (createWorkItems "in" "out" ["a"; "b"]%string) 2
              (Sample.noStats 2) Sample.world)
           (Sample.item "a") [Sample.item "b"]); [reflexivity|reflexivity|].
  simpl. lia.
Qed.

Lemma queue_keeps_order_and_bound_witness :
  (exists taken,
     createWorkItems "in" "out" ["a"; "b"]%string = taken ++ waiting firstSent)
  /\ (List.length (workChan firstSent) <= 2)%nat.
Proof.
  destruct (queue_keeps_order_and_bound Sample.encode W64
              (createWorkItems "in" "out" ["a"; "b"]%string) 2
              (Sample.noStats 2) Sample.world firstSent firstSent_reached)
    as (Ht & Hb & _).
  split; [exact Ht|exact Hb].
Defined.

(** ** Every schedule ends *)

Section Schedules.

Variable zipEncode : list zip.member -> bytes.
Variable word : wordSize.

(** A run of [n] steps. *)
Inductive stepsN : nat -> Pool -> Pool -> Prop :=
| stepsN0 p : stepsN 0 p p
| stepsNS n p q r : step zipEncode word p q -> stepsN n q r -> stepsN (S n) p r.

(** Every step does one unit of the work that is left. *)
Lemma step_workLeft_one (p q : Pool) :
  step zipEncode word p q -> workLeft p = S (workLeft q).
Proof.
  unfold workLeft.
  intros [p' item rest Hsend Hopen Hcap|p' Hsend Hopen
         |p' i item rest Hw Hchan|p' i item Hw|p' i Hw Hchan Hcl];
    cbn [toSend closed workChan capacity workers sharedStats sharedWorld].
  - rewrite Hsend, length_app. cbn [List.length]. lia.
  - rewrite Hsend, Hopen. lia.
  - rewrite Hchan. cbn [List.length].
    pose proof (list_sum_setWorker weight _ _ _ (Holding item) Hw) as Hh.
    cbn [weight] in Hh. lia.
  - pose proof (list_sum_setWorker weight _ _ _ Receiving Hw) as Hh.
    cbn [weight] in Hh. lia.
  - pose proof (list_sum_setWorker weight _ _ _ Returned Hw) as Hh.
    cbn [weight] in Hh. lia.
Qed.

(** The channel is closed after the last item was sent, and a worker
    returns only from a closed, empty channel. *)
Definition closedInOrder (p : Pool) : Prop :=
  (closed p = true -> toSend p = [])
  /\ (In Returned (workers p) -> closed p = true /\ workChan p = []).

Lemma step_closedInOrder (p q : Pool) :
  step zipEncode word p q -> closedInOrder p -> closedInOrder q.
Proof.
  unfold closedInOrder.
  intros [p' item rest Hsend Hopen Hcap|p' Hsend Hopen
         |p' i item rest Hw Hchan|p' i item Hw|p' i Hw Hchan Hcl] [Hc Hr];
    cbn [toSend closed workChan capacity workers sharedStats sharedWorld].
  - split; [intros H; rewrite Hc in Hsend by exact H; discriminate|].
    intros H. destruct (Hr H) as [H1 _]. congruence.
  - split; [reflexivity|]. intros H. destruct (Hr H) as [H1 _]. congruence.
  - split; [exact Hc|]. intros H. apply in_setWorker in H as [H|H]; [discriminate|].
    destruct (Hr H) as [_ H2]. congruence.
  - split; [exact Hc|]. intros H. apply in_setWorker in H as [H|H]; [discriminate|].
    exact (Hr H).
  - split; [exact Hc|]. intros _. auto.
Qed.

Lemma weights_zero (ws : list goroutine) :
  list_sum (map weight ws) = 0%nat <-> Forall (eq Returned) ws.
Proof.
  induction ws as [|g ws IH]; simpl.
  - split; [constructor|reflexivity].
  - split.
    + intros H. destruct g; simpl in H; try lia.
      constructor; [reflexivity|]. apply IH. lia.
    + intros H. inversion H as [|? ? <- Hws]; subst. simpl. now apply IH.
Qed.

Lemma stepsN_facts (n : nat) (p q : Pool) :
  stepsN n p q ->
  workLeft p = (n + workLeft q)%nat
  /\ capacity q = capacity p
  /\ List.length (workers q) = List.length (workers p)
  /\ (closedInOrder p -> closedInOrder q).
Proof.
  induction 1 as [p|n p q r Hpq _ (IH1 & IH2 & IH3 & IH4)].
  - split; [reflexivity|]. split; [reflexivity|]. split; [reflexivity|auto].
  - split; [rewrite (step_workLeft_one _ _ Hpq); lia|].
    split; [now rewrite IH2, (step_capacity _ _ _ _ Hpq)|].
    split.
    + rewrite IH3. destruct Hpq; cbn [workers]; now rewrite ?length_setWorker.
    + intros H. apply IH4. now apply (step_closedInOrder _ _ Hpq).
Qed.

(** X8: [processConcurrently] ends under every schedule.  With at least
    one thread, however the goroutines are interleaved, the pool is never
    stuck before [wg.Wait()] returns, and it returns after exactly
    [3 * len(workItems) + numThreads + 1] steps: a send, a receive and a
    job for every item, the close of the channel, and the return of every
    worker.  No run is longer. *)
Theorem every_schedule_ends (workItems : list WorkItem) (numThreads : Z)
    (stats : ConversionStats) (w : World) (n : nat) (p : Pool) :
  (1 <= numThreads)%Z ->
  stepsN n (startPool workItems numThreads stats w) p ->
  let total := (3 * List.length workItems + Z.to_nat numThreads + 1)%nat in
  (n <= total)%nat
  /\ (joined p <-> n = total)
  /\ (~ joined p -> exists q, step zipEncode word p q).
Proof.
  intros Hth Hrun total.
  destruct (stepsN_facts _ _ _ Hrun) as (Hleft & Hcap & Hlen & Hord).
  assert (workLeft (startPool workItems numThreads stats w) = total) as Hstart.
  { unfold workLeft, startPool.
    cbn [toSend closed workChan capacity workers sharedStats sharedWorld].
    assert (forall k, list_sum (map weight (repeat Receiving k)) = k) as ->
      by (induction k as [|k IH]; simpl; [reflexivity|now rewrite IH]).
    simpl. lia. }
  rewrite Hstart in Hleft.
  assert (closedInOrder p) as [Hc Hr].
  { apply Hord. split; [discriminate|]. cbn [startPool workers].
    intros H. apply repeat_spec in H. discriminate. }
  cbn [startPool capacity workers] in Hcap, Hlen. rewrite repeat_length in Hlen.
  split; [lia|]. split.
  - split.
    + intros Hj. unfold joined in Hj.
      assert (In Returned (workers p)) as Hin.
      { destruct (workers p) as [|g ws]; [simpl in Hlen; lia|].
        inversion Hj; subst. now left. }
      destruct (Hr Hin) as [Hcl Hch]. pose proof (Hc Hcl) as Hts.
      apply weights_zero in Hj. unfold workLeft in Hleft.
      rewrite Hts, Hch, Hj, Hcl in Hleft. simpl in Hleft. lia.
    + intros ->. unfold joined. apply weights_zero. unfold workLeft in Hleft. lia.
  - apply pool_progress. lia.
Qed.

End Schedules.

Lemma every_schedule_ends_witness :
  ~ joined firstSent /\ exists q, step Sample.encode W64 firstSent q.
Proof.
  assert (~ joined firstSent) as Hj.
  { intros H. inversion H as [|? ? Hg _]. discriminate. }
  split; [exact Hj|].
  destruct (every_schedule_ends Sample.encode W64
              (createWorkItems "in" "out" ["a"; "b"]%string) 2
              (Sample.noStats 2) Sample.world 1 firstSent) as (_ & _ & H).
  - lia.
  - eapply stepsNS; [|apply stepsN0].
    apply (stepSend Sample.encode W64
             (startPool (createWorkItems "in" "out" ["a"; "b"]%string) 2
                (Sample.noStats 2) Sample.world)
             (Sample.item "a") [Sample.item "b"]); [reflexivity|reflexivity|].
    simpl. lia.
  - exact (H Hj).
Defined.

(** ** A build that fails *)

(** What [addFileToZip] leaves in the writer when it fails: nothing, or
    the header of the file with no content (the name was too long, or the
    file could not be read). *)
Lemma addFileToZip_Err (fs : os.FS) (zipWriter zipWriter' : zip.Writer)
    (filePath baseDir : string) (e : error) :
  addFileToZip fs zipWriter filePath baseDir = (zipWriter', Some e) ->
  zip.dir zipWriter' = zip.dir zipWriter
  \/ exists h, zip.dir zipWriter'
               = zip.dir zipWriter ++ [{| zip.header := h; zip.body := [] |}].
Proof.
  unfold addFileToZip. intros H.
  destruct (filepath.Rel baseDir filePath) as [rel|e1]; [|inversion H; now left].
  destruct (os.Open fs filePath) as [file|e1]; [|inversion H; now left].
  unfold os.FStat, zip.FileInfoHeader, zip.CreateHeader in H.
  cbn [zip.Name zip.dir] in H.
  destruct (65535 <? _)%Z; [inversion H; right; cbn [zip.dir]; eauto|].
  destruct (os.ReadAll file); [discriminate|].
  inversion H. right. cbn [zip.dir]. eauto.
Qed.

(** X9: the loop of [convertToCBZ] over the image files stops at the first
    file that cannot be added and returns that file's error.  The files
    before it are in the archive as members, in order; of the failing file
    there is nothing, or a header without content; the files after it are
    never looked at, so the outcome is the same whatever they are. *)
Theorem build_stops_at_first_error (fs : os.FS) (sourceDir : string)
    (imageFiles : list string) (zipWriter zipWriter' : zip.Writer) (e : error) :
  addImageFiles fs zipWriter imageFiles sourceDir = (zipWriter', Some e) ->
  exists good bad rest members before,
    imageFiles = good ++ bad :: rest
    /\ Forall2 (stored fs sourceDir) good members
    /\ zip.dir before = zip.dir zipWriter ++ members
    /\ addFileToZip fs before bad sourceDir = (zipWriter', Some e)
    /\ (zip.dir zipWriter' = zip.dir zipWriter ++ members
        \/ exists h, zip.dir zipWriter'
                     = zip.dir zipWriter ++ members
                       ++ [{| zip.header := h; zip.body := [] |}])
    /\ forall others,
         addImageFiles fs zipWriter (good ++ bad :: others) sourceDir
         = (zipWriter', Some e).
Proof.
  revert zipWriter. induction imageFiles as [|p ps IH]; intros zw H; simpl in H.
  - discriminate.
  - destruct (addFileToZip fs zw p sourceDir) as [zw1 [e1|]] eqn:E.
    + inversion H; subst zw1 e1. exists [], p, ps, [], zw.
      split; [reflexivity|]. split; [constructor|]. split; [now rewrite app_nil_r|].
      split; [exact E|]. split.
      * rewrite app_nil_r. cbn [app]. exact (addFileToZip_Err _ _ _ _ _ _ E).
      * intros others. simpl. now rewrite E.
    + destruct (IH zw1 H) as (good & bad & rest & ms & before
                              & -> & Hst & Hb & Hbad & Hdir & Hany).
      pose proof E as E'. apply addFileToZip_Ok in E' as (m & Hm & Hd).
      exists (p :: good), bad, rest, (m :: ms), before.
      split; [reflexivity|]. split; [now constructor|].
      split; [now rewrite Hb, Hd, <- app_assoc|]. split; [exact Hbad|]. split.
      * destruct Hdir as [Hdir|[h Hdir]]; [left|right; exists h];
          rewrite Hdir, Hd, <- ?app_assoc; reflexivity.
      * intros others. simpl. rewrite E. apply Hany.
Qed.

Lemma build_stops_at_first_error_witness :
  exists good bad rest members before,
    ["in/c/page.jpg"; "in/c/locked"; "in/c/page.jpg"]%string = good ++ bad :: rest
    /\ Forall2 (stored Sample.root "in/c") good members
    /\ zip.dir before = zip.dir zip.NewWriter ++ members
    /\ addFileToZip Sample.root before bad "in/c"
       = ({| zip.dir := [entryFor "page.jpg"
                           {| os.openErr := None; os.readErr := None;
                              os.data := Sample.jpeg; os.modTime := 1700000000 |}] |},
          Some (PathError "open" "in/c/locked" EACCES)).
Proof.
  destruct (build_stops_at_first_error Sample.root "in/c"
              ["in/c/page.jpg"; "in/c/locked"; "in/c/page.jpg"]%string
              zip.NewWriter
              {| zip.dir := [entryFor "page.jpg"
                               {| os.openErr := None; os.readErr := None;
                                  os.data := Sample.jpeg;
                                  os.modTime := 1700000000 |}] |}
              (PathError "open" "in/c/locked" EACCES) eq_refl)
    as (good & bad & rest & members & before & H1 & H2 & H3 & H4 & _).
  exists good, bad, rest, members, before. auto.
Defined.

(** ** A scan that fails *)

(** The walk of a tree with a directory that cannot be read ends with the
    error of opening such a directory. *)
Lemma walkDir_unreadable_at (fs : os.FS) (n : os.node) :
  forall path name s, readable n = false ->
    exists s' p e es,
      walkDir (visit fs) path name n s = (s', Some (PathError "open" p e))
      /\ reaches path n p (os.Dir (Some e) es).
Proof.
  induction n as [f|le es IH] using node_induction; intros path name s R.
  - discriminate.
  - destruct le as [e|].
    + exists s, path, e, es. split; [reflexivity|constructor].
    + rewrite walkDir_Dir, visit_dir. rewrite readable_Dir in R.
      assert (forall es0, incl es0 es -> readableAll es0 = false ->
                forall s0, exists s' p e es',
                  walkEntries (visit fs) path es0 s0
                  = (s', Some (PathError "open" p e))
                  /\ reaches path (os.Dir None es) p (os.Dir (Some e) es')) as Hall.
      { induction es0 as [|[name1 c] es0 IHes]; intros Hincl R0 s0; [discriminate|].
        simpl in R0 |- *.
        assert (In (name1, c) es) as Hin by (apply Hincl; now left).
        destruct (readable c) eqn:Rc.
        - rewrite walkDir_readable by exact Rc. apply IHes; [|exact R0].
          intros x Hx. apply Hincl. now right.
        - rewrite Forall_forall in IH.
          pose proof (IH _ Hin (filepath.Join path name1) name1 s0 Rc) as Hc.
          cbn [snd] in Hc. destruct Hc as (s' & p & e & es' & Heq & Hreach).
          rewrite Heq. exists s', p, e, es'. split; [reflexivity|].
          econstructor; eassumption. }
      apply Hall; [apply incl_refl|exact R].
Qed.

(** X10: the scan fails exactly when the walk cannot be made: the folder
    does not resolve (the error of [os.Lstat] on it), or a directory the
    walk reaches cannot be opened (the error of opening that directory).
    The lists gathered so far are dropped, the conversion fails with
    "failed to analyze directory" around that error, and the file system
    is as it was: no archive is created. *)
Theorem scan_fails_where_walk_fails (zipEncode : list zip.member -> bytes)
    (dir cbzPath : string) (w : World) :
  (scannable (files w) dir = true
   <-> exists lists, fst (analyzeDirectory dir w) = Ok lists)
  /\ (scannable (files w) dir = false ->
      exists err,
        fst (analyzeDirectory dir w) = Err err
        /\ match os.resolve (files w) dir with
           | os.Errno e => err = PathError "lstat" dir e
           | os.Got n =>
               exists p e es, err = PathError "open" p e
                              /\ reaches dir n p (os.Dir (Some e) es)
           end
        /\ fst (convertToCBZ zipEncode dir cbzPath w)
           = Err (Wrapped "failed to analyze directory" err)
        /\ files (snd (convertToCBZ zipEncode dir cbzPath w)) = files w).
Proof.
  assert (scannable (files w) dir = false ->
          exists err,
            fst (analyzeDirectory dir w) = Err err
            /\ match os.resolve (files w) dir with
               | os.Errno e => err = PathError "lstat" dir e
               | os.Got n =>
                   exists p e es, err = PathError "open" p e
                                  /\ reaches dir n p (os.Dir (Some e) es)
               end) as Hfail.
  { unfold scannable, analyzeDirectory, WalkDir. intros R.
    destruct (os.resolve (files w) dir) as [n|e].
    - destruct (walkDir_unreadable_at (files w) n dir (filepath.Base dir)
                  {| imageFiles := []; nonImageFiles := []; printed := [] |} R)
        as (s' & p & e & es & -> & Hreach).
      eexists. split; [reflexivity|]. eauto.
    - simpl. eauto. }
  split.
  - split.
    + intros R. rewrite analyzeDirectory_scannable by exact R.
      eexists. reflexivity.
    + intros [lists H]. destruct (scannable (files w) dir) eqn:R; [reflexivity|].
      destruct (Hfail eq_refl) as (err & He & _). congruence.
  - intros R. destruct (Hfail R) as (err & He & Hwhere).
    exists err. split; [exact He|]. split; [exact Hwhere|].
    destruct (convertToCBZ_cases zipEncode dir cbzPath w)
      as [(e1 & Ha & Hr & Hf)|[(ni & Ha & _)|(images & ni & Ha & _)]];
      try congruence.
    split; [|exact Hf]. rewrite Hr. congruence.
Qed.

(** ** The exit code *)

(** The test [main] makes on the input directory. *)
Lemma input_missing (fs : os.FS) (path : string) :
  match os.Stat fs path with
  | Err err => os.IsNotExist (Some err)
  | Ok _ => false
  end = true
  <-> os.resolve fs path = os.Errno ENOENT.
Proof.
  unfold os.Stat. destruct (os.resolve fs path) as [n|[]]; simpl;
    split; intros H; congruence.
Qed.

Lemma fold_println_stdout (lines : list string) :
  forall w, stdout (fold_left (fun w line => println line w) lines w)
            = stdout w ++ lines.
Proof.
  induction lines as [|l lines IH]; intros w; simpl; [now rewrite app_nil_r|].
  rewrite IH. cbn [println stdout]. now rewrite <- app_assoc.
Qed.

(** The file system of this development takes every element of a path as
    the name of an entry, where the kernel takes [..] as the parent
    directory.  A path without [..] is resolved alike by both. *)
Definition plainPath (path : string) : bool :=
  negb (existsb (String.eqb "..") (os.pathElems path)).

(** X11: the exit code of [main] after [flag.Parse] has returned reports
    the set-up only.  ([flag.Parse] itself ends the program with code 2 on
    a command line it rejects: an undefined flag, a thread count that is no
    integer.  [main] here starts from the flags it leaves.)  For input and
    output paths without [..], the code is 0 or 1, and it is 1 exactly when
    the flags ask for a conversion and the input directory does not exist,
    the output directory cannot be made, or the input directory cannot be
    listed; the last line printed is then an [ERROR] line.  Once the jobs
    are dispatched the exit code is 0, however many of them fail. *)
Theorem exit_code_reports_setup_only (zipEncode : list zip.member -> bytes)
    (word : wordSize) (flags : Flags) (numCPU : Z) (w : World)
    (code : Z) (w' : World) :
  plainPath (inputDir flags) = true ->
  plainPath (outputDir flags) = true ->
  main zipEncode word flags numCPU w code w' ->
  let asked :=
    negb (showVersion flags)
    && negb (showHelp flags || String.eqb (inputDir flags) ""
             || String.eqb (outputDir flags) "") in
  (code = 0 \/ code = 1)%Z
  /\ (code = 1%Z
      <-> asked = true
          /\ (os.resolve (files w) (inputDir flags) = os.Errno ENOENT
              \/ (exists e, os.MkdirAll (files w) (outputDir flags) = Err e)
              \/ (exists fs e, os.MkdirAll (files w) (outputDir flags) = Ok fs
                               /\ getFolders fs (inputDir flags) = Err e)))
  /\ (code = 1%Z -> exists before message, stdout w' = before ++ [logError message])
  /\ (forall items th stats w1,
        mainPrepare word flags numCPU w = Dispatch items th stats w1 -> code = 0%Z).
Proof.
  intros _ _ Hmain. cbv zeta.
  assert (forall items th stats w1,
            mainPrepare word flags numCPU w = Dispatch items th stats w1 ->
            code = 0%Z) as Hdisp.
  { intros items th stats w1 E. unfold main in Hmain. rewrite E in Hmain.
    now destruct Hmain as (stats' & w2 & _ & H & _). }
  unfold main, mainPrepare in Hmain.
  destruct (showVersion flags).
  { destruct Hmain as [-> _]. cbn [negb andb].
    split; [now left|]. split; [split; [discriminate|intros [H _]; discriminate]|].
    split; [discriminate|exact Hdisp]. }
  destruct (showHelp flags || _ || _).
  { destruct Hmain as [-> _]. cbn [negb andb].
    split; [now left|]. split; [split; [discriminate|intros [H _]; discriminate]|].
    split; [discriminate|exact Hdisp]. }
  cbn [negb andb].
  destruct (validateThreadCount word (threads flags) numCPU) as [th0 notice].
  pose proof (input_missing (files w) (inputDir flags)) as Hmiss.
  rewrite !fold_println_files in Hmain.
  destruct (match os.Stat (files w) (inputDir flags) with
            | Err err => os.IsNotExist (Some err)
            | Ok _ => false
            end).
  { destruct Hmain as [-> ->]. split; [now right|].
    split; [split; [intros _; split; [reflexivity|left; now apply Hmiss]|reflexivity]|].
    split; [|exact Hdisp]. intros _. rewrite stdout_println. eauto. }
  assert (os.resolve (files w) (inputDir flags) <> os.Errno ENOENT) as Hthere.
  { intros H. apply Hmiss in H. discriminate. }
  destruct (os.MkdirAll (files w) (outputDir flags)) as [fs|e].
  2:{ destruct Hmain as [-> ->]. split; [now right|].
      split; [split; [intros _; split; [reflexivity|right; left; eauto]|reflexivity]|].
      split; [|exact Hdisp]. intros _. rewrite stdout_println. eauto. }
  cbn [files println] in Hmain.
  destruct (getFolders fs (inputDir flags)) as [folders|e] eqn:Hg.
  2:{ destruct Hmain as [-> ->]. split; [now right|].
      split; [split; [intros _; split; [reflexivity|right; right; eauto]|reflexivity]|].
      split; [|exact Hdisp]. intros _. rewrite stdout_println. eauto. }
  assert (code = 0%Z) as Hcode.
  { destruct (Z.of_nat (List.length folders) =? 0)%Z.
    - now destruct Hmain.
    - now destruct Hmain as (stats' & w2 & _ & H & _). }
  subst code.
  split; [now left|]. split; [|split; [discriminate|exact Hdisp]].
  split; [discriminate|].
  intros [_ [H|[[e H]|(fs' & e & H & He)]]]; congruence.
Qed.

Lemma exit_code_reports_setup_only_witness :
  exists before message,
    stdout (println (logError "Input directory does not exist: missing")
                    Sample.world)
    = before ++ [logError message].
Proof.
  destruct (exit_code_reports_setup_only Sample.encode W64
              {| program := "convert_cbz"; inputDir := "missing"; outputDir := "out";
                 threads := 4; showHelp := false; showVersion := false |}
              4 Sample.world 1
              (println (logError "Input directory does not exist: missing")
                       Sample.world))
    as (_ & _ & H & _).
  - reflexivity.
  - reflexivity.
  - split; reflexivity.
  - exact (H eq_refl).
Defined.

(** ** The output directory *)

Lemma mkdirs_lookup (elems : list string) :
  forall n n', os.mkdirs elems n = os.Got n' ->
               exists le es, os.lookup elems n' = os.Got (os.Dir le es).
Proof.
  induction elems as [|name rest IH]; intros n n' H; simpl in H.
  - destruct n as [f|le es]; [discriminate|]. inversion H; subst. simpl. eauto.
  - destruct n as [f|le es]; [discriminate|].
    destruct (os.mkdirs rest _) as [child'|] eqn:E; [|discriminate].
    inversion H; subst n'. cbn [os.lookup]. rewrite find_setEntry_same.
    eapply IH; eauto.
Qed.

Lemma MkdirAll_exists (fs fs' : os.FS) (dir : string) :
  os.MkdirAll fs dir = Ok fs' ->
  exists le es, os.resolve fs' dir = os.Got (os.Dir le es).
Proof.
  unfold os.MkdirAll, os.resolve. intros H.
  destruct (String.eqb dir ""); [discriminate|].
  destruct (os.mkdirs (os.pathElems dir) fs) as [n|] eqn:E; [|discriminate].
  inversion H; subst n. eapply mkdirs_lookup; eauto.
Qed.

(** X12: [main] makes the output directory before it reads the input
    directory, and it only checks that the input path exists.  So when the
    input path is a regular file, the run still makes the output directory
    and then fails: exit code 1, the last line is the [ERROR] line of
    [os.ReadDir], "not a directory" under the operation [open] (or
    [readdirent], with an older library), and the output directory
    is there. *)
Theorem input_file_fails_after_output_is_made (zipEncode : list zip.member -> bytes)
    (word : wordSize) (flags : Flags) (numCPU : Z) (w : World) (f : os.file)
    (fs : os.FS) (code : Z) (w' : World) :
  showVersion flags = false ->
  showHelp flags || String.eqb (inputDir flags) ""
    || String.eqb (outputDir flags) "" = false ->
  os.resolve (files w) (inputDir flags) = os.Got (os.File f) ->
  os.MkdirAll (files w) (outputDir flags) = Ok fs ->
  main zipEncode word flags numCPU w code w' ->
  code = 1%Z
  /\ files w' = fs
  /\ (exists le es, os.resolve (files w') (outputDir flags) = os.Got (os.Dir le es))
  /\ exists before op,
       stdout w'
       = before ++ [logError ("Failed to read input directory: " +++ op +++ " "
                              +++ inputDir flags +++ ": not a directory")]
       /\ (op = "open" \/ op = "readdirent")%string.
Proof.
  intros Hv Hh Hin Hmk. unfold main, mainPrepare. rewrite Hv, Hh.
  destruct (validateThreadCount word (threads flags) numCPU) as [th0 notice].
  rewrite !fold_println_files.
  unfold os.Stat. rewrite Hin, Hmk. cbn [files println].
  pose proof (MkdirAll_keeps _ _ _ _ _ Hmk Hin) as Hin'.
  unfold getFolders, os.ReadDir. rewrite Hin'.
  intros [-> ->]. split; [reflexivity|]. split; [reflexivity|]. cbn [files].
  split; [now apply (MkdirAll_exists (files w))|].
  rewrite stdout_println. eexists _, "open"%string.
  split; [reflexivity|now left].
Qed.

Lemma input_file_fails_after_output_is_made_witness :
  exists w',
    main Sample.encode W64
      {| program := "convert_cbz"; inputDir := "in/readme"; outputDir := "new/out";
         threads := 4; showHelp := false; showVersion := false |}
      4 Sample.world 1 w'
    /\ (exists le es, os.resolve (files w') "new/out" = os.Got (os.Dir le es))
    /\ last (stdout w') ""%string
       = logError "Failed to read input directory: open in/readme: not a directory".
Proof.
  eexists. split; [split; reflexivity|]. split; [|reflexivity].
  destruct (input_file_fails_after_output_is_made Sample.encode W64
              {| program := "convert_cbz"; inputDir := "in/readme";
                 outputDir := "new/out"; threads := 4; showHelp := false;
                 showVersion := false |}
              4 Sample.world
              {| os.openErr := None; os.readErr := None; os.data := Sample.text;
                 os.modTime := 1700000000 |}
              _ 1 _ eq_refl eq_refl eq_refl eq_refl (conj eq_refl eq_refl))
    as (_ & _ & H & _).
  exact H.
Defined.

(** ** Archives that are written *)

(** X13: an archive that is there is final.  Once the output path of an
    item holds a regular file, no later step of the pool changes it, and a
    job for the item at any later time is skipped: it counts as skipped,
    and leaves the file system as it is. *)
Theorem written_archive_is_final (zipEncode : list zip.member -> bytes)
    (word : wordSize) (p q : Pool) (item : WorkItem) (f : os.file) :
  steps zipEncode word p q ->
  os.resolve (files (sharedWorld p)) (OutputPath item) = os.Got (os.File f) ->
  os.resolve (files (sharedWorld q)) (OutputPath item) = os.Got (os.File f)
  /\ forall workerID stats,
       let r := processWorkItem zipEncode word workerID item stats (sharedWorld q) in
       fst r = count word SkippedExisting stats
       /\ files (snd r) = files (sharedWorld q).
Proof.
  intros Hsteps Hp.
  pose proof (steps_keep_existing_files _ _ _ _ _ _ Hsteps Hp) as Hq.
  split; [exact Hq|]. intros workerID stats r. subst r.
  assert (exists info, os.Stat (files (sharedWorld q)) (OutputPath item) = Ok info)
    as [info Hs] by (unfold os.Stat; rewrite Hq; eauto).
  rewrite (processWorkItem_skip _ _ _ _ _ _ _ Hs). split; reflexivity.
Qed.

(** The pool of two workers with one of them holding the second item,
    after the first item was converted. *)
Definition firstDone : Pool :=
  {| toSend := []; closed := true; workChan := []; capacity := 2;
     workers := [Receiving; Holding (Sample.item "b")];
     sharedStats := Sample.noStats 2;
     sharedWorld := snd (processWorkItem Sample.encode W64 1 (Sample.item "a")
                           (Sample.noStats 2) Sample.world) |}.

Lemma written_archive_is_final_witness :
  exists q,
    step Sample.encode W64 firstDone q
    /\ fst (processWorkItem Sample.encode W64 1 (Sample.item "a") (sharedStats q)
              (sharedWorld q))
       = count W64 SkippedExisting (sharedStats q).
Proof.
  eexists. split; [apply (stepProcess Sample.encode W64 firstDone 1
                            (Sample.item "b")); reflexivity|].
  eapply written_archive_is_final.
  - eapply stepsStep; [|apply stepsRefl].
    apply (stepProcess Sample.encode W64 firstDone 1 (Sample.item "b")).
    reflexivity.
  - vm_compute. reflexivity.
Defined.

(** ** What a successful conversion leaves *)

(** X14: a successful conversion never leaves an empty archive.  The
    archive at the destination has one member for every path of the image
    list the scan returned, in the order of the list, which is not empty;
    all are deflated; and the count returned is the length of the list of
    the other files, so it is not negative. *)
Theorem successful_archive_is_not_empty (zipEncode : list zip.member -> bytes)
    (sourceDir cbzPath : string) (w w' : World) (n : Z) :
  convertToCBZ zipEncode sourceDir cbzPath w = (Ok n, w') ->
  exists images nonImages members,
    fst (analyzeDirectory sourceDir w) = Ok (images, nonImages)
    /\ images <> [] /\ members <> []
    /\ List.length members = List.length images
    /\ Forall (fun m => zip.Method (zip.header m) = zip.Deflate) members
    /\ os.resolve (files w') cbzPath
       = os.Got (os.File {| os.openErr := None; os.readErr := None;
                            os.data := zipEncode members; os.modTime := 0 |})
    /\ n = Z.of_nat (List.length nonImages) /\ (0 <= n)%Z.
Proof.
  intros H.
  pose proof (convertToCBZ_cases zipEncode sourceDir cbzPath w) as C.
  rewrite H in C. cbn [fst snd] in C.
  destruct C as [(e1 & _ & Hr & _)|[(ni & _ & Hr & _)|(imgs & ni & Ha & Hne & C)]];
    try discriminate.
  destruct C as [(e1 & _ & Hr & _)|(created & zw & failed & Hc & Hadd & Hf & Hr)];
    [discriminate|].
  destruct failed as [e1|]; [discriminate|]. inversion Hr; subst n. clear Hr.
  apply addImageFiles_Ok in Hadd as (members & Hd & Hall).
  cbn [zip.dir zip.NewWriter app] in Hd. rewrite Hd in Hf.
  exists imgs, ni, members. split; [exact Ha|]. split; [exact Hne|].
  pose proof (Forall2_length Hall) as Hlen.
  split; [|split; [now symmetry|split; [|split; [|split; [reflexivity|lia]]]]].
  - intros ->. destruct imgs; [congruence|discriminate].
  - revert Hall. apply Forall2_right.
    intros path m (rel & f & _ & _ & _ & _ & ->). reflexivity.
  - rewrite Hf. apply (Create_then_resolve _ _ _ _ Hc).
Qed.

Lemma successful_archive_is_not_empty_witness :
  exists images nonImages (members : list zip.member),
    fst (analyzeDirectory "in/a" Sample.world) = Ok (images, nonImages)
    /\ images <> [] /\ members <> [] /\ List.length members = List.length images.
Proof.
  destruct (successful_archive_is_not_empty Sample.encode "in/a" "out/a.cbz"
              Sample.world
              (snd (convertToCBZ Sample.encode "in/a" "out/a.cbz" Sample.world))
              2 eq_refl)
    as (images & nonImages & members & H1 & H2 & H3 & H4 & _).
  exists images, nonImages, members. auto.
Defined.

(** ** The names of the members *)

Lemma namesBelow_head (es : list (string * os.node)) (names : list string) :
  In names (namesBelow es) ->
  exists name rest, names = name :: rest /\ In name (map fst es).
Proof.
  induction es as [|[k v] es IH]; [contradiction|].
  simpl. intros H. apply in_app_or in H as [H|H].
  - apply in_map_iff in H as (rest & <- & _). eauto.
  - destruct (IH H) as (name & rest & -> & Hin). eauto.
Qed.

(** No file of a well-formed tree is listed twice. *)
Lemma namesUnder_NoDup (n : os.node) :
  wellFormed n = true -> NoDup (namesUnder n).
Proof.
  induction n as [f|le es IH] using node_induction; intros W.
  - repeat constructor. intros [].
  - rewrite namesUnder_Dir. rewrite wellFormed_Dir in W.
    apply andb_prop in W as [D W].
    induction es as [|[name c] es IHes]; [constructor|].
    inversion IH as [|? ? IHc IHrest]; subst. cbn [snd] in IHc.
    simpl in D, W. apply andb_prop in D as [Dn Des].
    apply andb_prop in W as [W Wes]. apply andb_prop in W as [_ Wc].
    simpl. apply NoDup_app.
    + apply Finite.Injective_map_NoDup; [|now apply IHc].
      intros a b Hab. now inversion Hab.
    + now apply IHes.
    + intros names H1 H2. apply in_map_iff in H1 as (rest & <- & _).
      apply namesBelow_head in H2 as (name' & rest' & Heq & Hin).
      inversion Heq; subst name' rest'.
      apply negb_true_iff in Dn.
      assert (existsb (String.eqb name) (map fst es) = true) as Hx; [|congruence].
      apply existsb_exists. exists name. split; [exact Hin|apply String.eqb_refl].
Qed.

(** The scanned paths of a directory of a well-formed tree, once more:
    each comes from the names that lead to the file, and no path comes
    twice. *)
Lemma scannedFiles_names (fs : os.FS) (dir : string)
    (le : option errno) (es : list (string * os.node)) :
  wellFormed fs = true -> os.resolve fs dir = os.Got (os.Dir le es) ->
  NoDup (scannedFiles fs dir)
  /\ forall path, In path (scannedFiles fs dir) ->
       exists names,
         names <> [] /\ validNames names
         /\ filepath.Rel dir path = Ok (filepath.joinElems names)
         /\ os.resolve fs path = os.lookup names (os.Dir le es).
Proof.
  unfold scannedFiles. intros W R. rewrite R.
  unfold os.resolve in R. destruct (String.eqb dir "") eqn:Ed; [discriminate|].
  apply String.eqb_neq in Ed.
  destruct (lookup_wellFormed _ _ _ W R) as [V Wn].
  rewrite filesUnder_names by assumption.
  assert (forall names, In names (namesUnder (os.Dir le es)) ->
            validNames (os.pathElems dir ++ names)) as Vall.
  { intros names Hin. apply Forall_app. split; [exact V|].
    exact (proj1 (lookup_namesUnder _ Wn names Hin)). }
  split.
  - apply NoDup_map_NoDup_ForallPairs; [|now apply namesUnder_NoDup].
    intros a b Ha Hb Hab. apply (f_equal os.pathElems) in Hab.
    rewrite !pathElems_render in Hab by auto. now apply app_inv_head in Hab.
  - intros path Hin. apply in_map_iff in Hin as (names & <- & Hin).
    destruct (lookup_namesUnder _ Wn names Hin) as (Vn & _).
    pose proof (namesUnder_Dir_not_nil _ _ _ Hin) as Hn.
    exists names. split; [exact Hn|]. split; [exact Vn|].
    split; [now apply Rel_below|].
    unfold os.resolve.
    pose proof (render_not_empty (filepath.isRooted dir) (os.pathElems dir ++ names)) as Hr.
    apply String.eqb_neq in Hr. rewrite Hr, pathElems_render by auto.
    now rewrite lookup_app, R.
Qed.

(** The members of the archive of a successful conversion, by the image
    list of the scan. *)
Lemma convertToCBZ_members (zipEncode : list zip.member -> bytes)
    (sourceDir cbzPath : string) (w w' : World) (n : Z) (e : error) :
  wellFormed (files w) = true ->
  os.Stat (files w) cbzPath = Err e ->
  convertToCBZ zipEncode sourceDir cbzPath w = (Ok n, w') ->
  exists members,
    os.resolve (files w') cbzPath
    = os.Got (os.File {| os.openErr := None; os.readErr := None;
                         os.data := zipEncode members; os.modTime := 0 |})
    /\ Forall2 (stored (files w) sourceDir)
               (sort.Strings (filter (fun p => negb (isNonImage (files w) p))
                                     (scannedFiles (files w) sourceDir)))
               members.
Proof.
  intros W Hs H.
  pose proof (convertToCBZ_cases zipEncode sourceDir cbzPath w) as C.
  rewrite H in C. cbn [fst snd] in C.
  destruct C as [(e1 & _ & Hr & _)|[(ni & _ & Hr & _)|(imgs & ni & Ha & _ & C)]];
    try discriminate.
  destruct C as [(e1 & _ & Hr & _)|(created & zw & failed & Hc & Hadd & Hf & Hr)];
    [discriminate|].
  destruct failed as [e1|]; [discriminate|].
  destruct (analyzeDirectory sourceDir w) as [r w1] eqn:EA.
  cbn [fst] in Ha. subst r.
  apply analyzeDirectory_Ok in EA as (_ & Hi & _).
  apply addImageFiles_Ok in Hadd as (members & Hd & Hall).
  cbn [zip.dir zip.NewWriter app] in Hd. rewrite Hd in Hf.
  exists members. split; [rewrite Hf; apply (Create_then_resolve _ _ _ _ Hc)|].
  rewrite <- Hi. revert Hall. apply Forall2_impl_In. intros path m Hp Hm.
  rewrite Hi in Hp. apply Strings_In, filter_In in Hp as [Hp _].
  now apply (stored_before _ _ _ _ _ _ _ W Hs Hc Hp Hm).
Qed.

Lemma Forall2_right_In {A B : Type} (R : A -> B -> Prop) (P : B -> Prop)
    (l : list A) (l' : list B) :
  (forall x y, In x l -> R x y -> P y) -> Forall2 R l l' -> Forall P l'.
Proof.
  intros H F. induction F as [|x y l l' Hxy F IH]; constructor.
  - apply (H x); [now left|exact Hxy].
  - apply IH. intros x' y' Hin. apply H. now right.
Qed.

(** X15: the members of an archive have different names, and every name
    stays inside the folder.  In a well-formed tree, after a successful
    conversion to a destination that was not there, no two members have the
    same name; and for a source folder that is a directory, every name is
    made of the names of nested entries joined by slashes (none empty, [.]
    or [..], no leading slash), which lead from the folder to the very file
    whose bytes the member holds. *)
Theorem member_names_are_distinct_and_inside (zipEncode : list zip.member -> bytes)
    (sourceDir cbzPath : string) (w w' : World) (n : Z) (e : error) :
  wellFormed (files w) = true ->
  os.Stat (files w) cbzPath = Err e ->
  convertToCBZ zipEncode sourceDir cbzPath w = (Ok n, w') ->
  exists members,
    os.resolve (files w') cbzPath
    = os.Got (os.File {| os.openErr := None; os.readErr := None;
                         os.data := zipEncode members; os.modTime := 0 |})
    /\ NoDup (map (fun m => zip.Name (zip.header m)) members)
    /\ forall le es,
         os.resolve (files w) sourceDir = os.Got (os.Dir le es) ->
         Forall (fun m =>
                   exists names f,
                     names <> [] /\ validNames names
                     /\ zip.Name (zip.header m) = filepath.joinElems names
                     /\ filepath.split (zip.Name (zip.header m)) = names
                     /\ os.lookup names (os.Dir le es) = os.Got (os.File f)
                     /\ zip.body m = os.data f)
                members.
Proof.
  intros W Hs H.
  destruct (convertToCBZ_members _ _ _ _ _ _ _ W Hs H) as (members & Hfile & Hst).
  set (fs := files w) in *.
  set (images := sort.Strings _) in Hst.
  assert (forall path, In path images -> In path (scannedFiles fs sourceDir)) as Hfound.
  { intros path Hp. apply Strings_In, filter_In in Hp. tauto. }
  exists members. split; [exact Hfile|]. split.
  - destruct (os.resolve fs sourceDir) as [[f|le es]|e1] eqn:Hsrc.
    + assert (List.length members <= 1)%nat as Hlen.
      { rewrite <- (Forall2_length Hst). unfold images. rewrite Strings_length.
        etransitivity; [apply filter_length_le|].
        unfold scannedFiles. rewrite Hsrc. simpl. lia. }
      destruct members as [|m [|m' ms]]; simpl in Hlen; try lia;
        repeat constructor; intros [].
    + destruct (scannedFiles_names fs sourceDir le es W Hsrc) as [Hnd _].
      assert (NoDup images) as Hni.
      { eapply Permutation_NoDup; [apply Strings_perm|]. now apply NoDup_filter. }
      assert (images
              = map (String.append (dirPrefix (filepath.isRooted sourceDir)
                                              (os.pathElems sourceDir)))
                    (map (fun m => zip.Name (zip.header m)) members)) as Heq.
      { rewrite map_map. apply Forall2_map_right. revert Hst.
        apply Forall2_impl_In. intros path m Hp (rel & f & HR & _ & _ & _ & ->).
        destruct (scannedFiles_relative fs sourceDir path le es W Hsrc (Hfound _ Hp))
          as (names & _ & Hpath & Hrel).
        rewrite Hrel in HR. inversion HR. exact Hpath. }
      rewrite Heq in Hni. now apply NoDup_map_inv in Hni.
    + assert (images = []) as Him.
      { unfold images, scannedFiles. rewrite Hsrc. reflexivity. }
      rewrite Him in Hst. inversion Hst. constructor.
  - intros le es Hsrc.
    destruct (scannedFiles_names fs sourceDir le es W Hsrc) as [_ Hnames].
    revert Hst. apply Forall2_right_In.
    intros path m Hp (rel & f & HR & Hres & _ & _ & ->).
    destruct (Hnames path (Hfound _ Hp)) as (names & Hn & Vn & Hrel & Hlook).
    rewrite Hrel in HR. inversion HR; subst rel.
    exists names, f. split; [exact Hn|]. split; [exact Vn|].
    split; [reflexivity|]. split; [now apply split_joinElems|].
    split; [now rewrite <- Hlook|reflexivity].
Qed.

Lemma member_names_are_distinct_and_inside_witness :
  exists members,
    os.resolve
      (files (snd (convertToCBZ Sample.encode "in/a" "out/a.cbz" Sample.world)))
      "out/a.cbz"
    = os.Got (os.File {| os.openErr := None; os.readErr := None;
                         os.data := Sample.encode members; os.modTime := 0 |})
    /\ NoDup (map (fun m => zip.Name (zip.header m)) members).
Proof.
  destruct (member_names_are_distinct_and_inside Sample.encode "in/a" "out/a.cbz"
              Sample.world
              (snd (convertToCBZ Sample.encode "in/a" "out/a.cbz" Sample.world))
              2 (PathError "stat" "out/a.cbz" ENOENT)
              eq_refl eq_refl eq_refl)
    as (members & H1 & H2 & _).
  exists members. split; [exact H1|exact H2].
Defined.

(** ** A source path that is a file *)

(** X16: [convertToCBZ] does not ask for its source to be a directory.
    When the source path is a regular file the classifier calls an image,
    the walk visits that one file, [filepath.Rel] of the path to itself is
    [.], and the conversion succeeds: the archive has the single member
    [.] with the bytes of the file, and no file is counted as excluded. *)
Theorem file_as_source_gives_dot_member (zipEncode : list zip.member -> bytes)
    (sourceDir cbzPath : string) (w : World) (f : os.file) (e : error)
    (created : os.FS) :
  os.resolve (files w) sourceDir = os.Got (os.File f) ->
  isImageFile (files w) sourceDir = Ok true ->
  os.Stat (files w) cbzPath = Err e ->
  os.Create (files w) cbzPath = Ok created ->
  convertToCBZ zipEncode sourceDir cbzPath w
  = (Ok 0%Z,
     {| files := os.WriteFile created cbzPath (zipEncode [entryFor "." f]);
        stdout := stdout w |}).
Proof.
  intros Hsrc Himg Hs Hc.
  assert (os.openErr f = None /\ os.readErr f = None) as [Ho Hr].
  { unfold isImageFile, os.Open, os.Read in Himg. rewrite Hsrc in Himg.
    destruct (os.openErr f); [discriminate|]. cbn [os.fileNode] in Himg.
    destruct (os.readErr f); [discriminate|]. auto. }
  unfold convertToCBZ.
  rewrite analyzeDirectory_scannable
    by (unfold scannable; now rewrite Hsrc).
  unfold scannedFiles. rewrite Hsrc. cbn [filesUnder filter map].
  unfold isNonImage, unclassified. rewrite Himg. cbn [negb filter map].
  rewrite app_nil_r. cbn [files stdout].
  change (sort.Strings [sourceDir]) with [sourceDir].
  change (sort.Strings []) with (@nil string).
  cbn [List.length Z.of_nat Z.eqb Pos.of_succ_nat]. rewrite Hc.
  pose proof (resolve_apart _ _ _ _ _ Hsrc (Create_not_empty _ _ _ Hc) Hs) as Hne.
  pose proof (Create_keeps _ _ _ _ _ Hc Hne Hsrc) as Hsrc'.
  cbn [addImageFiles]. unfold addFileToZip, filepath.Rel.
  rewrite String.eqb_refl. unfold os.Open. rewrite Hsrc', Ho.
  unfold os.FStat, zip.FileInfoHeader, zip.CreateHeader, os.ReadAll.
  cbn [os.fileNode os.fileName os.infoOf os.Name os.Size os.ModTime
       zip.Name zip.UncompressedSize64 zip.Modified zip.dir zip.NewWriter app].
  rewrite Hr.
  change (65535 <? Z.of_nat (String.length (filepath.ToSlash ".")))%Z with false.
  cbv iota. reflexivity.
Qed.

Lemma file_as_source_gives_dot_member_witness :
  fst (convertToCBZ Sample.encode "in/a/page002.png" "out/p.cbz" Sample.world)
  = Ok 0%Z.
Proof.
  rewrite (file_as_source_gives_dot_member Sample.encode "in/a/page002.png"
             "out/p.cbz" Sample.world
             {| os.openErr := None; os.readErr := None; os.data := Sample.png;
                os.modTime := 1700000000 |}
             (PathError "stat" "out/p.cbz" ENOENT)
             (match os.Create Sample.root "out/p.cbz" with
              | Ok fs => fs
              | Err _ => Sample.root
              end) eq_refl eq_refl eq_refl eq_refl).
  reflexivity.
Defined.
